(** * Kekulisation and aromatisation of molecular graphs (CGRtools)

    A shallow embedding of [CGRtools/algorithms/aromatics.py] (class
    [Aromatize]) together with the properties its specification states.

    Conventions of the embedding.

    - Python [int]s (atom numbers, charges, bond orders, atomic numbers) are
      [Z].  Lengths and slice bounds, which are never negative in this
      code, are [nat].
    - A Python [dict] is an association list in insertion order (the order
      [dict] iteration guarantees).
    - A Python [set] of atom numbers is a duplicate-free list.  Python leaves
      the iteration order of a set unspecified; the embedding iterates a set
      in insertion order.  Since the neighbour sets of the skeleton are
      filled while iterating over the adjacency dictionaries of the molecule,
      quantifying over all molecules quantifies over all neighbour orders.
    - A [Bond] is a mutable object shared by the two directions of an edge:
      [bonds[n][m]] and [bonds[m][n]] are the same object.  The embedding
      keeps the bond objects in a heap ([_heap]) and the adjacency maps hold
      references into it.
    - Exceptions are values of [exc]; a computation that may raise returns
      [result].  A generator is the finite sequence of its events ([gen]).
*)

From Stdlib Require Import ZArith List Bool Lia Permutation.
From Stdlib Require String.
Import ListNotations.

Local Open Scope Z_scope.

(** ** Exceptions and results *)

Inductive exc : Type :=
| InvalidAromaticRing
| KeyError
| IndexError
| ValueError
| RuntimeError.

Inductive result (A : Type) : Type :=
| Ok (a : A)
| Raise (e : exc).

Arguments Ok {A} a.
Arguments Raise {A} e.

Definition bind {A B : Type} (r : result A) (f : A -> result B) : result B :=
  match r with
  | Ok a => f a
  | Raise e => Raise e
  end.

Declare Scope py_scope.
Delimit Scope py_scope with py.
Notation "x <- c ;; k" := (bind c (fun x => k))
  (at level 61, c at next level, right associativity) : py_scope.
Notation "' pat <- c ;; k" := (bind c (fun x => match x with pat => k end))
  (at level 61, pat pattern, c at next level, right associativity) : py_scope.
Local Open Scope py_scope.

Definition is_ok {A : Type} (r : result A) : bool :=
  match r with Ok _ => true | Raise _ => false end.

(** The truth value of a Python collection: it is not empty. *)
Definition truthy {A : Type} (l : list A) : bool :=
  match l with [] => false | _ :: _ => true end.

(** Sequencing a list of fallible steps over a state, left to right, stopping
    at the first exception: the shape of a [for] loop whose body may raise. *)
Fixpoint for_each {A S : Type} (body : S -> A -> result S) (l : list A) (s : S)
  : result S :=
  match l with
  | [] => Ok s
  | x :: l' => s' <- body s x ;; for_each body l' s'
  end.

(** ** Python sets of atom numbers *)

Module PySet.

Definition t := list Z.

Definition mem (x : Z) (s : t) : bool := existsb (Z.eqb x) s.

Definition add (x : Z) (s : t) : t := if mem x s then s else s ++ [x].

Definition discard (x : Z) (s : t) : t := filter (fun y => negb (y =? x)) s.

Definition inter (a b : t) : t := filter (fun x => mem x b) a.

Definition isdisjoint (a b : t) : bool := forallb (fun x => negb (mem x b)) a.

Definition issubset (a b : t) : bool := forallb (fun x => mem x b) a.

Definition difference (a b : t) : t := filter (fun x => negb (mem x b)) a.

Definition of_list (l : list Z) : t := fold_left (fun s x => add x s) l [].

End PySet.

(** ** Python dicts keyed by atom numbers *)

Module Dict.

Definition t (V : Type) := list (Z * V).

Fixpoint get {V} (k : Z) (d : t V) : option V :=
  match d with
  | [] => None
  | (k', v) :: d' => if k' =? k then Some v else get k d'
  end.

Definition mem {V} (k : Z) (d : t V) : bool :=
  match get k d with Some _ => true | None => false end.

(** [d[k] = v]: an existing key keeps its position, a new key goes last. *)
Fixpoint set {V} (k : Z) (v : V) (d : t V) : t V :=
  match d with
  | [] => [(k, v)]
  | (k', v') :: d' => if k' =? k then (k', v) :: d' else (k', v') :: set k v d'
  end.

Fixpoint remove {V} (k : Z) (d : t V) : t V :=
  match d with
  | [] => []
  | (k', v') :: d' => if k' =? k then d' else (k', v') :: remove k d'
  end.

Definition keys {V} (d : t V) : list Z := map fst d.

Definition values {V} (d : t V) : list V := map snd d.

(** [d[k]] on a plain dict. *)
Definition item {V} (k : Z) (d : t V) : result V :=
  match get k d with Some v => Ok v | None => Raise KeyError end.

(** [next(n for n, v in d.items() if f(n, v))], [None] for
    [StopIteration]. *)
Fixpoint first_key {V} (f : Z -> V -> bool) (d : t V) : option Z :=
  match d with
  | [] => None
  | (n, v) :: d' => if f n v then Some n else first_key f d'
  end.

End Dict.

(** [rings[n]] on a [defaultdict(set)]: a missing key reads as the empty
    set (and is created by the write that follows). *)
Definition dd_get (n : Z) (rings : Dict.t PySet.t) : PySet.t :=
  match Dict.get n rings with Some s => s | None => [] end.

(** [rings[n].add(m)] on a [defaultdict(set)]. *)
Definition dd_add (n m : Z) (rings : Dict.t PySet.t) : Dict.t PySet.t :=
  Dict.set n (PySet.add m (dd_get n rings)) rings.

(** [rings[n].discard(m)] on a [defaultdict(set)]. *)
Definition dd_discard (n m : Z) (rings : Dict.t PySet.t) : Dict.t PySet.t :=
  Dict.set n (PySet.discard m (dd_get n rings)) rings.

(** ** The molecule *)

(** Modelled from the spec: the molecule container ([_atoms], [_charges],
    [_radicals], [_hydrogens], [_hybridizations], [_bonds], [sssr]) is defined
    outside [aromatics.py].  "Atom: element (atomic number), formal
    charge, radical flag, explicit-hydrogen count, a mutable hybridization
    mark.  Bond: order, one of 1, 2, 3, 4.  Molecule Graph: atoms keyed by
    unique identifier; adjacency mapping identifier -> (neighbor identifier
    -> Bond).  Ring: ordered cyclic sequence of atom identifiers, as supplied
    by the external ring-finder." *)
Record Molecule : Type := mkMolecule {
  _atoms : Dict.t Z;                    (* atom -> atomic number *)
  _charges : Dict.t Z;
  _radicals : Dict.t bool;
  _hydrogens : Dict.t (option Z);       (* hydrogen count, or None *)
  _hybridizations : Dict.t Z;           (* 1 sp3, 2 sp2, 3 sp, 4 aromatic *)
  _bonds : Dict.t (Dict.t nat);         (* atom -> neighbour -> Bond object *)
  _heap : list Z;                       (* Bond object -> its order *)
  sssr : list (list Z)
}.

(** [bond.order] of the Bond object [b]. *)
Definition heap_order (heap : list Z) (b : nat) : result Z :=
  match nth_error heap b with Some o => Ok o | None => Raise KeyError end.

(** [bond._Bond__order = o] on the Bond object [b]. *)
Fixpoint heap_set (heap : list Z) (b : nat) (o : Z) : list Z :=
  match heap, b with
  | [], _ => []
  | _ :: h, O => o :: h
  | x :: h, S b' => x :: heap_set h b' o
  end.

(** [bonds[n][m].order] *)
Definition bond_order (mol : Molecule) (n m : Z) : result Z :=
  mb <- Dict.item n (_bonds mol) ;;
  b <- Dict.item m mb ;;
  heap_order (_heap mol) b.

(** ** Skeleton builder and valence classifier: [__prepare_rings] *)

Module Prepare.

(** State of the first scan: the skeleton, the atoms seen with a double
    bond and the atoms seen with a triple bond. *)
Definition scan_state : Type := (Dict.t PySet.t * PySet.t * PySet.t)%type.

(** Body of [for m, bond in m_bond.items()]. *)
Definition scan_bond (heap : list Z) (n : Z) (st : scan_state) (mb : Z * nat)
  : result scan_state :=
  let '(rings, double_bonded, triple_bonded) := st in
  let '(m, b) := mb in
  bo <- heap_order heap b ;;
  if bo =? 4 then Ok (dd_add n m rings, double_bonded, triple_bonded)
  else if bo =? 2 then Ok (rings, PySet.add n double_bonded, triple_bonded)
  else if bo =? 3 then Ok (rings, double_bonded, PySet.add n triple_bonded)
  else Ok st.

(** Body of [for n, m_bond in bonds.items()]. *)
Definition scan_atom (heap : list Z) (st : scan_state) (nmb : Z * Dict.t nat)
  : result scan_state :=
  for_each (scan_bond heap (fst nmb)) (snd nmb) st.

Definition scan (mol : Molecule) : result scan_state :=
  for_each (scan_atom (_heap mol)) (_bonds mol) ([], [], []).

(** [if n not in rings[m]: rings[m].add(n); rings[n].add(m)] *)
Definition close_edge (n m : Z) (rings : Dict.t PySet.t) : Dict.t PySet.t :=
  if PySet.mem n (dd_get m rings) then rings
  else dd_add n m (dd_add m n rings).

(** [zip(r, r[1:])] *)
Fixpoint zip_next (r : list Z) : list (Z * Z) :=
  match r with
  | n :: (m :: _) as r' => (n, m) :: zip_next r'
  | _ => []
  end.

(** Body of [for r in self.sssr].  [n, *_, m = r] needs two elements. *)
Definition add_ring (rings : Dict.t PySet.t) (r : list Z)
  : result (Dict.t PySet.t) :=
  if PySet.issubset (PySet.of_list r) (Dict.keys rings) then
    match r with
    | n :: (_ :: _) as tl =>
        let m := last tl 0 in
        Ok (fold_left (fun rg nm => close_edge (fst nm) (snd nm) rg)
                      (zip_next r) (close_edge n m rings))
    | _ => Raise ValueError
    end
  else Ok rings.

(** [len(ms) not in (2, 3)] *)
Definition bad_degree (ms : PySet.t) : bool :=
  negb ((length ms =? 2)%nat || (length ms =? 3)%nat).

(** [any(atoms[n].atomic_number not in (6, 15, 16, 34, 52) or charges[n]
    for n in double_bonded)] *)
Fixpoint any_bad_quinone (mol : Molecule) (l : list Z) : result bool :=
  match l with
  | [] => Ok false
  | n :: l' =>
      an <- Dict.item n (_atoms mol) ;;
      if negb ((an =? 6) || (an =? 15) || (an =? 16) || (an =? 34) || (an =? 52))
      then Ok true
      else
        ac <- Dict.item n (_charges mol) ;;
        if negb (ac =? 0) then Ok true else any_bad_quinone mol l'
  end.

(** The role sets while the classifier runs: [(pyroles, double_bonded)]. *)
Definition roles : Type := (PySet.t * PySet.t)%type.

Definition add_double (n : Z) (r : roles) : roles :=
  (fst r, PySet.add n (snd r)).

Definition add_pyrole (n : Z) (r : roles) : roles :=
  (PySet.add n (fst r), snd r).

Definition invalid {A} : result A := Raise InvalidAromaticRing.

(** [not ah] for a hydrogen count that may be [None]. *)
Definition falsy_h (ah : option Z) : bool :=
  match ah with None => true | Some h => h =? 0 end.

Definition carbon (mol : Molecule) (ac ab : Z) (n : Z) (r : roles) : result roles :=
  if ac =? 0 then
    if negb ((ab =? 2) || (ab =? 3)) then invalid else Ok r
  else if (ac =? -1) || (ac =? 1) then
    rad <- Dict.item n (_radicals mol) ;;
    if (rad : bool) then
      if ab =? 2 then Ok (add_double n r) else invalid
    else if ab =? 3 then Ok (add_double n r)
    else if ab =? 2 then Ok (add_pyrole n r)
    else invalid
  else invalid.

Definition pnictogen (mol : Molecule) (an ac ab : Z) (n : Z) (r : roles)
  : result roles :=
  if ac =? 0 then
    rad <- Dict.item n (_radicals mol) ;;
    if (rad : bool) then
      if negb (ab =? 2) then invalid else Ok (add_double n r)
    else if ab =? 3 then
      if an =? 7 then Ok (add_double n r) else Ok (add_pyrole n r)
    else if ab =? 2 then
      ah <- Dict.item n (_hydrogens mol) ;;
      if falsy_h ah then Ok (add_pyrole n r)
      else if match ah with Some h => h =? 1 | None => false end
           then Ok (add_double n r)
      else invalid
    else if negb (ab =? 4) || negb (an =? 15) then invalid
    else Ok r
  else if ac =? -1 then
    if negb (ab =? 2) then invalid
    else
      rad <- Dict.item n (_radicals mol) ;;
      if (rad : bool) then invalid else Ok (add_double n r)
  else if negb (ac =? 1) then invalid
  else
    rad <- Dict.item n (_radicals mol) ;;
    if (rad : bool) then
      if negb (ab =? 2) then invalid else Ok r
    else if ab =? 2 then Ok (add_pyrole n r)
    else if negb (ab =? 3) then invalid
    else Ok r.

Definition oxygen (mol : Molecule) (ac ab : Z) (n : Z) (r : roles) : result roles :=
  if (ab =? 2) && ((ac =? 0) || (ac =? 1)) then
    rad <- Dict.item n (_radicals mol) ;;
    if ((ac =? 0) && negb rad) || ((ac =? 1) && rad)
    then Ok (add_double n r)
    else invalid
  else invalid.

(** S, Se, Te.  The radical test and the charge test are two consecutive
    statements: a cation-radical is added by the first and passes the
    second. *)
Definition chalcogen (mol : Molecule) (ac ab : Z) (n : Z) (r : roles) : result roles :=
  if negb (PySet.mem n (snd r)) then
    if ab =? 2 then
      rad <- Dict.item n (_radicals mol) ;;
      r1 <- (if (rad : bool) then
               if ac =? 1 then Ok (add_double n r) else invalid
             else Ok r) ;;
      if ac =? 0 then Ok (add_double n r1)
      else if negb (ac =? 1) then invalid
      else Ok r1
    else invalid
  else Ok r.

Definition boron (mol : Molecule) (ac ab : Z) (n : Z) (r : roles) : result roles :=
  if ac =? 0 then
    rad <- Dict.item n (_radicals mol) ;;
    if ab =? 2 then
      if (rad : bool) then Ok (add_double n r) else Ok (add_pyrole n r)
    else if negb rad then Ok (add_double n r)
    else invalid
  else if ac =? 1 then
    if ab =? 2 then
      rad <- Dict.item n (_radicals mol) ;;
      if negb rad then Ok (add_double n r) else invalid
    else invalid
  else if ac =? -1 then
    rad <- Dict.item n (_radicals mol) ;;
    if ab =? 2 then
      if negb rad then Ok (add_pyrole n r) else Ok r
    else if (rad : bool) then Ok (add_double n r)
    else Ok (add_pyrole n r)
  else invalid.

(** Body of [for n in rings]. *)
Definition classify_atom (mol : Molecule) (r : roles) (n : Z) : result roles :=
  an <- Dict.item n (_atoms mol) ;;
  ac <- Dict.item n (_charges mol) ;;
  mb <- Dict.item n (_bonds mol) ;;
  let ab := Z.of_nat (length mb) in
  if an =? 6 then carbon mol ac ab n r
  else if (an =? 7) || (an =? 15) then pnictogen mol an ac ab n r
  else if an =? 8 then oxygen mol ac ab n r
  else if (an =? 16) || (an =? 34) || (an =? 52) then chalcogen mol ac ab n r
  else if an =? 5 then boron mol ac ab n r
  else invalid.

Definition prepared : Type := (Dict.t PySet.t * PySet.t * PySet.t)%type.

(** [__prepare_rings]: returns [(rings, pyroles, double_bonded)]. *)
Definition prepare_rings (mol : Molecule) : result prepared :=
  '(rings, double_bonded, triple_bonded) <- scan mol ;;
  match rings with
  | [] => Ok (rings, [], [])
  | _ :: _ =>
      if negb (PySet.isdisjoint triple_bonded (Dict.keys rings)) then invalid
      else
        rings <- for_each add_ring (sssr mol) rings ;;
        if existsb bad_degree (Dict.values rings) then invalid
        else
          let double_bonded := PySet.inter double_bonded (Dict.keys rings) in
          if existsb (fun n => negb (length (dd_get n rings) =? 2)%nat) double_bonded
          then invalid
          else
            bad <- any_bad_quinone mol double_bonded ;;
            if (bad : bool) then invalid
            else
              '(pyroles, double_bonded) <-
                 for_each (classify_atom mol) (Dict.keys rings) ([], double_bonded) ;;
              Ok (rings, pyroles, double_bonded)
  end.

End Prepare.

(** ** Generators *)

(** The events of a generator, in order: the values it yields, then how it
    ends.  [OutOfFuel] is not an event of the program: it marks a run of the
    embedding that was given too little fuel to reach the end. *)
Inductive gen (A : Type) : Type :=
| Yield (a : A) (rest : gen A)
| Stop
| Throw (e : exc)
| OutOfFuel.

Arguments Yield {A} a rest.
Arguments Stop {A}.
Arguments Throw {A} e.
Arguments OutOfFuel {A}.

(** The values yielded, whatever the end. *)
Fixpoint yielded {A} (g : gen A) : list A :=
  match g with
  | Yield a rest => a :: yielded rest
  | _ => []
  end.

(** [next(g)] up to the first event. *)
Inductive first_event (A : Type) : Type :=
| FirstValue (a : A)
| FirstStop
| FirstThrow (e : exc)
| FirstOutOfFuel.

Arguments FirstValue {A} a.
Arguments FirstStop {A}.
Arguments FirstThrow {A} e.
Arguments FirstOutOfFuel {A}.

Definition first {A} (g : gen A) : first_event A :=
  match g with
  | Yield a _ => FirstValue a
  | Stop => FirstStop
  | Throw e => FirstThrow e
  | OutOfFuel => FirstOutOfFuel
  end.

(** Whether the run reached its end. *)
Fixpoint finished {A} (g : gen A) : bool :=
  match g with
  | Yield _ rest => finished rest
  | Stop => true
  | Throw _ => true
  | OutOfFuel => false
  end.

(** ** Kekulisation search of one component: [__kekule_component] *)

Module Component.

(** [(atom, neighbour, order)] *)
Definition triple : Type := (Z * Z * Z)%type.

(** [(current atom, previous atom, bond, path length to cut back to)] *)
Definition item : Type := (Z * Z * Z * option nat)%type.

(** A branch is a Python list, last element on top. *)
Definition branch : Type := list item.

Definition opt_nat_eqb (a b : option nat) : bool :=
  match a, b with
  | None, None => true
  | Some x, Some y => Nat.eqb x y
  | _, _ => false
  end.

Definition item_eqb (x y : item) : bool :=
  let '(a, b, c, d) := x in
  let '(a', b', c', d') := y in
  (a =? a') && (b =? b') && (c =? c') && opt_nat_eqb d d'.

(** [l.pop()] *)
Fixpoint pop {A} (l : list A) : result (A * list A) :=
  match l with
  | [] => Raise IndexError
  | [x] => Ok (x, [])
  | x :: l' => '(y, r) <- pop l' ;; Ok (y, x :: r)
  end.

(** [l.remove(x)]: the first equal element goes. *)
Fixpoint remove (x : item) (l : branch) : result branch :=
  match l with
  | [] => Raise ValueError
  | y :: l' => if item_eqb y x then Ok l' else r <- remove x l' ;; Ok (y :: r)
  end.

(** [{x for x, *_ in path}] *)
Definition heads (path : list triple) : PySet.t :=
  PySet.of_list (map (fun t => fst (fst t)) path).

(** The search state.  [stack] has its last (top) branch first;
    [stack[-1]] is its head. *)
Record state : Type := mkState {
  stack : list branch;
  path : list triple;
  hashed_path : PySet.t;
  nether_yielded : bool
}.

(** [path = path[:stack[-1][-1][-1]]; hashed_path = {x for x, *_ in path}]
    under [if stack:], after [del stack[-1]]. *)
Definition cut_back (below : list branch) (path : list triple) (hashed : PySet.t)
  : result (list triple * PySet.t) :=
  match below with
  | [] => Ok (path, hashed)
  | b :: _ =>
      '(it, _) <- pop b ;;
      let path' := match snd it with
                   | Some k => firstn k path
                   | None => path
                   end in
      Ok (path', heads path')
  end.

(** [del stack[-1]] followed by the cut back. *)
Definition abandon (below : list branch) (path : list triple) (hashed : PySet.t)
           (ny : bool) : result state :=
  '(path', hashed') <- cut_back below path hashed ;;
  Ok (mkState below path' hashed' ny).

(** The three kinds of neighbours met by [for next_atom in rings[atom]]:
    [(for_stack, closures, loop)]. *)
Definition sort_neighbours (start prev_atom : Z) (hashed : PySet.t) (ms : PySet.t)
  : list Z * list Z * Z :=
  fold_left
    (fun (acc : list Z * list Z * Z) next_atom =>
       let '(for_stack, closures, loop) := acc in
       if next_atom =? prev_atom then acc
       else if next_atom =? start then (for_stack, closures, next_atom)
       else if PySet.mem next_atom hashed then (for_stack, closures ++ [next_atom], loop)
       else (for_stack ++ [next_atom], closures, loop))
    ms ([], [], 0).

(** [path.append((next_atom, atom, 1));
     stack[-1].remove((atom, next_atom, 1, None))] *)
Definition close_one (atom : Z) (tp : branch * list triple) (next_atom : Z)
  : result (branch * list triple) :=
  top' <- remove (atom, next_atom, 1, None) (fst tp) ;;
  Ok (top', snd tp ++ [(next_atom, atom, 1)]).

(** What one turn of the loop does: it yields the path and then cuts back
    (the generator is resumed after the [yield]), or it goes on, or it
    raises. *)
Inductive turn : Type :=
| TurnYield (p : list triple) (after : result state)
| TurnNext (st : state)
| TurnRaise (e : exc).

Section Search.

Variable rings : Dict.t PySet.t.
Variable double_bonded : PySet.t.
Variable pyroles : PySet.t.
Variable start : Z.
Variable size : nat.

(** The branching on the kind of atom once the closing of the start has
    been dealt with: from [if bond == 2 or atom in double_bonded] on. *)
Definition grow (atom bond : Z) (for_stack closures : list Z)
           (top : branch) (below : list branch)
           (path : list triple) (hashed : PySet.t) (ny : bool) : result state :=
  if (bond =? 2) || PySet.mem atom double_bonded then
    '(top, path) <- for_each (close_one atom) closures (top, path) ;;
    let top := top ++ map (fun next_atom => (next_atom, atom, 1, None)) for_stack in
    Ok (mkState (top :: below) path hashed ny)
  else
    match for_stack with
    | [next_atom] =>
        if PySet.mem next_atom double_bonded then
          if PySet.mem atom pyroles then
            Ok (mkState ((top ++ [(next_atom, atom, 1, None)]) :: below) path hashed ny)
          else abandon below path hashed ny
        else if PySet.mem atom pyroles then
          let opposite := top ++ [(next_atom, atom, 2, None)] in
          let top := top ++ [(next_atom, atom, 1, Some (length path))] in
          Ok (mkState (opposite :: top :: below) path hashed ny)
        else
          let top := top ++ [(next_atom, atom, 2, None)] in
          match closures with
          | next_atom :: _ =>
              '(top, path) <- close_one atom (top, path) next_atom ;;
              Ok (mkState (top :: below) path hashed ny)
          | [] => Ok (mkState (top :: below) path hashed ny)
          end
    | [next_atom1; next_atom2] =>
        if PySet.mem next_atom1 double_bonded then
          if PySet.mem next_atom2 double_bonded then abandon below path hashed ny
          else
            Ok (mkState ((top ++ [(next_atom1, atom, 1, None);
                                  (next_atom2, atom, 2, None)]) :: below)
                        path hashed ny)
        else if PySet.mem next_atom2 double_bonded then
          Ok (mkState ((top ++ [(next_atom2, atom, 1, None);
                                (next_atom1, atom, 2, None)]) :: below)
                      path hashed ny)
        else
          let opposite := top ++ [(next_atom2, atom, 1, None);
                                  (next_atom1, atom, 2, None)] in
          let top := top ++ [(next_atom1, atom, 1, None);
                             (next_atom2, atom, 2, Some (length path))] in
          Ok (mkState (opposite :: top :: below) path hashed ny)
    | _ :: _ :: _ :: _ => Raise ValueError
    | [] =>
        match closures with
        | _ :: _ =>
            if negb (PySet.mem atom pyroles) then abandon below path hashed ny
            else Ok (mkState (top :: below) path hashed ny)
        | [] => Ok (mkState (top :: below) path hashed ny)
        end
    end.

(** The part under [if loop:], then [grow]. *)
Definition close_start (atom bond : Z) (for_stack closures : list Z) (loop : Z)
           (top : branch) (below : list branch)
           (path : list triple) (hashed : PySet.t) (ny : bool) : result state :=
  if negb (loop =? 0) then
    if bond =? 2 then
      if truthy double_bonded then
        grow atom bond for_stack closures ((loop, atom, 1, None) :: top) below
             path hashed ny
      else abandon below path hashed ny
    else if truthy double_bonded then
      if truthy for_stack || PySet.mem atom double_bonded || PySet.mem atom pyroles
      then grow atom bond for_stack closures ((loop, atom, 1, None) :: top) below
                path hashed ny
      else abandon below path hashed ny
    else
      grow atom 2 for_stack closures ((loop, atom, 2, None) :: top) below
           path hashed ny
  else grow atom bond for_stack closures top below path hashed ny.

(** One turn of [while stack:] on a non-empty stack [top :: below]. *)
Definition step (top : branch) (below : list branch)
           (path : list triple) (hashed : PySet.t) (ny : bool) : turn :=
  match pop top with
  | Raise e => TurnRaise e
  | Ok (it, top) =>
      let '(atom, prev_atom, bond, _) := it in
      let path := path ++ [(atom, prev_atom, bond)] in
      let hashed := PySet.add atom hashed in
      if (length path =? size)%nat then
        TurnYield path (abandon below path hashed false)
      else if negb (atom =? start) then
        match Dict.item atom rings with
        | Raise e => TurnRaise e
        | Ok ms =>
            let '(for_stack, closures, loop) :=
              sort_neighbours start prev_atom hashed ms in
            match close_start atom bond for_stack closures loop top below
                              path hashed ny with
            | Raise e => TurnRaise e
            | Ok st => TurnNext st
            end
        end
      else TurnNext (mkState (top :: below) path hashed ny)
  end.

(** [while stack: ...], then the final [raise] if nothing was yielded. *)
Fixpoint search (fuel : nat) (st : state) : gen (list triple) :=
  match fuel with
  | O => OutOfFuel
  | S fuel' =>
      match stack st with
      | [] => if nether_yielded st then Throw InvalidAromaticRing else Stop
      | top :: below =>
          match step top below (path st) (hashed_path st) (nether_yielded st) with
          | TurnRaise e => Throw e
          | TurnYield p (Ok st') => Yield p (search fuel' st')
          | TurnYield p (Raise e) => Yield p (Throw e)
          | TurnNext st' => search fuel' st'
          end
      end
  end.

End Search.

(** [sum(len(x) for x in rings.values()) // 2] *)
Definition size_of (rings : Dict.t PySet.t) : nat :=
  Nat.div (list_sum (map (fun ms => length ms) (Dict.values rings))) 2.

(** [[[(next_atom, start, bond, 0)] for next_atom in rings[start]]], top
    first. *)
Definition fan (start bond : Z) (ms : PySet.t) : list branch :=
  rev (map (fun next_atom => [(next_atom, start, bond, Some 0%nat)]) ms).

(** The choice of the start, the role set as the search sees it and the
    initial stack: [(start, double_bonded, stack)]. *)
Definition init (rings : Dict.t PySet.t) (double_bonded pyroles : PySet.t)
  : result (Z * PySet.t * list branch) :=
  match double_bonded with
  | start :: _ =>
      ms <- Dict.item start rings ;;
      match ms with
      | next_atom :: _ => Ok (start, double_bonded, [[(next_atom, start, 1, Some 0%nat)]])
      | [] => Raise RuntimeError
      end
  | [] =>
      match Dict.first_key (fun n ms => (length ms =? 2)%nat && negb (PySet.mem n pyroles)) rings with
      | Some start =>
          ms <- Dict.item start rings ;;
          Ok (start, double_bonded, fan start 1 ms)
      | None =>
          match Dict.first_key (fun n ms => (length ms =? 2)%nat) rings with
          | Some start =>
              ms <- Dict.item start rings ;;
              Ok (start, double_bonded, fan start 1 ms)
          | None =>
              match rings with
              | (start, ms) :: _ =>
                  Ok (start, PySet.add start double_bonded, fan start 2 ms)
              | [] => Raise RuntimeError
              end
          end
      end
  end.

(** [__kekule_component(rings, double_bonded, pyroles)], run for at most
    [fuel] turns of its loop. *)
Definition kekule_component (fuel : nat) (rings : Dict.t PySet.t)
           (double_bonded pyroles : PySet.t) : gen (list triple) :=
  match init rings double_bonded pyroles with
  | Raise e => Throw e
  | Ok (start, double_bonded, stack0) =>
      search rings double_bonded pyroles start (size_of rings) fuel
             (mkState stack0 [] [] true)
  end.

End Component.

(** ** Component splitter and enumerator: [__kekule_full] *)

Module Full.

Import Component.

(** Body of [for n in rings[current]] in the breadth-first walk. *)
Definition visit (rings : Dict.t PySet.t) (qc : list Z * Dict.t PySet.t) (n : Z)
  : list Z * Dict.t PySet.t :=
  if Dict.mem n (snd qc) then qc
  else (fst qc ++ [n], Dict.set n (dd_get n rings) (snd qc)).

(** [while queue: ...] *)
Fixpoint walk (fuel : nat) (rings : Dict.t PySet.t) (queue : list Z)
         (component : Dict.t PySet.t) : option (Dict.t PySet.t) :=
  match fuel with
  | O => None
  | S fuel' =>
      match queue with
      | [] => Some component
      | current :: queue' =>
          let qc := fold_left (visit rings) (dd_get current rings) (queue', component) in
          walk fuel' rings (fst qc) (snd qc)
      end
  end.

(** [while atoms: ...]; [atoms.pop()] takes the first atom of the set. *)
Fixpoint split (fuel : nat) (rings : Dict.t PySet.t) (atoms : PySet.t)
  : option (list (Dict.t PySet.t)) :=
  match fuel with
  | O => None
  | S fuel' =>
      match atoms with
      | [] => Some []
      | start :: atoms' =>
          match walk fuel' rings [start] [(start, dd_get start rings)] with
          | None => None
          | Some component =>
              match split fuel' rings (PySet.difference atoms' (Dict.keys component)) with
              | None => None
              | Some components => Some (component :: components)
              end
          end
      end
  end.

(** Every atom enters the queue at most once and every turn of the outer
    loop removes an atom, so this many turns are enough. *)
Definition split_fuel (rings : Dict.t PySet.t) : nat :=
  S (S (length rings + list_sum (map (fun ms => length ms) (Dict.values rings)))).

Definition components (rings : Dict.t PySet.t) : option (list (Dict.t PySet.t)) :=
  split (split_fuel rings) rings (PySet.of_list (Dict.keys rings)).

(** Generators in sequence: the events of [g1], then those of [g2] if
    [g1] stopped. *)
Fixpoint gen_app {A} (g1 g2 : gen A) : gen A :=
  match g1 with
  | Yield a rest => Yield a (gen_app rest g2)
  | Stop => g2
  | Throw e => Throw e
  | OutOfFuel => OutOfFuel
  end.

Fixpoint gen_map {A B} (f : A -> B) (g : gen A) : gen B :=
  match g with
  | Yield a rest => Yield (f a) (gen_map f rest)
  | Stop => Stop
  | Throw e => Throw e
  | OutOfFuel => OutOfFuel
  end.

(** [for a in g: yield from k(a)] *)
Fixpoint gen_bind {A B} (g : gen A) (k : A -> gen B) : gen B :=
  match g with
  | Yield a rest => gen_app (k a) (gen_bind rest k)
  | Stop => Stop
  | Throw e => Throw e
  | OutOfFuel => OutOfFuel
  end.

(** Modelled from the spec: [lazy_product] ([CGRtools/_functions.py]) is
    defined outside [aromatics.py].  "The Enumerator lazily takes the
    Cartesian product across components": one tuple per choice of one
    solution from every generator, the generators being consumed on
    demand, so that an exception of a generator surfaces when the
    product first needs a value from it. *)
Fixpoint lazy_product {A} (gs : list (gen A)) : gen (list A) :=
  match gs with
  | [] => Yield [] Stop
  | g :: gs' =>
      let rest := lazy_product gs' in
      gen_bind g (fun a => gen_map (cons a) rest)
  end.

(** [__kekule_full], from the result of [__prepare_rings] on. *)
Definition kekule_forms (fuel : nat) (p : Prepare.prepared) : gen (list triple) :=
  let '(rings, pyroles, double_bonded) := p in
  match components rings with
  | None => OutOfFuel
  | Some cs =>
      gen_map (@concat triple)
        (lazy_product
           (map (fun c => kekule_component fuel c
                             (PySet.inter double_bonded (Dict.keys c))
                             (PySet.inter pyroles (Dict.keys c)))
                cs))
  end.

Definition kekule_full (fuel : nat) (mol : Molecule) : gen (list triple) :=
  match Prepare.prepare_rings mol with
  | Raise e => Throw e
  | Ok p => kekule_forms fuel p
  end.

End Full.

(** ** Outcomes of the entry points *)

(** How a call ends: it returns, it raises, or (an artefact of the
    embedding) the fuel given to its loops ran out. *)
Inductive outcome (A : Type) : Type :=
| Returned (a : A)
| Raised (e : exc)
| NoFuel.

Arguments Returned {A} a.
Arguments Raised {A} e.
Arguments NoFuel {A}.

(** ** Patcher, [kekule] and [enumerate_kekule] *)

Section Kekule.

Import Component Full.

(** Modelled from the spec: [_calc_hybridization] and [_calc_implicit]
    belong to the molecule container.  "Element/valence property tables,
    implicit-hydrogen calculation, hybridization-mark computation:
    consumed as pure functions taking local bond/charge/radical
    context."  Each gives the new mark of one atom. *)
Variable calc_hybridization : Molecule -> Z -> Z.
Variable calc_implicit : Molecule -> Z -> option Z.

Definition with_heap (mol : Molecule) (heap : list Z) : Molecule :=
  mkMolecule (_atoms mol) (_charges mol) (_radicals mol) (_hydrogens mol)
             (_hybridizations mol) (_bonds mol) heap (sssr mol).

(** [bonds[n][m]._Bond__order = o] *)
Definition set_order (mol : Molecule) (n m o : Z) : result Molecule :=
  mb <- Dict.item n (_bonds mol) ;;
  b <- Dict.item m mb ;;
  Ok (with_heap mol (heap_set (_heap mol) b o)).

(** The first loop of [__kekule_patch]; the molecule keeps the writes
    made before an exception. *)
Fixpoint patch_bonds (mol : Molecule) (patch : list triple) (atoms : PySet.t)
  : result PySet.t * Molecule :=
  match patch with
  | [] => (Ok atoms, mol)
  | (n, m, b) :: patch' =>
      match set_order mol n m b with
      | Raise e => (Raise e, mol)
      | Ok mol' => patch_bonds mol' patch' (PySet.add m (PySet.add n atoms))
      end
  end.

(** [self._calc_hybridization(n); self._calc_implicit(n)] *)
Definition recalc (mol : Molecule) (n : Z) : Molecule :=
  let mol1 :=
    mkMolecule (_atoms mol) (_charges mol) (_radicals mol) (_hydrogens mol)
               (Dict.set n (calc_hybridization mol n) (_hybridizations mol))
               (_bonds mol) (_heap mol) (sssr mol) in
  mkMolecule (_atoms mol1) (_charges mol1) (_radicals mol1)
             (Dict.set n (calc_implicit mol1 n) (_hydrogens mol1))
             (_hybridizations mol1) (_bonds mol1) (_heap mol1) (sssr mol1).

(** [__kekule_patch] *)
Definition kekule_patch (mol : Molecule) (patch : list triple) : result unit * Molecule :=
  match patch_bonds mol patch [] with
  | (Raise e, mol') => (Raise e, mol')
  | (Ok atoms, mol') => (Ok tt, fold_left recalc atoms mol')
  end.

(** [kekule]: the outcome and the molecule as the call leaves it. *)
Definition kekule (fuel : nat) (mol : Molecule) : outcome bool * Molecule :=
  match first (kekule_full fuel mol) with
  | FirstThrow e => (Raised e, mol)
  | FirstOutOfFuel => (NoFuel, mol)
  | FirstStop => (Returned false, mol)
  | FirstValue [] => (Returned false, mol)
  | FirstValue form =>
      match kekule_patch mol form with
      | (Raise e, mol') => (Raised e, mol')
      | (Ok _, mol') => (Returned true, mol')
      end
  end.

(** [enumerate_kekule]: every form is applied to a copy of the molecule. *)
Fixpoint patched_copies (mol : Molecule) (forms : gen (list triple)) : gen Molecule :=
  match forms with
  | Yield form rest =>
      match kekule_patch mol form with
      | (Raise e, _) => Throw e
      | (Ok _, copy) => Yield copy (patched_copies mol rest)
      end
  | Stop => Stop
  | Throw e => Throw e
  | OutOfFuel => OutOfFuel
  end.

Definition enumerate_kekule (fuel : nat) (mol : Molecule) : gen Molecule :=
  patched_copies mol (kekule_full fuel mol).

End Kekule.

(** ** Aromatisation: [thiele] *)

Module Thiele.

(** [all(sh[n] == 2 and atoms[n].atomic_number in (5, 6, 7, 15) for n in ring)] *)
Fixpoint all_sp2 (mol : Molecule) (ring : list Z) : result bool :=
  match ring with
  | [] => Ok true
  | n :: ring' =>
      h <- Dict.item n (_hybridizations mol) ;;
      if h =? 2 then
        an <- Dict.item n (_atoms mol) ;;
        if (an =? 5) || (an =? 6) || (an =? 7) || (an =? 15)
        then all_sp2 mol ring'
        else Ok false
      else Ok false
  end.

(** [rings[n].add(m); rings[m].add(n)] *)
Definition link (n m : Z) (rings : Dict.t PySet.t) : Dict.t PySet.t :=
  dd_add m n (dd_add n m rings).

(** Body of [for ring in self.sssr]. *)
Definition add_ring (mol : Molecule) (rings : Dict.t PySet.t) (ring : list Z)
  : result (Dict.t PySet.t) :=
  ok <- all_sp2 mol ring ;;
  if (ok : bool) then
    match ring with
    | n :: (_ :: _) as tl =>
        let m := last tl 0 in
        Ok (fold_left (fun rg nm => link (fst nm) (snd nm) rg)
                      (Prepare.zip_next ring) (link n m rings))
    | _ => Raise ValueError
    end
  else Ok rings.

(** The candidate skeleton, quinones included. *)
Definition skeleton (mol : Molecule) : result (Dict.t PySet.t) :=
  for_each (add_ring mol) (sssr mol) [].

(** [any(m not in rings and b.order == 2 for m, b in bonds[n].items())] *)
Fixpoint has_exocyclic_double (heap : list Z) (rings : Dict.t PySet.t)
         (mb : Dict.t nat) : result bool :=
  match mb with
  | [] => Ok false
  | (m, b) :: mb' =>
      if negb (Dict.mem m rings) then
        o <- heap_order heap b ;;
        if o =? 2 then Ok true else has_exocyclic_double heap rings mb'
      else has_exocyclic_double heap rings mb'
  end.

(** [[n for n in rings if any(...)]], over the keys [ns]. *)
Fixpoint quinones (mol : Molecule) (rings : Dict.t PySet.t) (ns : list Z)
  : result (list Z) :=
  match ns with
  | [] => Ok []
  | n :: ns' =>
      mb <- Dict.item n (_bonds mol) ;;
      q <- has_exocyclic_double (_heap mol) rings mb ;;
      qs <- quinones mol rings ns' ;;
      Ok (if (q : bool) then n :: qs else qs)
  end.

(** [for m in rings.pop(n): rings[m].discard(n)] *)
Definition drop_atom (rings : Dict.t PySet.t) (n : Z) : result (Dict.t PySet.t) :=
  ms <- Dict.item n rings ;;
  Ok (fold_left (fun rg m => dd_discard m n rg) ms (Dict.remove n rings)).

(** One turn of [while True:]: [None] when no atom has exactly one
    neighbour left ([break]). *)
Definition strip_step (rings : Dict.t PySet.t) : option (result (Dict.t PySet.t)) :=
  match Dict.first_key (fun _ ms => (length ms =? 1)%nat) rings with
  | None => None
  | Some n =>
      Some (ms <- Dict.item n rings ;;
            m <- match ms with m :: _ => Ok m | [] => Raise KeyError end ;;
            let rings := Dict.remove n rings in
            pm <- Dict.item m rings ;;
            let rings := Dict.remove m rings in
            let pm := PySet.discard n pm in
            Ok (fold_left (fun rg x => dd_discard x m rg) pm rings))
  end.

Fixpoint strip (fuel : nat) (rings : Dict.t PySet.t) : outcome (Dict.t PySet.t) :=
  match strip_step rings with
  | None => Returned rings
  | Some (Raise e) => Raised e
  | Some (Ok rings') =>
      match fuel with
      | O => NoFuel
      | S fuel' => strip fuel' rings'
      end
  end.

(** The block under [if double_bonded:].  Every turn of the loop takes two
    atoms out of the skeleton, so its size bounds the number of turns. *)
Definition trim (rings : Dict.t PySet.t) (double_bonded : list Z)
  : outcome (Dict.t PySet.t) :=
  match double_bonded with
  | [] => Returned rings
  | _ :: _ =>
      match for_each drop_atom double_bonded rings with
      | Raise e => Raised e
      | Ok rings' => strip (length rings') rings'
      end
  end.

Section Thiele.

(** Modelled from the spec: the ring finder of the container,
    [_connected_components] and [_sssr].  "Recompute the true
    minimal-ring-set size needed to cover the trimmed skeleton (edges -
    vertices + connected-components) and re-derive the minimal ring set
    for exactly that skeleton (delegated to the external
    ring-finder)." *)
Variable connected_components : Dict.t PySet.t -> list (list Z).
Variable find_sssr : Dict.t PySet.t -> Z -> list (list Z).

(** [bonds[n][m]._Bond__order = 4] for the pairs [nms], on the heap;
    the heap keeps the writes made before an exception. *)
Fixpoint set_aromatic (bonds : Dict.t (Dict.t nat)) (nms : list (Z * Z))
         (heap : list Z) : result unit * list Z :=
  match nms with
  | [] => (Ok tt, heap)
  | (n, m) :: nms' =>
      match (mb <- Dict.item n bonds ;; Dict.item m mb) with
      | Raise e => (Raise e, heap)
      | Ok b => set_aromatic bonds nms' (heap_set heap b 4)
      end
  end.

(** [for ring in rings: ...], on [(seen, heap)]. *)
Fixpoint aromatize (bonds : Dict.t (Dict.t nat)) (found : list (list Z))
         (seen : PySet.t) (heap : list Z) : result PySet.t * list Z :=
  match found with
  | [] => (Ok seen, heap)
  | ring :: found' =>
      let seen := fold_left (fun s x => PySet.add x s) ring seen in
      match ring with
      | n :: (_ :: _) as tl =>
          let m := last tl 0 in
          match set_aromatic bonds ((n, m) :: Prepare.zip_next ring) heap with
          | (Raise e, heap') => (Raise e, heap')
          | (Ok _, heap') => aromatize bonds found' seen heap'
          end
      | _ => (Raise ValueError, heap)
      end
  end.

Definition with_marks (mol : Molecule) (heap : list Z) (sh : Dict.t Z) : Molecule :=
  mkMolecule (_atoms mol) (_charges mol) (_radicals mol) (_hydrogens mol)
             sh (_bonds mol) heap (sssr mol).

(** [sum(len(x) for x in rings.values()) // 2 - len(rings)
    + len(self._connected_components(rings))] *)
Definition n_sssr (rings : Dict.t PySet.t) : Z :=
  Z.of_nat (list_sum (map (fun x => length x) (Dict.values rings))) / 2
  - Z.of_nat (length rings)
  + Z.of_nat (length (connected_components rings)).

(** [thiele]: the outcome and the molecule as the call leaves it. *)
Definition thiele (mol : Molecule) : outcome bool * Molecule :=
  match skeleton mol with
  | Raise e => (Raised e, mol)
  | Ok [] => (Returned false, mol)
  | Ok rings =>
      match quinones mol rings (Dict.keys rings) with
      | Raise e => (Raised e, mol)
      | Ok double_bonded =>
          match trim rings double_bonded with
          | Raised e => (Raised e, mol)
          | NoFuel => (NoFuel, mol)
          | Returned [] => (Returned false, mol)
          | Returned rings =>
              if n_sssr rings =? 0 then (Returned false, mol)
              else
                match aromatize (_bonds mol) (find_sssr rings (n_sssr rings))
                                [] (_heap mol) with
                | (Raise e, heap) =>
                    (Raised e, with_marks mol heap (_hybridizations mol))
                | (Ok seen, heap) =>
                    (Returned true,
                     with_marks mol heap
                       (fold_left (fun sh n => Dict.set n 4 sh) seen
                                  (_hybridizations mol)))
                end
          end
      end
  end.

End Thiele.

End Thiele.

(** ** Building molecules for concrete runs *)

Module Build.

(** One atom: number, atomic number, charge, radical flag, hydrogens. *)
Definition atom_spec : Type := (Z * Z * Z * bool * option Z)%type.

Definition number (a : atom_spec) : Z := fst (fst (fst (fst a))).

(** [bonds[n][m] = bonds[m][n] = bond] for the [b]-th bond. *)
Definition add_bond (bonds : Dict.t (Dict.t nat)) (b : nat) (n m : Z)
  : Dict.t (Dict.t nat) :=
  let at_n := match Dict.get n bonds with Some d => d | None => [] end in
  let bonds := Dict.set n (Dict.set m b at_n) bonds in
  let at_m := match Dict.get m bonds with Some d => d | None => [] end in
  Dict.set m (Dict.set n b at_m) bonds.

Fixpoint add_bonds (bonds : Dict.t (Dict.t nat)) (b : nat) (edges : list (Z * Z * Z))
  : Dict.t (Dict.t nat) :=
  match edges with
  | [] => bonds
  | (n, m, _) :: edges' => add_bonds (add_bond bonds b n m) (S b) edges'
  end.

(** The molecule with the atoms [atoms], added in this order, and the
    bonds [edges] ([(n, m, order)]), added in this order; hybridization
    marks start as [1]. *)
Definition molecule (atoms : list atom_spec) (edges : list (Z * Z * Z))
           (rings : list (list Z)) : Molecule :=
  mkMolecule
    (map (fun a => (number a, snd (fst (fst (fst a))))) atoms)
    (map (fun a => (number a, snd (fst (fst a)))) atoms)
    (map (fun a => (number a, snd (fst a))) atoms)
    (map (fun a => (number a, snd a)) atoms)
    (map (fun a => (number a, 1)) atoms)
    (add_bonds (map (fun a => (number a, [])) atoms) 0 edges)
    (map (fun e => snd e) edges)
    rings.

Definition C (n : Z) : atom_spec := (n, 6, 0, false, Some 1).

End Build.

(** * Properties *)

(** ** Molecules without aromatic bonds *)

(** Every Bond object reachable from the adjacency maps exists and has an
    order other than 4. *)
Definition no_aromatic_bonds (mol : Molecule) : bool :=
  forallb
    (fun nmb : Z * Dict.t nat =>
       forallb
         (fun mb : Z * nat =>
            match nth_error (_heap mol) (snd mb) with
            | Some o => negb (o =? 4)
            | None => false
            end)
         (snd nmb))
    (_bonds mol).

Lemma scan_bond_no_aromatic heap n db tb m b :
  match nth_error heap b with Some o => negb (o =? 4) | None => false end = true ->
  exists db' tb', Prepare.scan_bond heap n ([], db, tb) (m, b) = Ok ([], db', tb').
Proof.
  unfold Prepare.scan_bond, heap_order.
  destruct (nth_error heap b) as [o|]; [|discriminate].
  intros H. apply negb_true_iff in H. cbn. rewrite H.
  destruct (o =? 2); [eauto|]. destruct (o =? 3); eauto.
Qed.

Lemma scan_atom_no_aromatic heap n mb : forall db tb,
  forallb (fun x : Z * nat =>
             match nth_error heap (snd x) with
             | Some o => negb (o =? 4)
             | None => false
             end) mb = true ->
  exists db' tb', for_each (Prepare.scan_bond heap n) mb ([], db, tb) = Ok ([], db', tb').
Proof.
  induction mb as [|[m b] mb IH]; intros db tb H; cbn [for_each].
  - eauto.
  - cbn [forallb] in H. apply andb_true_iff in H as [Hb Hmb].
    destruct (scan_bond_no_aromatic heap n db tb m b Hb) as (db1 & tb1 & E).
    rewrite E. cbn [bind]. apply IH, Hmb.
Qed.

Lemma scan_no_aromatic heap bonds : forall db tb,
  forallb
    (fun nmb : Z * Dict.t nat =>
       forallb (fun x : Z * nat =>
                  match nth_error heap (snd x) with
                  | Some o => negb (o =? 4)
                  | None => false
                  end) (snd nmb)) bonds = true ->
  exists db' tb', for_each (Prepare.scan_atom heap) bonds ([], db, tb) = Ok ([], db', tb').
Proof.
  induction bonds as [|[n mb] bonds IH]; intros db tb H; cbn [for_each].
  - eauto.
  - cbn [forallb] in H. apply andb_true_iff in H as [Hmb Hrest].
    unfold Prepare.scan_atom at 1. cbn [fst snd].
    destruct (scan_atom_no_aromatic heap n mb db tb Hmb) as (db1 & tb1 & E).
    rewrite E. cbn [bind]. apply IH, Hrest.
Qed.

Lemma prepare_rings_no_aromatic mol :
  no_aromatic_bonds mol = true ->
  Prepare.prepare_rings mol = Ok ([], [], []).
Proof.
  intros H. destruct (scan_no_aromatic _ _ [] [] H) as (db & tb & E).
  change (Prepare.scan mol = Ok ([], db, tb)) in E.
  unfold Prepare.prepare_rings. rewrite E. reflexivity.
Qed.

Lemma kekule_full_no_aromatic fuel mol :
  no_aromatic_bonds mol = true ->
  Full.kekule_full fuel mol = Yield [] Stop.
Proof.
  intros H. unfold Full.kekule_full.
  rewrite (prepare_rings_no_aromatic mol H). reflexivity.
Qed.

(** C7.  On a molecule without bonds of order 4, [kekule] returns [False]
    and leaves the molecule, hence every bond order, as it was. *)
Theorem kekule_no_aromatic_bonds
  (calc_hybridization : Molecule -> Z -> Z)
  (calc_implicit : Molecule -> Z -> option Z) (fuel : nat) (mol : Molecule) :
  no_aromatic_bonds mol = true ->
  kekule calc_hybridization calc_implicit fuel mol = (Returned false, mol).
Proof.
  intros H. unfold kekule. rewrite (kekule_full_no_aromatic fuel mol H).
  reflexivity.
Qed.

(** C10.  On a molecule without bonds of order 4, [enumerate_kekule] yields
    exactly one copy, equal to the molecule: the product over no component
    is the single empty assignment. *)
Theorem enumerate_kekule_no_aromatic_bonds
  (calc_hybridization : Molecule -> Z -> Z)
  (calc_implicit : Molecule -> Z -> option Z) (fuel : nat) (mol : Molecule) :
  no_aromatic_bonds mol = true ->
  enumerate_kekule calc_hybridization calc_implicit fuel mol = Yield mol Stop.
Proof.
  intros H. unfold enumerate_kekule. rewrite (kekule_full_no_aromatic fuel mol H).
  cbn. destruct mol; reflexivity.
Qed.

(** Cyclohexane: six carbons, six single bonds. *)
Definition cyclohexane : Molecule :=
  Build.molecule
    [(1, 6, 0, false, Some 2); (2, 6, 0, false, Some 2); (3, 6, 0, false, Some 2);
     (4, 6, 0, false, Some 2); (5, 6, 0, false, Some 2); (6, 6, 0, false, Some 2)]
    [(1, 2, 1); (2, 3, 1); (3, 4, 1); (4, 5, 1); (5, 6, 1); (1, 6, 1)]
    [[1; 2; 3; 4; 5; 6]].

(** The marks of an atom as a molecule-independent stand-in for the
    container's calculators, for concrete runs. *)
Definition sp2_mark (_ : Molecule) (_ : Z) : Z := 2.
Definition one_hydrogen (_ : Molecule) (_ : Z) : option Z := Some 1.

Lemma kekule_no_aromatic_bonds_witness :
  no_aromatic_bonds cyclohexane = true /\
  kekule sp2_mark one_hydrogen 0 cyclohexane = (Returned false, cyclohexane).
Proof.
  split; [reflexivity|].
  apply (kekule_no_aromatic_bonds sp2_mark one_hydrogen 0 cyclohexane).
  reflexivity.
Defined.

Lemma enumerate_kekule_no_aromatic_bonds_witness :
  no_aromatic_bonds cyclohexane = true /\
  enumerate_kekule sp2_mark one_hydrogen 0 cyclohexane = Yield cyclohexane Stop.
Proof.
  split; [reflexivity|].
  apply (enumerate_kekule_no_aromatic_bonds sp2_mark one_hydrogen 0 cyclohexane).
  reflexivity.
Defined.

(** ** Errors leave the molecule alone *)

Section PatchErrors.

Variable calc_hybridization : Molecule -> Z -> Z.
Variable calc_implicit : Molecule -> Z -> option Z.

Lemma set_order_raises mol n m o e :
  set_order mol n m o = Raise e -> e = KeyError.
Proof.
  unfold set_order, Dict.item.
  destruct (Dict.get n (_bonds mol)) as [mb|]; cbn; [|congruence].
  destruct (Dict.get m mb); cbn; congruence.
Qed.

Lemma patch_bonds_raises patch : forall mol atoms e mol',
  patch_bonds mol patch atoms = (Raise e, mol') -> e = KeyError.
Proof.
  induction patch as [|[[n m] b] patch IH]; intros mol atoms e mol' H; cbn in H.
  - discriminate.
  - destruct (set_order mol n m b) as [mol1|e1] eqn:E.
    + eapply IH, H.
    + inversion H; subst. eapply set_order_raises, E.
Qed.

Lemma kekule_patch_raises mol patch e mol' :
  kekule_patch calc_hybridization calc_implicit mol patch = (Raise e, mol') ->
  e = KeyError.
Proof.
  unfold kekule_patch.
  destruct (patch_bonds mol patch []) as [[atoms|e1] mol1] eqn:E; intros H.
  - discriminate.
  - inversion H; subst. eapply patch_bonds_raises, E.
Qed.

(** C3.  When [kekule] raises the invalid-aromatic-ring error, the
    molecule it leaves behind is the molecule it was given: bonds, marks
    and hydrogen counts are all untouched. *)
Theorem kekule_invalid_ring_leaves_molecule (fuel : nat) (mol mol' : Molecule) :
  kekule calc_hybridization calc_implicit fuel mol = (Raised InvalidAromaticRing, mol') ->
  mol' = mol.
Proof.
  unfold kekule.
  destruct (first (Full.kekule_full fuel mol)) as [form| |e|]; intros H.
  - destruct form as [|t form].
    + discriminate.
    + destruct (kekule_patch calc_hybridization calc_implicit mol (t :: form))
        as [[u|e] mol1] eqn:E.
      * discriminate.
      * inversion H; subst. apply kekule_patch_raises in E. discriminate.
  - discriminate.
  - inversion H; reflexivity.
  - discriminate.
Qed.

End PatchErrors.

(** An aromatic six-ring whose atom 1 carries a triple bond to atom 7. *)
Definition ring_with_triple_bond : Molecule :=
  Build.molecule
    [Build.C 1; Build.C 2; Build.C 3; Build.C 4; Build.C 5; Build.C 6; Build.C 7]
    [(1, 2, 4); (2, 3, 4); (3, 4, 4); (4, 5, 4); (5, 6, 4); (1, 6, 4); (1, 7, 3)]
    [[1; 2; 3; 4; 5; 6]].

Lemma kekule_invalid_ring_leaves_molecule_witness :
  exists mol',
    kekule sp2_mark one_hydrogen 0 ring_with_triple_bond
    = (Raised InvalidAromaticRing, mol')
    /\ mol' = ring_with_triple_bond.
Proof.
  exists ring_with_triple_bond. split; [reflexivity|].
  apply (kekule_invalid_ring_leaves_molecule sp2_mark one_hydrogen 0
           ring_with_triple_bond ring_with_triple_bond).
  reflexivity.
Defined.

(** ** The classifier on S, Se and Te *)

Definition is_chalcogen (an : Z) : bool := (an =? 16) || (an =? 34) || (an =? 52).

(** The rule as the specification words it: two bonds, and either neutral
    or a radical of charge +1, give a double-bonded atom; anything else is
    the invalid-aromatic-ring error. *)
Definition chalcogen_rule_as_stated (mol : Molecule) (r : Prepare.roles) (n : Z) : Prop :=
  forall an ac mb rad,
    Dict.get n (_atoms mol) = Some an ->
    Dict.get n (_charges mol) = Some ac ->
    Dict.get n (_bonds mol) = Some mb ->
    Dict.get n (_radicals mol) = Some rad ->
    is_chalcogen an = true ->
    PySet.mem n (snd r) = false ->
    Prepare.classify_atom mol r n
    = if (length mb =? 2)%nat && ((ac =? 0) || (rad && (ac =? 1)))
      then Ok (Prepare.add_double n r)
      else Raise InvalidAromaticRing.

(** Thiopyrylium: a six-ring of five carbons and a sulfur cation. *)
Definition thiopyrylium : Molecule :=
  Build.molecule
    [(1, 16, 1, false, Some 0); Build.C 2; Build.C 3; Build.C 4; Build.C 5; Build.C 6]
    [(1, 2, 4); (2, 3, 4); (3, 4, 4); (4, 5, 4); (5, 6, 4); (1, 6, 4)]
    [[1; 2; 3; 4; 5; 6]].

(** C8, as stated, fails: the sulfur cation of thiopyrylium (charge +1, no
    radical, two bonds) is accepted and given no role. *)
Lemma chalcogen_rule_as_stated_fails :
  Prepare.classify_atom thiopyrylium ([], []) 1 = Ok ([], [])
  /\ ~ chalcogen_rule_as_stated thiopyrylium ([], []) 1.
Proof.
  split; [reflexivity|].
  intros H.
  specialize (H 16 1 [(2, 0%nat); (6, 5%nat)] false
                eq_refl eq_refl eq_refl eq_refl eq_refl eq_refl).
  discriminate H.
Qed.

(** C8, amended.  An S, Se or Te atom that is not yet double-bonded is
    accepted only with exactly two bonds: neutral without radical, or
    radical with charge +1, it becomes double-bonded; with charge +1 and no
    radical it is accepted and keeps no role; every other combination, the
    neutral radical included, is the invalid-aromatic-ring error. *)
Theorem chalcogen_rule (mol : Molecule) (r : Prepare.roles) (n an ac : Z)
        (mb : Dict.t nat) (rad : bool) :
  Dict.get n (_atoms mol) = Some an ->
  Dict.get n (_charges mol) = Some ac ->
  Dict.get n (_bonds mol) = Some mb ->
  Dict.get n (_radicals mol) = Some rad ->
  is_chalcogen an = true ->
  PySet.mem n (snd r) = false ->
  Prepare.classify_atom mol r n
  = if (length mb =? 2)%nat then
      if rad then
        if ac =? 1 then Ok (Prepare.add_double n r) else Raise InvalidAromaticRing
      else if ac =? 0 then Ok (Prepare.add_double n r)
      else if ac =? 1 then Ok r
      else Raise InvalidAromaticRing
    else Raise InvalidAromaticRing.
Proof.
  intros Han Hac Hmb Hrad Hel Hdb.
  unfold Prepare.classify_atom, Dict.item.
  rewrite Han, Hac, Hmb. cbn [bind].
  assert (E6 : (an =? 6) = false)
    by (unfold is_chalcogen in Hel; destruct (an =? 6) eqn:E; [|reflexivity];
        apply Z.eqb_eq in E; subst; discriminate).
  assert (E7 : ((an =? 7) || (an =? 15)) = false).
  { unfold is_chalcogen in Hel.
    destruct (an =? 7) eqn:E; [apply Z.eqb_eq in E; subst; discriminate|].
    destruct (an =? 15) eqn:E'; [apply Z.eqb_eq in E'; subst; discriminate|].
    reflexivity. }
  assert (E8 : (an =? 8) = false)
    by (unfold is_chalcogen in Hel; destruct (an =? 8) eqn:E; [|reflexivity];
        apply Z.eqb_eq in E; subst; discriminate).
  rewrite E6, E7, E8. unfold is_chalcogen in Hel. rewrite Hel.
  unfold Prepare.chalcogen, Dict.item. rewrite Hdb, Hrad. cbn [negb bind].
  replace (Z.of_nat (length mb) =? 2) with (length mb =? 2)%nat.
  2:{ destruct (Nat.eqb_spec (length mb) 2) as [E|E].
      - rewrite E. reflexivity.
      - symmetry. apply Z.eqb_neq. lia. }
  destruct (length mb =? 2)%nat; [|reflexivity].
  destruct rad.
  - destruct (Z.eqb_spec ac 1) as [->|Hne]; cbn; reflexivity.
  - cbn [bind]. destruct (Z.eqb_spec ac 0) as [->|Hne0]; [reflexivity|].
    destruct (ac =? 1); reflexivity.
Qed.

(** Thiophene: the neutral sulfur becomes double-bonded. *)
Definition thiophene : Molecule :=
  Build.molecule
    [(1, 16, 0, false, Some 0); Build.C 2; Build.C 3; Build.C 4; Build.C 5]
    [(1, 2, 4); (2, 3, 4); (3, 4, 4); (4, 5, 4); (1, 5, 4)]
    [[1; 2; 3; 4; 5]].

Lemma chalcogen_rule_witness :
  Prepare.classify_atom thiophene ([], []) 1 = Ok ([], [1]).
Proof.
  apply (chalcogen_rule thiophene ([], []) 1 16 0 [(2, 0%nat); (5, 4%nat)] false);
    reflexivity.
Defined.

(** ** Order of exploration *)

Module SearchOrder.

Import Component.

(** The state with the branches [rest] waiting under its stack. *)
Definition over (rest : list branch) (st : state) : state :=
  mkState (stack st ++ rest) (path st) (hashed_path st) (nether_yielded st).

(** [l1] is an initial segment of [l2]. *)
Definition prefix {A} (l1 l2 : list A) : Prop := exists l, l2 = l1 ++ l.

Lemma prefix_nil {A} (l : list A) : prefix [] l.
Proof. exists l. reflexivity. Qed.

Lemma prefix_cons {A} (x : A) (l1 l2 : list A) :
  prefix l1 l2 -> prefix (x :: l1) (x :: l2).
Proof. intros [l ->]. exists l. reflexivity. Qed.

Section Lifo.

Variable rings : Dict.t PySet.t.
Variable double_bonded : PySet.t.
Variable pyroles : PySet.t.
Variable start : Z.
Variable size : nat.
Variable rest : list branch.

Lemma abandon_over below p h ny st :
  abandon below p h ny = Ok st ->
  stack st <> [] ->
  abandon (below ++ rest) p h ny = Ok (over rest st).
Proof.
  unfold abandon, cut_back. destruct below as [|b below]; cbn.
  - intros H; inversion H; subst; cbn. congruence.
  - destruct (pop b) as [[it b']|e]; cbn; [|discriminate].
    intros H _; inversion H; subst. reflexivity.
Qed.

Ltac settle :=
  repeat match goal with
         | H : Ok _ = Ok _ |- _ => inversion H; subst; clear H
         | H : Raise _ = Ok _ |- _ => discriminate H
         end;
  try reflexivity;
  try (apply abandon_over; assumption).

Lemma grow_over atom bond for_stack closures top below p h ny st :
  grow double_bonded pyroles atom bond for_stack closures top below p h ny = Ok st ->
  stack st <> [] ->
  grow double_bonded pyroles atom bond for_stack closures top (below ++ rest) p h ny
  = Ok (over rest st).
Proof.
  unfold grow.
  destruct ((bond =? 2) || PySet.mem atom double_bonded).
  - destruct (for_each (close_one atom) closures (top, p)) as [[top' p']|e]; cbn;
      intros H Hs; settle.
  - destruct for_stack as [|n1 [|n2 [|n3 fs]]].
    + destruct closures; [intros H Hs; settle|].
      destruct (negb (PySet.mem atom pyroles)); intros H Hs; settle.
    + destruct (PySet.mem n1 double_bonded).
      * destruct (PySet.mem atom pyroles); intros H Hs; settle.
      * destruct (PySet.mem atom pyroles); [intros H Hs; settle|].
        destruct closures as [|c cl]; [intros H Hs; settle|].
        destruct (close_one atom (top ++ [(n1, atom, 2, None)], p) c)
          as [[top' p']|e]; cbn; intros H Hs; settle.
    + destruct (PySet.mem n1 double_bonded).
      * destruct (PySet.mem n2 double_bonded); intros H Hs; settle.
      * destruct (PySet.mem n2 double_bonded); intros H Hs; settle.
    + intros H; discriminate H.
Qed.

Lemma close_start_over atom bond for_stack closures loop top below p h ny st :
  close_start double_bonded pyroles atom bond for_stack closures loop top below p h ny
  = Ok st ->
  stack st <> [] ->
  close_start double_bonded pyroles atom bond for_stack closures loop top
              (below ++ rest) p h ny
  = Ok (over rest st).
Proof.
  unfold close_start.
  destruct (negb (loop =? 0)); [|apply grow_over].
  destruct (bond =? 2).
  - destruct (truthy double_bonded); [apply grow_over|apply abandon_over].
  - destruct (truthy double_bonded); [|apply grow_over].
    destruct (truthy for_stack || PySet.mem atom double_bonded
              || PySet.mem atom pyroles);
      [apply grow_over|apply abandon_over].
Qed.

(** A turn that leaves the stack non-empty does the same with more
    branches waiting underneath; a turn that yields, yields the same
    path. *)
Lemma step_over top below p h ny :
  match step rings double_bonded pyroles start size top below p h ny with
  | TurnNext st =>
      stack st <> [] ->
      step rings double_bonded pyroles start size top (below ++ rest) p h ny
      = TurnNext (over rest st)
  | TurnYield q after =>
      exists after',
        step rings double_bonded pyroles start size top (below ++ rest) p h ny
        = TurnYield q after'
        /\ forall st, after = Ok st -> stack st <> [] -> after' = Ok (over rest st)
  | TurnRaise _ => True
  end.
Proof.
  unfold step.
  destruct (pop top) as [[[[[atom prev_atom] bond] k] top']|e]; [|exact I].
  destruct (length (p ++ [(atom, prev_atom, bond)]) =? size)%nat.
  - eexists; split; [reflexivity|]. intros st H Hs. apply abandon_over; assumption.
  - destruct (negb (atom =? start)).
    + destruct (Dict.item atom rings) as [ms|e]; [|exact I].
      destruct (sort_neighbours start prev_atom (PySet.add atom h) ms)
        as [[for_stack closures] loop].
      destruct (close_start double_bonded pyroles atom bond for_stack closures loop
                            top' below (p ++ [(atom, prev_atom, bond)])
                            (PySet.add atom h) ny) as [st|e] eqn:E; [|exact I].
      intros Hs. rewrite (close_start_over _ _ _ _ _ _ _ _ _ _ _ E Hs). reflexivity.
    + intros _. reflexivity.
Qed.

(** Last in, first out: whatever the branches on top of the stack lead
    to is yielded before anything that comes from the branches below
    them. *)
Lemma search_over fuel : forall st,
  prefix (yielded (search rings double_bonded pyroles start size fuel st))
         (yielded (search rings double_bonded pyroles start size fuel (over rest st))).
Proof.
  induction fuel as [|fuel IH]; intros [stk p h ny]; cbn [search].
  - apply prefix_nil.
  - cbn [over stack path hashed_path nether_yielded].
    destruct stk as [|top below].
    + destruct ny; apply prefix_nil.
    + cbn [app].
      pose proof (step_over top below p h ny) as Hstep.
      destruct (step rings double_bonded pyroles start size top below p h ny)
        as [q after|st'|e].
      * destruct Hstep as (after' & -> & Hafter).
        destruct after as [st'|e].
        -- destruct (stack st') as [|t b] eqn:Es.
           ++ destruct after' as [st''|e']; cbn [yielded]; apply prefix_cons.
              ** destruct fuel; cbn [search]; [apply prefix_nil|].
                 rewrite Es. destruct (nether_yielded st'); apply prefix_nil.
              ** destruct fuel; cbn [search]; [apply prefix_nil|].
                 rewrite Es. destruct (nether_yielded st'); apply prefix_nil.
           ++ rewrite (Hafter st' eq_refl) by (rewrite Es; discriminate).
              cbn [yielded]. apply prefix_cons, IH.
        -- destruct after'; cbn [yielded]; apply prefix_cons, prefix_nil.
      * destruct (stack st') as [|t b] eqn:Es.
        -- destruct fuel; cbn [search]; [apply prefix_nil|].
           rewrite Es. destruct (nether_yielded st'); apply prefix_nil.
        -- rewrite Hstep by discriminate. apply IH.
      * apply prefix_nil.
Qed.

End Lifo.

(** The pyrazine ring as a component: atoms 3 and 6 are the nitrogens,
    which the classifier files under [pyroles]. *)
Definition pyrazine_ring : Dict.t PySet.t :=
  [(1, [2; 6]); (2, [1; 3]); (3, [2; 4]); (4, [3; 5]); (5, [4; 6]); (6, [5; 1])].

(** The claim as stated, at a branch point [atom] with forward neighbour
    [next_atom]: the first solution takes the single bond there. *)
Definition single_bond_first_as_stated
           (fuel : nat) (rings : Dict.t PySet.t) (double_bonded pyroles : PySet.t)
           (atom next_atom : Z) : Prop :=
  forall p rest,
    kekule_component fuel rings double_bonded pyroles = Yield p rest ->
    In (next_atom, atom, 1) p.

(** C9, as stated, fails.  In the pyrazine ring the search leaves atom 1
    with a single bond to the pyrrole-like atom 6, whose only forward
    neighbour is atom 5.  Both continuations lead to a solution, and the
    one yielded first has the double bond between 6 and 5. *)
Lemma single_bond_first_as_stated_fails :
  kekule_component 20 pyrazine_ring [] [3; 6]
  = Yield [(6, 1, 1); (5, 6, 2); (4, 5, 1); (3, 4, 2); (2, 3, 1); (1, 2, 2)]
      (Yield [(6, 1, 1); (5, 6, 1); (4, 5, 2); (3, 4, 1); (2, 3, 1); (1, 2, 2)]
         (Yield [(2, 1, 1); (3, 2, 2); (4, 3, 1); (5, 4, 2); (6, 5, 1); (1, 6, 2)]
            Stop))
  /\ ~ single_bond_first_as_stated 20 pyrazine_ring [] [3; 6] 6 5.
Proof.
  assert (E : kekule_component 20 pyrazine_ring [] [3; 6]
              = Yield [(6, 1, 1); (5, 6, 2); (4, 5, 1); (3, 4, 2); (2, 3, 1); (1, 2, 2)]
                  (Yield [(6, 1, 1); (5, 6, 1); (4, 5, 2); (3, 4, 1); (2, 3, 1); (1, 2, 2)]
                     (Yield [(2, 1, 1); (3, 2, 2); (4, 3, 1); (5, 4, 2); (6, 5, 1);
                             (1, 6, 2)]
                        Stop)))
    by (vm_compute; reflexivity).
  split; [exact E|].
  intros H. specialize (H _ _ E).
  cbn in H. repeat destruct H as [H|H]; try discriminate H; exact H.
Qed.

(** C9, amended.  At a branch point the alternative that puts the double
    bond on the forward neighbour (on the first of the two, at a fork) is
    left on top of the stack, the other alternative right under it, and
    everything the search yields from the top alternative alone comes
    first, in the same order, in what it yields from the whole stack.  So
    the first solution is the one that prefers the double bond at every
    branch point that has a solution on that side. *)
Theorem double_bond_alternative_first
        (rings : Dict.t PySet.t) (double_bonded pyroles : PySet.t)
        (start : Z) (size fuel : nat)
        (atom bond n1 n2 : Z) (closures : list Z)
        (top : branch) (below : list branch)
        (p : list triple) (h : PySet.t) (ny : bool) :
  (bond =? 2) || PySet.mem atom double_bonded = false ->
  PySet.mem n1 double_bonded = false ->
  PySet.mem n2 double_bonded = false ->
  (PySet.mem atom pyroles = true ->
   let double := top ++ [(n1, atom, 2, None)] in
   let single := top ++ [(n1, atom, 1, Some (length p))] in
   grow double_bonded pyroles atom bond [n1] closures top below p h ny
   = Ok (mkState (double :: single :: below) p h ny)
   /\ prefix
        (yielded (search rings double_bonded pyroles start size fuel
                         (mkState [double] p h ny)))
        (yielded (search rings double_bonded pyroles start size fuel
                         (mkState (double :: single :: below) p h ny))))
  /\ (let first_double := top ++ [(n2, atom, 1, None); (n1, atom, 2, None)] in
      let second_double :=
        top ++ [(n1, atom, 1, None); (n2, atom, 2, Some (length p))] in
      grow double_bonded pyroles atom bond [n1; n2] closures top below p h ny
      = Ok (mkState (first_double :: second_double :: below) p h ny)
      /\ prefix
           (yielded (search rings double_bonded pyroles start size fuel
                            (mkState [first_double] p h ny)))
           (yielded (search rings double_bonded pyroles start size fuel
                            (mkState (first_double :: second_double :: below) p h ny)))).
Proof.
  intros Hb H1 H2. split.
  - intros Hp. cbn zeta. split.
    + unfold grow. rewrite Hb, H1, Hp. reflexivity.
    + apply (search_over rings double_bonded pyroles start size
               ((top ++ [(n1, atom, 1, Some (length p))]) :: below) fuel
               (mkState [top ++ [(n1, atom, 2, None)]] p h ny)).
  - cbn zeta. split.
    + unfold grow. rewrite Hb, H1, H2. reflexivity.
    + apply (search_over rings double_bonded pyroles start size
               ((top ++ [(n1, atom, 1, None); (n2, atom, 2, Some (length p))]) :: below)
               fuel
               (mkState [top ++ [(n2, atom, 1, None); (n1, atom, 2, None)]] p h ny)).
Qed.

(** The branch point of the pyrazine ring: atom 6, reached from atom 1. *)
Lemma double_bond_alternative_first_witness :
  grow [] [3; 6] 6 1 [5] [] [] [[(2, 1, 1, Some 0%nat)]] [(6, 1, 1)] [6] true
  = Ok (mkState [[(5, 6, 2, None)]; [(5, 6, 1, Some 1%nat)]; [(2, 1, 1, Some 0%nat)]]
                [(6, 1, 1)] [6] true)
  /\ prefix
       (yielded (search pyrazine_ring [] [3; 6] 1 6 20
                        (mkState [[(5, 6, 2, None)]] [(6, 1, 1)] [6] true)))
       (yielded (search pyrazine_ring [] [3; 6] 1 6 20
                        (mkState [[(5, 6, 2, None)]; [(5, 6, 1, Some 1%nat)];
                                  [(2, 1, 1, Some 0%nat)]]
                                 [(6, 1, 1)] [6] true))).
Proof.
  apply (proj1 (double_bond_alternative_first
                  pyrazine_ring [] [3; 6] 1 6 20 6 1 5 5 []
                  [] [[(2, 1, 1, Some 0%nat)]] [(6, 1, 1)] [6] true
                  eq_refl eq_refl eq_refl)).
  reflexivity.
Defined.

End SearchOrder.

(** ** Facts about dicts and sets *)

Section DictFacts.

Context {V : Type}.
Implicit Types (d : Dict.t V) (k : Z) (v : V).

Lemma get_set_same k v d : Dict.get k (Dict.set k v d) = Some v.
Proof.
  induction d as [|[k' v'] d IH]; cbn.
  - rewrite Z.eqb_refl. reflexivity.
  - destruct (k' =? k) eqn:E; cbn; rewrite E; [reflexivity|exact IH].
Qed.

Lemma get_set_other k k' v d :
  k' <> k -> Dict.get k' (Dict.set k v d) = Dict.get k' d.
Proof.
  intros Hne. induction d as [|[k0 v0] d IH]; cbn.
  - destruct (Z.eqb_spec k k'); [congruence|reflexivity].
  - destruct (Z.eqb_spec k0 k) as [->|Hk]; cbn.
    + destruct (Z.eqb_spec k k'); [congruence|reflexivity].
    + destruct (k0 =? k'); [reflexivity|exact IH].
Qed.

Lemma get_in_keys k d v : Dict.get k d = Some v -> In k (Dict.keys d).
Proof.
  induction d as [|[k0 v0] d IH]; cbn; [discriminate|].
  destruct (Z.eqb_spec k0 k) as [->|Hk]; intros H; [left; reflexivity|].
  right. apply IH, H.
Qed.

Lemma get_none k d : Dict.get k d = None <-> ~ In k (Dict.keys d).
Proof.
  induction d as [|[k0 v0] d IH]; cbn.
  - tauto.
  - destruct (Z.eqb_spec k0 k) as [->|Hk].
    + split; [discriminate|]. intros H; exfalso; apply H; left; reflexivity.
    + rewrite IH. tauto.
Qed.

Lemma in_keys_get k d : In k (Dict.keys d) -> exists v, Dict.get k d = Some v.
Proof.
  intros H. destruct (Dict.get k d) as [v|] eqn:E; [eauto|].
  apply get_none in E. contradiction.
Qed.

Lemma get_in k d v : Dict.get k d = Some v -> In (k, v) d.
Proof.
  induction d as [|[k0 v0] d IH]; cbn; [discriminate|].
  destruct (Z.eqb_spec k0 k) as [->|Hk]; intros H.
  - left. congruence.
  - right. apply IH, H.
Qed.

Lemma in_get k d v : NoDup (Dict.keys d) -> In (k, v) d -> Dict.get k d = Some v.
Proof.
  induction d as [|[k0 v0] d IH]; cbn; [tauto|].
  intros Hnd [H|H].
  - inversion H; subst. rewrite Z.eqb_refl. reflexivity.
  - inversion Hnd as [|? ? Hnotin Hnd']; subst.
    destruct (Z.eqb_spec k0 k) as [->|Hk].
    + exfalso. apply Hnotin. change (In (fst (k, v)) (map fst d)).
      apply in_map, H.
    + apply IH; assumption.
Qed.

Lemma keys_set k v d :
  Dict.keys (Dict.set k v d)
  = if Dict.mem k d then Dict.keys d else Dict.keys d ++ [k].
Proof.
  unfold Dict.mem, Dict.keys. induction d as [|[k0 v0] d IH]; cbn.
  - reflexivity.
  - destruct (Z.eqb_spec k0 k) as [->|Hk]; cbn; [reflexivity|].
    rewrite IH. destruct (Dict.get k d); reflexivity.
Qed.

Lemma mem_true k d : Dict.mem k d = true <-> In k (Dict.keys d).
Proof.
  unfold Dict.mem. destruct (Dict.get k d) as [v|] eqn:E.
  - split; [intros _; eapply get_in_keys, E|reflexivity].
  - apply get_none in E. split; [discriminate|contradiction].
Qed.

Lemma in_keys_set x k v d :
  In x (Dict.keys (Dict.set k v d)) <-> In x (Dict.keys d) \/ x = k.
Proof.
  rewrite keys_set. destruct (Dict.mem k d) eqn:E.
  - apply mem_true in E. split; [tauto|]. intros [H| ->]; assumption.
  - rewrite in_app_iff. cbn. intuition congruence.
Qed.

Lemma nodup_keys_set k v d :
  NoDup (Dict.keys d) -> NoDup (Dict.keys (Dict.set k v d)).
Proof.
  intros H. rewrite keys_set. destruct (Dict.mem k d) eqn:E; [exact H|].
  assert (Hk : ~ In k (Dict.keys d)) by (rewrite <- mem_true; congruence).
  clear E. induction (Dict.keys d) as [|a l IH]; cbn.
  - constructor; [tauto|constructor].
  - inversion H; subst. constructor.
    + rewrite in_app_iff. cbn in *. intuition congruence.
    + apply IH; [assumption|]. cbn in Hk. tauto.
Qed.

Lemma length_set k v d :
  In k (Dict.keys d) -> length (Dict.set k v d) = length d.
Proof.
  induction d as [|[k0 v0] d IH]; cbn; [tauto|].
  destruct (Z.eqb_spec k0 k) as [->|Hk]; cbn; [reflexivity|].
  intros [H|H]; [congruence|]. rewrite IH; auto.
Qed.

Lemma get_remove_other k k' d :
  k' <> k -> Dict.get k' (Dict.remove k d) = Dict.get k' d.
Proof.
  intros Hne. induction d as [|[k0 v0] d IH]; cbn; [reflexivity|].
  destruct (Z.eqb_spec k0 k) as [->|Hk]; cbn.
  - destruct (Z.eqb_spec k k'); [congruence|reflexivity].
  - destruct (k0 =? k'); [reflexivity|exact IH].
Qed.

Lemma get_remove_same k d :
  NoDup (Dict.keys d) -> Dict.get k (Dict.remove k d) = None.
Proof.
  induction d as [|[k0 v0] d IH]; cbn; [reflexivity|].
  intros Hnd. inversion Hnd; subst.
  destruct (Z.eqb_spec k0 k) as [->|Hk]; cbn.
  - apply get_none. assumption.
  - destruct (Z.eqb_spec k0 k); [congruence|]. apply IH; assumption.
Qed.

Lemma in_keys_remove x k d :
  NoDup (Dict.keys d) ->
  (In x (Dict.keys (Dict.remove k d)) <-> In x (Dict.keys d) /\ x <> k).
Proof.
  intros Hnd. rewrite <- !mem_true. unfold Dict.mem.
  destruct (Z.eq_dec x k) as [->|Hne].
  - rewrite get_remove_same by assumption. intuition congruence.
  - rewrite get_remove_other by assumption. tauto.
Qed.

Lemma nodup_keys_remove k d :
  NoDup (Dict.keys d) -> NoDup (Dict.keys (Dict.remove k d)).
Proof.
  induction d as [|[k0 v0] d IH]; cbn; [auto|].
  intros Hnd. inversion Hnd as [|? ? Hnotin Hnd']; subst.
  destruct (k0 =? k); [assumption|]. cbn. constructor.
  - intros Hin. apply Hnotin.
    apply (proj1 (in_keys_remove k0 k d Hnd')) in Hin. tauto.
  - apply IH; assumption.
Qed.

Lemma length_remove k d :
  In k (Dict.keys d) -> S (length (Dict.remove k d)) = length d.
Proof.
  induction d as [|[k0 v0] d IH]; cbn; [tauto|].
  destruct (Z.eqb_spec k0 k) as [->|Hk]; cbn; [reflexivity|].
  intros [H|H]; [congruence|]. rewrite IH; auto.
Qed.

Lemma first_key_some (f : Z -> V -> bool) d n :
  NoDup (Dict.keys d) ->
  Dict.first_key f d = Some n ->
  exists v, Dict.get n d = Some v /\ f n v = true.
Proof.
  induction d as [|[k0 v0] d IH]; cbn; [discriminate|].
  intros Hnd. inversion Hnd as [|? ? Hnotin Hnd']; subst.
  destruct (f k0 v0) eqn:E.
  - intros H; inversion H; subst. rewrite Z.eqb_refl. eauto.
  - intros H. destruct (IH Hnd' H) as (v & Hg & Hf).
    destruct (Z.eqb_spec k0 n) as [->|Hk].
    + exfalso. apply Hnotin. eapply get_in_keys, Hg.
    + eauto.
Qed.

Lemma first_key_none (f : Z -> V -> bool) d n v :
  Dict.first_key f d = None -> In (n, v) d -> f n v = false.
Proof.
  induction d as [|[k0 v0] d IH]; cbn; [tauto|].
  destruct (f k0 v0) eqn:E; [discriminate|].
  intros H [Hin|Hin]; [congruence|]. apply IH; assumption.
Qed.

End DictFacts.

Lemma set_mem_true x s : PySet.mem x s = true <-> In x s.
Proof.
  unfold PySet.mem. rewrite existsb_exists. split.
  - intros (y & Hy & E). apply Z.eqb_eq in E. congruence.
  - intros H. exists x. split; [assumption|apply Z.eqb_refl].
Qed.

Lemma set_mem_false x s : PySet.mem x s = false <-> ~ In x s.
Proof.
  rewrite <- set_mem_true. destruct (PySet.mem x s); intuition congruence.
Qed.

Lemma in_set_add y x s : In y (PySet.add x s) <-> In y s \/ y = x.
Proof.
  unfold PySet.add. destruct (PySet.mem x s) eqn:E.
  - apply set_mem_true in E. intuition congruence.
  - rewrite in_app_iff. cbn. intuition congruence.
Qed.

Lemma in_set_discard y x s : In y (PySet.discard x s) <-> In y s /\ y <> x.
Proof.
  unfold PySet.discard. rewrite filter_In, negb_true_iff, Z.eqb_neq. tauto.
Qed.

Lemma dd_get_set x k v (d : Dict.t PySet.t) :
  dd_get x (Dict.set k v d) = if x =? k then v else dd_get x d.
Proof.
  unfold dd_get. destruct (Z.eqb_spec x k) as [->|Hne].
  - rewrite get_set_same. reflexivity.
  - rewrite get_set_other by assumption. reflexivity.
Qed.

(** ** Skeletons as graphs *)

(** [y] is a neighbour of [x] in the skeleton. *)
Definition adj (r : Dict.t PySet.t) (x y : Z) : Prop := In y (dd_get x r).

(** The skeleton is an undirected graph without loops, each atom filed
    once. *)
Definition symmetric_skeleton (r : Dict.t PySet.t) : Prop :=
  NoDup (Dict.keys r) /\ forall x y, adj r x y -> x <> y /\ adj r y x.

(** [r'] is what is left of [r] on the atoms that satisfy [P]. *)
Definition induced (P : Z -> Prop) (r r' : Dict.t PySet.t) : Prop :=
  NoDup (Dict.keys r')
  /\ (forall x, In x (Dict.keys r') <-> In x (Dict.keys r) /\ P x)
  /\ (forall x y, adj r' x y <-> adj r x y /\ P x /\ P y).

Lemma adj_key r x y : adj r x y -> In x (Dict.keys r).
Proof.
  unfold adj, dd_get. destruct (Dict.get x r) as [s|] eqn:E.
  - intros _. eapply get_in_keys, E.
  - intros [].
Qed.

Lemma adj_dd_add n m r x y :
  adj (dd_add n m r) x y <-> adj r x y \/ (x = n /\ y = m).
Proof.
  unfold adj, dd_add. rewrite dd_get_set.
  destruct (Z.eqb_spec x n) as [->|Hne].
  - rewrite in_set_add. intuition congruence.
  - intuition congruence.
Qed.

Lemma adj_dd_discard a k r x y :
  adj (dd_discard a k r) x y <-> adj r x y /\ ~ (x = a /\ y = k).
Proof.
  unfold adj, dd_discard. rewrite dd_get_set.
  destruct (Z.eqb_spec x a) as [->|Hne].
  - rewrite in_set_discard. intuition congruence.
  - intuition congruence.
Qed.

Lemma adj_remove k r x y :
  NoDup (Dict.keys r) ->
  (adj (Dict.remove k r) x y <-> adj r x y /\ x <> k).
Proof.
  intros Hnd. unfold adj, dd_get.
  destruct (Z.eq_dec x k) as [->|Hne].
  - rewrite get_remove_same by assumption. cbn. tauto.
  - rewrite get_remove_other by assumption. tauto.
Qed.

Lemma induced_symmetric P r r' :
  symmetric_skeleton r -> induced P r r' -> symmetric_skeleton r'.
Proof.
  intros [_ Hs] (Hnd & _ & Ha). split; [assumption|].
  intros x y Hxy. apply Ha in Hxy as (Hxy & Hx & Hy).
  destruct (Hs x y Hxy) as [Hne Hyx]. split; [assumption|].
  apply Ha. tauto.
Qed.

(** Discarding [k] from the sets of the atoms [l]. *)
Lemma fold_discard_adj k l : forall d x y,
  adj (fold_left (fun rg a => dd_discard a k rg) l d) x y
  <-> adj d x y /\ ~ (In x l /\ y = k).
Proof.
  induction l as [|a l IH]; intros d x y; cbn [fold_left].
  - cbn. tauto.
  - rewrite IH, adj_dd_discard. cbn. split.
    + intros [[H1 H2] H3]. split; [assumption|].
      intros [[E|Hin] Hk]; [apply H2; split; congruence|apply H3; tauto].
    + intros [H1 H2]. split; [split; [assumption|]|].
      * intros [Hx Hk]. apply H2. split; [left; congruence|assumption].
      * intros [Hx Hk]. apply H2. split; [right; assumption|assumption].
Qed.

Lemma fold_discard_keys k l : forall d,
  (forall a, In a l -> In a (Dict.keys d)) ->
  Dict.keys (fold_left (fun rg a => dd_discard a k rg) l d) = Dict.keys d
  /\ length (fold_left (fun rg a => dd_discard a k rg) l d) = length d.
Proof.
  induction l as [|a l IH]; intros d H; cbn [fold_left].
  - split; reflexivity.
  - assert (Ha : In a (Dict.keys d)) by (apply H; left; reflexivity).
    assert (Hk : Dict.keys (dd_discard a k d) = Dict.keys d).
    { unfold dd_discard. rewrite keys_set.
      apply mem_true in Ha. rewrite Ha. reflexivity. }
    destruct (IH (dd_discard a k d)) as [E1 E2].
    + intros b Hb. rewrite Hk. apply H. right. assumption.
    + rewrite E1, E2, Hk. split; [reflexivity|].
      unfold dd_discard. apply length_set, Ha.
Qed.

(** ** The quinone trimming of [thiele] *)

Lemma drop_atom_induced r n :
  symmetric_skeleton r ->
  In n (Dict.keys r) ->
  exists r',
    Thiele.drop_atom r n = Ok r'
    /\ induced (fun x => x <> n) r r'
    /\ S (length r') = length r.
Proof.
  intros [Hnd Hs] Hn.
  destruct (in_keys_get n r Hn) as [ms Hms].
  unfold Thiele.drop_atom, Dict.item. rewrite Hms. cbn [bind].
  eexists. split; [reflexivity|].
  assert (Hms' : dd_get n r = ms) by (unfold dd_get; rewrite Hms; reflexivity).
  assert (Hnd1 : NoDup (Dict.keys (Dict.remove n r))) by (apply nodup_keys_remove, Hnd).
  assert (Hin : forall a, In a ms -> In a (Dict.keys (Dict.remove n r))).
  { intros a Ha. apply in_keys_remove; [assumption|].
    assert (Hadj : adj r n a) by (unfold adj; rewrite Hms'; assumption).
    destruct (Hs n a Hadj) as [Hne Hback]. split; [eapply adj_key, Hback|congruence]. }
  destruct (fold_discard_keys n ms (Dict.remove n r) Hin) as [Ek El].
  split; [split; [|split]|].
  - rewrite Ek. assumption.
  - intros x. rewrite Ek. apply in_keys_remove, Hnd.
  - intros x y. rewrite fold_discard_adj, adj_remove by assumption. split.
    + intros [[Hxy Hx] Hno]. split; [assumption|]. split; [assumption|].
      intros ->. apply Hno. split; [|reflexivity].
      destruct (Hs x n Hxy) as [_ Hback]. unfold adj in Hback. rewrite Hms' in Hback.
      assumption.
    + intros (Hxy & Hx & Hy). split; [tauto|]. intros [_ E]. contradiction.
  - rewrite El. apply length_remove, Hn.
Qed.

Lemma drop_atoms_induced dbl : forall r,
  symmetric_skeleton r ->
  NoDup dbl ->
  (forall q, In q dbl -> In q (Dict.keys r)) ->
  exists r',
    for_each Thiele.drop_atom dbl r = Ok r'
    /\ induced (fun x => ~ In x dbl) r r'.
Proof.
  induction dbl as [|q dbl IH]; intros r Hsym Hnd Hin; cbn [for_each].
  - exists r. split; [reflexivity|]. destruct Hsym as [Hk _].
    split; [assumption|]. split; intros; cbn; tauto.
  - inversion Hnd as [|? ? Hq Hnd']; subst.
    destruct (drop_atom_induced r q Hsym) as (r1 & E1 & I1 & _);
      [apply Hin; left; reflexivity|].
    rewrite E1. cbn [bind].
    destruct (IH r1) as (r' & E & I).
    + eapply induced_symmetric; eassumption.
    + assumption.
    + intros a Ha. apply I1. split; [apply Hin; right; assumption|].
      intros ->. contradiction.
    + exists r'. split; [assumption|].
      destruct I1 as (_ & K1 & A1). destruct I as (Hndr & K & A).
      split; [assumption|]. split.
      * intros x. rewrite K, K1. cbn. intuition congruence.
      * intros x y. rewrite A, A1. cbn. intuition congruence.
Qed.

(** What one turn of the stripping loop does to a symmetric skeleton: it
    stops when no atom has degree 1, and otherwise takes an atom of degree
    1 out together with its neighbour. *)
Lemma strip_step_pair r :
  symmetric_skeleton r ->
  match Thiele.strip_step r with
  | None => forall n, In n (Dict.keys r) -> length (dd_get n r) <> 1%nat
  | Some res =>
      exists n m r',
        res = Ok r'
        /\ dd_get n r = [m]
        /\ induced (fun x => x <> n /\ x <> m) r r'
        /\ S (S (length r')) = length r
  end.
Proof.
  intros [Hnd Hs]. unfold Thiele.strip_step.
  destruct (Dict.first_key (fun _ ms => (length ms =? 1)%nat) r) as [n|] eqn:Ef.
  - destruct (first_key_some _ r n Hnd Ef) as (ms & Hms & Hlen).
    apply Nat.eqb_eq in Hlen.
    destruct ms as [|m [|? ?]]; try discriminate Hlen.
    assert (Hn : dd_get n r = [m]) by (unfold dd_get; rewrite Hms; reflexivity).
    assert (Hnm : adj r n m) by (unfold adj; rewrite Hn; left; reflexivity).
    destruct (Hs n m Hnm) as [Hne Hmn].
    assert (Hmk : In m (Dict.keys r)) by (eapply adj_key, Hmn).
    destruct (in_keys_get m r Hmk) as [pm Hpm].
    assert (Hm : dd_get m r = pm) by (unfold dd_get; rewrite Hpm; reflexivity).
    exists n, m. unfold Dict.item. rewrite Hms. cbn [bind].
    rewrite get_remove_other by congruence. rewrite Hpm. cbn [bind].
    eexists. split; [reflexivity|]. split; [assumption|].
    set (r1 := Dict.remove n r).
    assert (Hnd1 : NoDup (Dict.keys r1)) by (apply nodup_keys_remove, Hnd).
    set (r2 := Dict.remove m r1).
    assert (Hnd2 : NoDup (Dict.keys r2)) by (apply nodup_keys_remove, Hnd1).
    assert (Hk2 : forall x, In x (Dict.keys r2) <-> In x (Dict.keys r) /\ x <> n /\ x <> m).
    { intros x. unfold r2, r1. rewrite !in_keys_remove by assumption. tauto. }
    assert (Hin : forall a, In a (PySet.discard n pm) -> In a (Dict.keys r2)).
    { intros a Ha. apply in_set_discard in Ha as [Ha Han]. apply Hk2.
      assert (Hadj : adj r m a) by (unfold adj; rewrite Hm; assumption).
      destruct (Hs m a Hadj) as [Hma Hback].
      split; [eapply adj_key, Hback|]. split; congruence. }
    destruct (fold_discard_keys m (PySet.discard n pm) r2 Hin) as [Ek El].
    split; [split; [|split]|].
    + rewrite Ek. assumption.
    + intros x. rewrite Ek. apply Hk2.
    + intros x y. rewrite fold_discard_adj. unfold r2, r1.
      rewrite !adj_remove by assumption. split.
      * intros [[[Hxy Hxn] Hxm] Hno]. split; [assumption|]. split; [tauto|].
        split.
        -- intros ->. destruct (Hs x n Hxy) as [_ Hback].
           unfold adj in Hback. rewrite Hn in Hback.
           destruct Hback as [E|[]]. congruence.
        -- intros ->. apply Hno. split; [|reflexivity].
           apply in_set_discard. split; [|assumption].
           destruct (Hs x m Hxy) as [_ Hback]. unfold adj in Hback.
           rewrite Hm in Hback. assumption.
      * intros (Hxy & [Hxn Hxm] & [Hyn Hym]). split; [tauto|].
        intros [_ E]. contradiction.
    + rewrite El. unfold r2.
      rewrite (length_remove m r1).
      * unfold r1. apply length_remove. eapply get_in_keys, Hms.
      * unfold r1. apply in_keys_remove; [assumption|]. split; congruence.
  - intros n Hn. destruct (in_keys_get n r Hn) as [ms Hms].
    pose proof (first_key_none _ r n ms Ef (get_in n r ms Hms)) as Hf.
    cbn in Hf. apply Nat.eqb_neq in Hf.
    unfold dd_get. rewrite Hms. assumption.
Qed.

(** Stripping, told as a relation: as long as some atom has degree 1, that
    atom and its neighbour leave the skeleton. *)
Inductive strips : Dict.t PySet.t -> Dict.t PySet.t -> Prop :=
| strips_done r :
    (forall n, In n (Dict.keys r) -> length (dd_get n r) <> 1%nat) ->
    strips r r
| strips_pair r n m r1 r' :
    dd_get n r = [m] ->
    induced (fun x => x <> n /\ x <> m) r r1 ->
    strips r1 r' ->
    strips r r'.

Lemma strip_strips fuel : forall r,
  symmetric_skeleton r ->
  (length r <= fuel)%nat ->
  exists r', Thiele.strip fuel r = Returned r' /\ strips r r'.
Proof.
  induction fuel as [|fuel IH]; intros r Hsym Hlen;
    pose proof (strip_step_pair r Hsym) as Hstep.
  - cbn [Thiele.strip].
    destruct (Thiele.strip_step r) as [res|].
    + destruct Hstep as (n & m & r1 & _ & _ & _ & El). lia.
    + exists r. split; [reflexivity|]. constructor. assumption.
  - cbn [Thiele.strip].
    destruct (Thiele.strip_step r) as [res|].
    + destruct Hstep as (n & m & r1 & -> & Hn & Hind & El).
      destruct (IH r1) as (r' & E & Hst).
      * eapply induced_symmetric; eassumption.
      * lia.
      * exists r'. split; [assumption|]. eapply strips_pair; eassumption.
    + exists r. split; [reflexivity|]. constructor. assumption.
Qed.

Lemma nodup_keys_dd_add n m r :
  NoDup (Dict.keys r) -> NoDup (Dict.keys (dd_add n m r)).
Proof. apply nodup_keys_set. Qed.

Lemma link_symmetric n m r :
  symmetric_skeleton r -> n <> m -> symmetric_skeleton (Thiele.link n m r).
Proof.
  intros [Hnd Hs] Hne. unfold Thiele.link. split.
  - apply nodup_keys_dd_add, nodup_keys_dd_add, Hnd.
  - intros x y. rewrite !adj_dd_add.
    intros [[H|[-> ->]]|[-> ->]].
    + destruct (Hs x y H). tauto.
    + split; [assumption|]. right. tauto.
    + split; [congruence|]. left. right. tauto.
Qed.

Lemma fold_link_symmetric pairs : forall r,
  symmetric_skeleton r ->
  (forall a b, In (a, b) pairs -> a <> b) ->
  symmetric_skeleton
    (fold_left (fun rg nm => Thiele.link (fst nm) (snd nm) rg) pairs r).
Proof.
  induction pairs as [|[a b] pairs IH]; intros r Hsym Hp; cbn [fold_left].
  - assumption.
  - apply IH.
    + apply link_symmetric; [assumption|]. apply Hp. left. reflexivity.
    + intros a' b' H. apply Hp. right. assumption.
Qed.

Lemma zip_next_distinct ring : forall a b,
  NoDup ring -> In (a, b) (Prepare.zip_next ring) -> a <> b.
Proof.
  induction ring as [|n ring IH]; intros a b Hnd; cbn; [tauto|].
  destruct ring as [|m ring]; [cbn; tauto|].
  intros [H|H].
  - inversion H; subst. inversion Hnd as [|? ? Hn _]; subst.
    intros ->. apply Hn. left. reflexivity.
  - inversion Hnd; subst. apply IH; assumption.
Qed.

Lemma last_in (l : list Z) d : l <> [] -> In (last l d) l.
Proof.
  induction l as [|x l IH]; [congruence|]. intros _.
  destruct l as [|y l]; [left; reflexivity|].
  right. apply IH. discriminate.
Qed.

Lemma add_ring_symmetric mol r ring r' :
  NoDup ring ->
  symmetric_skeleton r ->
  Thiele.add_ring mol r ring = Ok r' ->
  symmetric_skeleton r'.
Proof.
  intros Hnd Hsym. unfold Thiele.add_ring.
  destruct (Thiele.all_sp2 mol ring) as [[|]|e]; cbn [bind]; try discriminate.
  - destruct ring as [|n [|x tl]]; try discriminate.
    intros H. injection H as <-.
    change (symmetric_skeleton
              (fold_left (fun rg nm => Thiele.link (fst nm) (snd nm) rg)
                         (Prepare.zip_next (n :: x :: tl))
                         (Thiele.link n (last (x :: tl) 0) r))).
    apply fold_link_symmetric.
    + apply link_symmetric; [assumption|].
      inversion Hnd as [|? ? Hn _]; subst.
      intros E. apply Hn. rewrite E. apply last_in. discriminate.
    + intros a b. apply zip_next_distinct, Hnd.
  - intros H; inversion H; subst. assumption.
Qed.

Lemma skeleton_symmetric mol r :
  Forall (@NoDup Z) (sssr mol) ->
  Thiele.skeleton mol = Ok r ->
  symmetric_skeleton r.
Proof.
  unfold Thiele.skeleton.
  assert (G : forall rs r0 r1,
             Forall (@NoDup Z) rs -> symmetric_skeleton r0 ->
             for_each (Thiele.add_ring mol) rs r0 = Ok r1 -> symmetric_skeleton r1).
  { induction rs as [|ring rs IH]; intros r0 r1 Hall Hsym; cbn [for_each].
    - intros H; inversion H; subst. assumption.
    - inversion Hall; subst.
      destruct (Thiele.add_ring mol r0 ring) as [r2|e] eqn:E; cbn [bind]; [|discriminate].
      apply IH; [assumption|]. eapply add_ring_symmetric; eassumption. }
  intros Hall. apply G; [assumption|].
  split; [constructor|]. intros x y [].
Qed.

Lemma quinones_sublist mol rings ns : forall qs,
  Thiele.quinones mol rings ns = Ok qs ->
  (forall q, In q qs -> In q ns) /\ (NoDup ns -> NoDup qs).
Proof.
  induction ns as [|n ns IH]; intros qs; cbn [Thiele.quinones].
  - intros H; inversion H; subst. split; [tauto|auto].
  - destruct (Dict.item n (_bonds mol)) as [mb|e]; cbn [bind]; [|discriminate].
    destruct (Thiele.has_exocyclic_double (_heap mol) rings mb) as [q|e];
      cbn [bind]; [|discriminate].
    destruct (Thiele.quinones mol rings ns) as [qs0|e]; cbn [bind]; [|discriminate].
    destruct (IH qs0 eq_refl) as [Hin Hnd].
    intros H; inversion H; subst; clear H. destruct q.
    + split.
      * intros x [->|Hx]; [left; reflexivity|right; apply Hin, Hx].
      * intros Hn. inversion Hn; subst. constructor; [|auto].
        intros Hq. apply Hin in Hq. contradiction.
    + split.
      * intros x Hx. right. apply Hin, Hx.
      * intros Hn. inversion Hn; subst. auto.
Qed.

(** Whether the atoms [c], in this order, form a cycle of the skeleton. *)
Definition is_cycle (r : Dict.t PySet.t) (c : list Z) : bool :=
  (3 <=? length c)%nat
  && forallb (fun ab : Z * Z => PySet.mem (snd ab) (dd_get (fst ab) r))
             ((last c 0, hd 0 c) :: Prepare.zip_next c).

(** The trimming as the specification words it: an atom that still lies on
    a cycle once the quinone atoms are gone stays in the skeleton. *)
Definition cycles_survive_as_stated (rings : Dict.t PySet.t) (double_bonded : list Z)
  : Prop :=
  forall r1 rings' c n,
    for_each Thiele.drop_atom double_bonded rings = Ok r1 ->
    Thiele.trim rings double_bonded = Returned rings' ->
    is_cycle r1 c = true ->
    In n c ->
    In n (Dict.keys rings').

(** 2,3-Naphthoquinone: ring carbons 1 to 10 (9 and 10 shared by the two
    rings), oxygens 11 and 12 double-bonded to carbons 2 and 3.  Every ring
    carbon carries the mark sp2. *)
Definition naphthoquinone : Molecule :=
  let m :=
    Build.molecule
      [Build.C 1; Build.C 2; Build.C 3; Build.C 4; Build.C 5; Build.C 6;
       Build.C 7; Build.C 8; Build.C 9; Build.C 10;
       (11, 8, 0, false, Some 0); (12, 8, 0, false, Some 0)]
      [(1, 2, 1); (2, 3, 1); (3, 4, 1); (4, 10, 2); (10, 5, 1); (5, 6, 2);
       (6, 7, 1); (7, 8, 2); (8, 9, 1); (9, 1, 2); (9, 10, 1);
       (2, 11, 2); (3, 12, 2)]
      [[1; 2; 3; 4; 10; 9]; [5; 6; 7; 8; 9; 10]] in
  mkMolecule (_atoms m) (_charges m) (_radicals m) (_hydrogens m)
             (map (fun a => (a, 2)) [1; 2; 3; 4; 5; 6; 7; 8; 9; 10; 11; 12])
             (_bonds m) (_heap m) (sssr m).

(** C5, as stated, fails.  In 2,3-naphthoquinone the quinone atoms are 2
    and 3.  Once they are gone atom 9 still lies on the cycle 5-6-7-8-9-10,
    and the trimming takes it out all the same, as the neighbour of atom 1;
    nothing is left of the skeleton. *)
Lemma cycles_survive_as_stated_fails :
  exists rings,
    Thiele.skeleton naphthoquinone = Ok rings
    /\ Thiele.quinones naphthoquinone rings (Dict.keys rings) = Ok [2; 3]
    /\ Thiele.trim rings [2; 3] = Returned []
    /\ ~ cycles_survive_as_stated rings [2; 3].
Proof.
  exists [(1, [9; 2]); (9, [1; 10; 8]); (2, [1; 3]); (3, [2; 4]); (4, [3; 10]);
          (10, [4; 9; 5]); (5, [10; 6]); (6, [5; 7]); (7, [6; 8]); (8, [7; 9])].
  assert (E1 : for_each Thiele.drop_atom [2; 3]
                 [(1, [9; 2]); (9, [1; 10; 8]); (2, [1; 3]); (3, [2; 4]); (4, [3; 10]);
                  (10, [4; 9; 5]); (5, [10; 6]); (6, [5; 7]); (7, [6; 8]); (8, [7; 9])]
               = Ok [(1, [9]); (9, [1; 10; 8]); (4, [10]); (10, [4; 9; 5]);
                     (5, [10; 6]); (6, [5; 7]); (7, [6; 8]); (8, [7; 9])])
    by (vm_compute; reflexivity).
  assert (E2 : Thiele.trim
                 [(1, [9; 2]); (9, [1; 10; 8]); (2, [1; 3]); (3, [2; 4]); (4, [3; 10]);
                  (10, [4; 9; 5]); (5, [10; 6]); (6, [5; 7]); (7, [6; 8]); (8, [7; 9])]
                 [2; 3]
               = Returned [])
    by (vm_compute; reflexivity).
  assert (E3 : is_cycle [(1, [9]); (9, [1; 10; 8]); (4, [10]); (10, [4; 9; 5]);
                         (5, [10; 6]); (6, [5; 7]); (7, [6; 8]); (8, [7; 9])]
                        [5; 6; 7; 8; 9; 10] = true)
    by (vm_compute; reflexivity).
  split; [vm_compute; reflexivity|]. split; [vm_compute; reflexivity|].
  split; [exact E2|].
  intros H.
  specialize (H _ [] [5; 6; 7; 8; 9; 10] 9 E1 E2 E3).
  apply H. cbn. tauto.
Qed.

(** No atom occurs twice in the list. *)
Fixpoint distinct (l : list Z) : bool :=
  match l with
  | [] => true
  | x :: l' => negb (PySet.mem x l') && distinct l'
  end.

Lemma distinct_nodup l : distinct l = true -> NoDup l.
Proof.
  induction l as [|x l IH]; cbn; intros H; constructor;
    apply andb_true_iff in H as [Hx Hl].
  - apply negb_true_iff, set_mem_false in Hx. assumption.
  - apply IH, Hl.
Qed.

Lemma strips_final r r' :
  strips r r' ->
  forall n, In n (Dict.keys r') ->
            In n (Dict.keys r) /\ length (dd_get n r') <> 1%nat.
Proof.
  induction 1 as [r Hdone|r a b r1 r' Ha Hind _ IH]; intros n Hn.
  - split; [assumption|]. apply Hdone, Hn.
  - destruct (IH n Hn) as [Hk Hl]. split; [|assumption].
    destruct Hind as (_ & K & _). apply K in Hk. tauto.
Qed.

(** C5, amended.  For a ring list without repeated atoms, the trimming of
    [thiele] takes the quinone atoms out of the skeleton and then, as long
    as some atom has exactly one neighbour left, takes that atom out
    together with its neighbour, whether or not the neighbour lies on a
    cycle.  It terminates; afterwards no quinone atom is left and no
    remaining atom has exactly one neighbour (the skeleton may be empty and
    atoms without neighbours may remain).  Without quinone atoms the
    skeleton is left as it is. *)
Theorem trim_removes_pairs (mol : Molecule) (rings : Dict.t PySet.t) (dbl : list Z) :
  forallb distinct (sssr mol) = true ->
  Thiele.skeleton mol = Ok rings ->
  Thiele.quinones mol rings (Dict.keys rings) = Ok dbl ->
  exists r1 rings',
    for_each Thiele.drop_atom dbl rings = Ok r1
    /\ induced (fun x => ~ In x dbl) rings r1
    /\ Thiele.trim rings dbl = Returned rings'
    /\ (dbl = [] -> rings' = rings)
    /\ (dbl <> [] ->
        strips r1 rings'
        /\ forall n, In n (Dict.keys rings') ->
                     In n (Dict.keys rings) /\ ~ In n dbl
                     /\ length (dd_get n rings') <> 1%nat).
Proof.
  intros Hrings Hskel Hq.
  assert (Hsym : symmetric_skeleton rings).
  { apply (skeleton_symmetric mol); [|assumption].
    apply Forall_forall. intros ring Hin. apply distinct_nodup.
    rewrite forallb_forall in Hrings. apply Hrings, Hin. }
  destruct (quinones_sublist mol rings (Dict.keys rings) dbl Hq) as [Hsub Hnd].
  destruct (drop_atoms_induced dbl rings Hsym (Hnd (proj1 Hsym)) Hsub)
    as (r1 & Edrop & Hind).
  assert (Hsym1 : symmetric_skeleton r1) by (eapply induced_symmetric; eassumption).
  destruct (strip_strips (length r1) r1 Hsym1 (Nat.le_refl _)) as (r2 & Estrip & Hstrips).
  destruct dbl as [|q dbl].
  - exists rings, rings. cbn in Edrop. injection Edrop as <-.
    split; [reflexivity|]. split; [exact Hind|]. split; [reflexivity|].
    split; [reflexivity|]. intros H. congruence.
  - exists r1, r2. split; [assumption|]. split; [assumption|]. split.
    + unfold Thiele.trim. rewrite Edrop. assumption.
    + split; [discriminate|]. intros _. split; [assumption|].
      intros n Hn. destruct (strips_final r1 r2 Hstrips n Hn) as [Hk Hl].
      destruct Hind as (_ & K & _). apply K in Hk. tauto.
Qed.

Lemma trim_removes_pairs_witness :
  exists r1 rings',
    for_each Thiele.drop_atom [2; 3]
             [(1, [9; 2]); (9, [1; 10; 8]); (2, [1; 3]); (3, [2; 4]); (4, [3; 10]);
              (10, [4; 9; 5]); (5, [10; 6]); (6, [5; 7]); (7, [6; 8]); (8, [7; 9])]
    = Ok r1
    /\ induced (fun x => ~ In x [2; 3])
               [(1, [9; 2]); (9, [1; 10; 8]); (2, [1; 3]); (3, [2; 4]); (4, [3; 10]);
                (10, [4; 9; 5]); (5, [10; 6]); (6, [5; 7]); (7, [6; 8]); (8, [7; 9])]
               r1
    /\ Thiele.trim
         [(1, [9; 2]); (9, [1; 10; 8]); (2, [1; 3]); (3, [2; 4]); (4, [3; 10]);
          (10, [4; 9; 5]); (5, [10; 6]); (6, [5; 7]); (7, [6; 8]); (8, [7; 9])]
         [2; 3]
       = Returned rings'
    /\ ([2; 3] = [] ->
        rings' = [(1, [9; 2]); (9, [1; 10; 8]); (2, [1; 3]); (3, [2; 4]); (4, [3; 10]);
                  (10, [4; 9; 5]); (5, [10; 6]); (6, [5; 7]); (7, [6; 8]); (8, [7; 9])])
    /\ ([2; 3] <> [] ->
        strips r1 rings'
        /\ forall n, In n (Dict.keys rings') ->
                     In n (Dict.keys
                             [(1, [9; 2]); (9, [1; 10; 8]); (2, [1; 3]); (3, [2; 4]);
                              (4, [3; 10]); (10, [4; 9; 5]); (5, [10; 6]); (6, [5; 7]);
                              (7, [6; 8]); (8, [7; 9])])
                     /\ ~ In n [2; 3]
                     /\ length (dd_get n rings') <> 1%nat).
Proof.
  apply (trim_removes_pairs naphthoquinone); reflexivity.
Defined.

(** ** A molecule whose yielded assignment repeats an edge *)

(** Atoms 1 and 5 are carbons, 2, 3 and 4 nitrogens, 6 a phosphorus; all
    eight bonds are aromatic.  The rings are 1-5-6, 2-3-4 and 2-3-5-6. *)
Definition fused_small_rings : Molecule :=
  Build.molecule
    [Build.C 1; (2, 7, 0, false, Some 0); (3, 7, 0, false, Some 0);
     (4, 7, 0, false, Some 0); Build.C 5; (6, 15, 0, false, Some 0)]
    [(1, 5, 4); (1, 6, 4); (2, 3, 4); (2, 4, 4); (2, 6, 4); (3, 4, 4);
     (3, 5, 4); (5, 6, 4)]
    [[1; 5; 6]; [2; 3; 4]; [2; 3; 5; 6]].

(** C2 fails on the code.  The classifier accepts [fused_small_rings]
    (atoms 2 and 3 double-bonded, atoms 4 and 6 pyrrole-like); the only
    assignment the search yields has as many triples as the skeleton has
    edges, yet it names the edge 2-6 twice and the edge 2-4 never, and
    [kekule] returns [True] leaving the bond 2-4 aromatic. *)
Theorem kekule_full_repeats_an_edge :
  Prepare.prepare_rings fused_small_rings
  = Ok ([(1, [5; 6]); (2, [3; 4; 6]); (3, [2; 4; 5]); (4, [2; 3]);
         (5, [1; 3; 6]); (6, [1; 2; 5])],
        [4; 6], [2; 3])
  /\ Full.kekule_full 20 fused_small_rings
     = Yield [(3, 2, 1); (5, 3, 1); (1, 5, 2); (6, 1, 1); (6, 5, 1); (4, 3, 1);
              (2, 6, 1); (2, 6, 1)]
             Stop
  /\ fst (kekule sp2_mark one_hydrogen 20 fused_small_rings) = Returned true
  /\ bond_order (snd (kekule sp2_mark one_hydrogen 20 fused_small_rings)) 2 4 = Ok 4.
Proof.
  repeat split; reflexivity.
Qed.

(** ** The skeleton of a molecule whose bonds are all aromatic *)

Lemma get_app_last {V} (d : Dict.t V) n v :
  ~ In n (Dict.keys d) -> Dict.get n (d ++ [(n, v)]) = Some v.
Proof.
  induction d as [|[k0 v0] d IH]; cbn; intros H.
  - rewrite Z.eqb_refl. reflexivity.
  - destruct (Z.eqb_spec k0 n) as [->|Hk]; [tauto|]. apply IH. tauto.
Qed.

Lemma set_app_last {V} (d : Dict.t V) n v v' :
  ~ In n (Dict.keys d) -> Dict.set n v' (d ++ [(n, v)]) = d ++ [(n, v')].
Proof.
  induction d as [|[k0 v0] d IH]; cbn; intros H.
  - rewrite Z.eqb_refl. reflexivity.
  - destruct (Z.eqb_spec k0 n) as [->|Hk]; [tauto|]. rewrite IH by tauto. reflexivity.
Qed.

Lemma set_app_new {V} (d : Dict.t V) n v :
  ~ In n (Dict.keys d) -> Dict.set n v d = d ++ [(n, v)].
Proof.
  induction d as [|[k0 v0] d IH]; cbn; intros H.
  - reflexivity.
  - destruct (Z.eqb_spec k0 n) as [->|Hk]; [tauto|]. rewrite IH by tauto. reflexivity.
Qed.

Lemma set_add_new x s : ~ In x s -> PySet.add x s = s ++ [x].
Proof.
  intros H. unfold PySet.add. apply set_mem_false in H. rewrite H. reflexivity.
Qed.

(** The Bond object [b] has order 4. *)
Definition aromatic_ref (heap : list Z) (b : nat) : bool :=
  match nth_error heap b with Some o => o =? 4 | None => false end.

(** What the first scan of [__prepare_rings] files for the atom [n] when
    all its bonds are aromatic. *)
Lemma scan_bonds_aromatic heap n db tb (rings0 : Dict.t PySet.t) :
  ~ In n (Dict.keys rings0) ->
  forall mb done,
    NoDup (done ++ Dict.keys mb) ->
    forallb (fun x : Z * nat => aromatic_ref heap (snd x)) mb = true ->
    for_each (Prepare.scan_bond heap n) mb (rings0 ++ [(n, done)], db, tb)
    = Ok (rings0 ++ [(n, done ++ Dict.keys mb)], db, tb).
Proof.
  intros Hn. induction mb as [|[m b] mb IH]; intros done Hnd Har; cbn [for_each].
  - cbn. rewrite app_nil_r. reflexivity.
  - cbn [forallb snd] in Har. apply andb_true_iff in Har as [Hb Hmb].
    unfold Prepare.scan_bond at 1, heap_order. unfold aromatic_ref in Hb.
    destruct (nth_error heap b) as [o|]; [|discriminate]. cbn [bind]. rewrite Hb.
    cbn [bind]. unfold dd_add, dd_get. rewrite get_app_last by assumption.
    rewrite set_app_last by assumption.
    assert (Hm : ~ In m done).
    { intros Hin. cbn in Hnd. apply NoDup_remove_2 in Hnd. apply Hnd.
      apply in_or_app. left. assumption. }
    rewrite set_add_new by assumption.
    rewrite IH.
    + cbn. rewrite <- app_assoc. reflexivity.
    + cbn in Hnd. rewrite <- app_assoc. exact Hnd.
    + assumption.
Qed.

Lemma scan_atom_aromatic heap n m b mb db tb (rings0 : Dict.t PySet.t) :
  ~ In n (Dict.keys rings0) ->
  NoDup (Dict.keys ((m, b) :: mb)) ->
  forallb (fun x : Z * nat => aromatic_ref heap (snd x)) ((m, b) :: mb) = true ->
  Prepare.scan_atom heap (rings0, db, tb) (n, (m, b) :: mb)
  = Ok (rings0 ++ [(n, Dict.keys ((m, b) :: mb))], db, tb).
Proof.
  intros Hn Hnd Har. unfold Prepare.scan_atom. cbn [fst snd for_each].
  cbn [forallb snd] in Har. apply andb_true_iff in Har as [Hb Hmb].
  unfold Prepare.scan_bond at 1, heap_order. unfold aromatic_ref in Hb.
  destruct (nth_error heap b) as [o|]; [|discriminate]. cbn [bind]. rewrite Hb.
  cbn [bind]. unfold dd_add, dd_get.
  assert (Hget : Dict.get n rings0 = None) by (apply get_none; assumption).
  rewrite Hget. cbn [PySet.add PySet.mem existsb app].
  rewrite set_app_new by assumption.
  apply (scan_bonds_aromatic heap n db tb rings0 Hn mb [m]); assumption.
Qed.

(** Every atom has bonds, to distinct neighbours, all of order 4. *)
Definition all_aromatic (mol : Molecule) : bool :=
  distinct (Dict.keys (_bonds mol))
  && forallb
       (fun nmb : Z * Dict.t nat =>
          truthy (snd nmb)
          && distinct (Dict.keys (snd nmb))
          && forallb (fun x : Z * nat => aromatic_ref (_heap mol) (snd x)) (snd nmb))
       (_bonds mol).

(** The skeleton of such a molecule: its adjacency, without the bonds. *)
Definition skeleton_of (bonds : Dict.t (Dict.t nat)) : Dict.t PySet.t :=
  map (fun nmb => (fst nmb, Dict.keys (snd nmb))) bonds.

Lemma scan_all_aromatic heap bonds : forall (rings0 : Dict.t PySet.t) db tb,
  NoDup (Dict.keys rings0 ++ Dict.keys bonds) ->
  forallb
    (fun nmb : Z * Dict.t nat =>
       truthy (snd nmb)
       && distinct (Dict.keys (snd nmb))
       && forallb (fun x : Z * nat => aromatic_ref heap (snd x)) (snd nmb))
    bonds = true ->
  for_each (Prepare.scan_atom heap) bonds (rings0, db, tb)
  = Ok (rings0 ++ skeleton_of bonds, db, tb).
Proof.
  induction bonds as [|[n mb] bonds IH]; intros rings0 db tb Hnd Hall; cbn [for_each].
  - cbn. rewrite app_nil_r. reflexivity.
  - cbn [forallb snd] in Hall. apply andb_true_iff in Hall as [Hn Hrest].
    apply andb_true_iff in Hn as [Hn Har]. apply andb_true_iff in Hn as [Hne Hd].
    destruct mb as [|[m b] mb]; [discriminate|].
    assert (Hkey : ~ In n (Dict.keys rings0)).
    { cbn in Hnd. apply NoDup_remove_2 in Hnd. intros Hin. apply Hnd.
      apply in_or_app. left. assumption. }
    rewrite scan_atom_aromatic; [|assumption|apply distinct_nodup, Hd|assumption].
    cbn [bind]. rewrite IH.
    + cbn [skeleton_of map fst snd]. rewrite <- app_assoc. reflexivity.
    + unfold Dict.keys in *. rewrite map_app. cbn [map fst].
      rewrite <- app_assoc. exact Hnd.
    + assumption.
Qed.

Lemma scan_aromatic mol :
  all_aromatic mol = true ->
  Prepare.scan mol = Ok (skeleton_of (_bonds mol), [], []).
Proof.
  unfold all_aromatic. intros H. apply andb_true_iff in H as [Hd Hall].
  unfold Prepare.scan.
  apply (scan_all_aromatic (_heap mol) (_bonds mol) [] [] []);
    [apply distinct_nodup, Hd|assumption].
Qed.

Lemma keys_skeleton_of bonds : Dict.keys (skeleton_of bonds) = Dict.keys bonds.
Proof.
  unfold skeleton_of, Dict.keys. rewrite map_map. reflexivity.
Qed.

Lemma get_skeleton_of bonds n :
  Dict.get n (skeleton_of bonds)
  = match Dict.get n bonds with Some mb => Some (Dict.keys mb) | None => None end.
Proof.
  induction bonds as [|[k mb] bonds IH]; cbn; [reflexivity|].
  destruct (k =? n); [reflexivity|exact IH].
Qed.

(** [a in bonds[b]] *)
Definition bonded (mol : Molecule) (a b : Z) : bool :=
  match Dict.get b (_bonds mol) with
  | Some mb => Dict.mem a mb
  | None => false
  end.

(** The ring walks along bonds of the molecule, back to its first atom. *)
Definition ring_of_bonds (mol : Molecule) (r : list Z) : bool :=
  match r with
  | n :: (_ :: _) as tl =>
      bonded mol n (last tl 0)
      && forallb (fun ab : Z * Z => bonded mol (fst ab) (snd ab)) (Prepare.zip_next r)
  | _ => false
  end.

Lemma bonded_in_skeleton mol a b :
  bonded mol a b = true ->
  PySet.mem a (dd_get b (skeleton_of (_bonds mol))) = true.
Proof.
  unfold bonded, dd_get. rewrite get_skeleton_of.
  destruct (Dict.get b (_bonds mol)) as [mb|]; [|discriminate].
  intros H. apply mem_true in H. apply set_mem_true. assumption.
Qed.

Lemma close_edges_noop mol pairs :
  forallb (fun ab : Z * Z => bonded mol (fst ab) (snd ab)) pairs = true ->
  fold_left (fun rg nm => Prepare.close_edge (fst nm) (snd nm) rg) pairs
            (skeleton_of (_bonds mol))
  = skeleton_of (_bonds mol).
Proof.
  induction pairs as [|[a b] pairs IH]; cbn [fold_left forallb fst snd]; intros H.
  - reflexivity.
  - apply andb_true_iff in H as [Hab Hrest].
    unfold Prepare.close_edge at 2. rewrite (bonded_in_skeleton mol a b Hab).
    apply IH, Hrest.
Qed.

Lemma add_ring_noop mol r :
  ring_of_bonds mol r = true ->
  Prepare.add_ring (skeleton_of (_bonds mol)) r = Ok (skeleton_of (_bonds mol)).
Proof.
  unfold ring_of_bonds, Prepare.add_ring. intros H.
  destruct (PySet.issubset (PySet.of_list r) (Dict.keys (skeleton_of (_bonds mol))));
    [|reflexivity].
  destruct r as [|n [|x tl]]; try discriminate.
  apply andb_true_iff in H as [Hfirst Hrest]. f_equal.
  unfold Prepare.close_edge at 2. rewrite (bonded_in_skeleton mol _ _ Hfirst).
  apply close_edges_noop, Hrest.
Qed.

Lemma add_rings_noop mol rs :
  forallb (ring_of_bonds mol) rs = true ->
  for_each Prepare.add_ring rs (skeleton_of (_bonds mol))
  = Ok (skeleton_of (_bonds mol)).
Proof.
  induction rs as [|r rs IH]; cbn [for_each forallb]; intros H; [reflexivity|].
  apply andb_true_iff in H as [Hr Hrs].
  rewrite (add_ring_noop mol r Hr). cbn [bind]. apply IH, Hrs.
Qed.

(** A neutral carbon with two or three bonds. *)
Definition plain_carbon (mol : Molecule) (nmb : Z * Dict.t nat) : bool :=
  match Dict.get (fst nmb) (_atoms mol), Dict.get (fst nmb) (_charges mol) with
  | Some an, Some ac =>
      (an =? 6) && (ac =? 0)
      && ((length (snd nmb) =? 2)%nat || (length (snd nmb) =? 3)%nat)
  | _, _ => false
  end.

Lemma classify_plain_carbon mol r n mb :
  Dict.get n (_bonds mol) = Some mb ->
  plain_carbon mol (n, mb) = true ->
  Prepare.classify_atom mol r n = Ok r.
Proof.
  unfold plain_carbon, Prepare.classify_atom, Dict.item. cbn [fst snd].
  intros Hmb. rewrite Hmb.
  destruct (Dict.get n (_atoms mol)) as [an|]; [|discriminate].
  destruct (Dict.get n (_charges mol)) as [ac|]; [|discriminate].
  intros H. apply andb_true_iff in H as [H Hlen]. apply andb_true_iff in H as [Han Hac].
  cbn [bind]. rewrite Han. unfold Prepare.carbon. rewrite Hac.
  replace ((Z.of_nat (length mb) =? 2) || (Z.of_nat (length mb) =? 3)) with true;
    [reflexivity|].
  symmetry. apply orb_true_iff. apply orb_true_iff in Hlen as [E|E];
    apply Nat.eqb_eq in E; rewrite E; [left|right]; reflexivity.
Qed.

Lemma classify_plain_carbons mol r :
  NoDup (Dict.keys (_bonds mol)) ->
  forallb (plain_carbon mol) (_bonds mol) = true ->
  for_each (Prepare.classify_atom mol) (Dict.keys (_bonds mol)) r = Ok r.
Proof.
  intros Hnd Hall.
  assert (G : forall ns, (forall n, In n ns -> In n (Dict.keys (_bonds mol))) ->
                         for_each (Prepare.classify_atom mol) ns r = Ok r).
  { induction ns as [|n ns IH]; intros Hin; cbn [for_each]; [reflexivity|].
    destruct (in_keys_get n (_bonds mol)) as [mb Hmb]; [apply Hin; left; reflexivity|].
    rewrite (classify_plain_carbon mol r n mb Hmb).
    - cbn [bind]. apply IH. intros x Hx. apply Hin. right. assumption.
    - rewrite forallb_forall in Hall. apply Hall. apply get_in. assumption. }
  apply G. auto.
Qed.

(** The classifier on a molecule of plain carbons joined by aromatic bonds
    only: the skeleton is the adjacency and both role sets are empty. *)
Lemma prepare_rings_plain_carbons mol :
  all_aromatic mol = true ->
  truthy (_bonds mol) = true ->
  forallb (ring_of_bonds mol) (sssr mol) = true ->
  forallb (plain_carbon mol) (_bonds mol) = true ->
  Prepare.prepare_rings mol = Ok (skeleton_of (_bonds mol), [], []).
Proof.
  intros Har Hne Hsssr Hplain. unfold Prepare.prepare_rings.
  rewrite (scan_aromatic mol Har). cbn [bind].
  destruct (skeleton_of (_bonds mol)) as [|kv skel] eqn:Es.
  { destruct (_bonds mol); [discriminate Hne|discriminate Es]. }
  rewrite <- Es. cbn [PySet.isdisjoint forallb negb].
  rewrite (add_rings_noop mol (sssr mol) Hsssr). cbn [bind].
  assert (Hdeg : existsb Prepare.bad_degree (Dict.values (skeleton_of (_bonds mol))) = false).
  { apply not_true_is_false. intros H. apply existsb_exists in H as (ms & Hin & Hbad).
    unfold Dict.values, skeleton_of in Hin. rewrite map_map in Hin.
    apply in_map_iff in Hin as ([n mb] & <- & Hin). cbn [fst snd] in Hbad.
    rewrite forallb_forall in Hplain. specialize (Hplain _ Hin).
    unfold plain_carbon in Hplain. cbn [fst snd] in Hplain.
    destruct (Dict.get n (_atoms mol)); [|discriminate].
    destruct (Dict.get n (_charges mol)); [|discriminate].
    apply andb_true_iff in Hplain as [_ Hlen].
    unfold Prepare.bad_degree in Hbad. unfold Dict.keys in Hbad.
    rewrite length_map in Hbad. rewrite Hlen in Hbad. discriminate. }
  rewrite Hdeg. cbn [PySet.inter filter existsb Prepare.any_bad_quinone bind].
  rewrite keys_skeleton_of.
  unfold all_aromatic in Har. apply andb_true_iff in Har as [Hd _].
  match goal with
  | |- bind ?c _ = _ =>
      assert (Ec : c = Ok ([], []))
        by (apply classify_plain_carbons; [apply distinct_nodup, Hd|assumption]);
      rewrite Ec
  end.
  reflexivity.
Qed.

(** * Further properties of the code *)

(** ** What the search puts on a path *)

Module PathFacts.

Import Component.

(** [x] is a neighbour of [y] in the skeleton and [o] is a single or a
    double bond. *)
Definition edge_ok (rings : Dict.t PySet.t) (x y o : Z) : Prop :=
  (o = 1 \/ o = 2) /\ exists ms, Dict.get y rings = Some ms /\ In x ms.

Definition triple_ok (rings : Dict.t PySet.t) (t : triple) : Prop :=
  edge_ok rings (fst (fst t)) (snd (fst t)) (snd t).

Definition item_ok (rings : Dict.t PySet.t) (it : item) : Prop :=
  triple_ok rings (fst it).

Definition state_ok (rings : Dict.t PySet.t) (st : state) : Prop :=
  Forall (triple_ok rings) (path st) /\ Forall (Forall (item_ok rings)) (stack st).

Lemma pop_forall {A} (P : A -> Prop) (l : list A) x l' :
  pop l = Ok (x, l') -> Forall P l -> P x /\ Forall P l'.
Proof.
  revert x l'. induction l as [|a l IH]; intros x l'; cbn [pop]; [discriminate|].
  destruct l as [|b l].
  - intros H Hall. injection H as <- <-. inversion Hall; subst. auto.
  - destruct (pop (b :: l)) as [[y r]|e]; cbn [bind]; [|discriminate].
    intros H Hall. injection H as <- <-. inversion Hall; subst.
    destruct (IH y r eq_refl) as [Hy Hr]; [assumption|]. auto.
Qed.

Lemma remove_forall (P : item -> Prop) x (l : branch) : forall l',
  remove x l = Ok l' -> Forall P l -> Forall P l'.
Proof.
  induction l as [|a l IH]; intros l'; cbn [remove]; [discriminate|].
  destruct (item_eqb a x).
  - intros H Hall. injection H as <-. inversion Hall; subst. assumption.
  - destruct (remove x l) as [r|e]; cbn [bind]; [|discriminate].
    intros H Hall. injection H as <-. inversion Hall; subst. auto.
Qed.

Lemma forall_firstn {A} (P : A -> Prop) n (l : list A) :
  Forall P l -> Forall P (firstn n l).
Proof.
  intros H. revert n. induction H as [|a l Ha Hl IH]; intros [|k]; cbn;
    constructor; auto.
Qed.

Lemma abandon_ok rings below p h ny st :
  abandon below p h ny = Ok st ->
  Forall (triple_ok rings) p ->
  Forall (Forall (item_ok rings)) below ->
  state_ok rings st.
Proof.
  unfold abandon, cut_back. destruct below as [|b below]; cbn [bind].
  - intros H Hp Hb. injection H as <-. split; assumption.
  - destruct (pop b) as [[it b']|e]; cbn [bind]; [|discriminate].
    intros H Hp Hb. injection H as <-. split; [|assumption]. cbn [path].
    destruct (snd it); [apply forall_firstn|]; assumption.
Qed.

Lemma sort_neighbours_in start prev hashed ms :
  forall fs cl loop,
    sort_neighbours start prev hashed ms = (fs, cl, loop) ->
    (forall x, In x fs -> In x ms)
    /\ (forall x, In x cl -> In x ms)
    /\ (loop = 0 \/ In loop ms).
Proof.
  unfold sort_neighbours.
  assert (G : forall l fs0 cl0 loop0 fs cl loop,
             fold_left
               (fun (acc : list Z * list Z * Z) next_atom =>
                  let '(for_stack, closures, loop) := acc in
                  if next_atom =? prev then acc
                  else if next_atom =? start then (for_stack, closures, next_atom)
                  else if PySet.mem next_atom hashed
                       then (for_stack, closures ++ [next_atom], loop)
                       else (for_stack ++ [next_atom], closures, loop))
               l (fs0, cl0, loop0) = (fs, cl, loop) ->
             (forall x, In x fs -> In x fs0 \/ In x l)
             /\ (forall x, In x cl -> In x cl0 \/ In x l)
             /\ (loop = loop0 \/ In loop l)).
  { induction l as [|a l IH]; intros fs0 cl0 loop0 fs cl loop; cbn [fold_left].
    - intros H. injection H as <- <- <-. auto.
    - intros H.
      assert (T : forall fs1 cl1 loop1,
                 fold_left
                   (fun (acc : list Z * list Z * Z) next_atom =>
                      let '(for_stack, closures, loop) := acc in
                      if next_atom =? prev then acc
                      else if next_atom =? start then (for_stack, closures, next_atom)
                      else if PySet.mem next_atom hashed
                           then (for_stack, closures ++ [next_atom], loop)
                           else (for_stack ++ [next_atom], closures, loop))
                   l (fs1, cl1, loop1) = (fs, cl, loop) ->
                 (forall x, In x fs1 -> In x fs0 \/ x = a) ->
                 (forall x, In x cl1 -> In x cl0 \/ x = a) ->
                 (loop1 = loop0 \/ loop1 = a) ->
                 (forall x, In x fs -> In x fs0 \/ In x (a :: l))
                 /\ (forall x, In x cl -> In x cl0 \/ In x (a :: l))
                 /\ (loop = loop0 \/ In loop (a :: l))).
      { intros fs1 cl1 loop1 E F1 F2 F3.
        destruct (IH _ _ _ _ _ _ E) as (H1 & H2 & H3). cbn [In].
        split; [|split].
        - intros x Hx. destruct (H1 x Hx) as [Hx'|Hx']; [|auto].
          destruct (F1 x Hx'); auto.
        - intros x Hx. destruct (H2 x Hx) as [Hx'|Hx']; [|auto].
          destruct (F2 x Hx'); auto.
        - destruct H3 as [->|H3]; [|auto]. destruct F3; auto. }
      destruct (a =? prev); [apply (T _ _ _ H); auto|].
      destruct (a =? start); [apply (T _ _ _ H); auto|].
      destruct (PySet.mem a hashed); apply (T _ _ _ H); auto;
        intros x Hx; apply in_app_or in Hx as [Hx|[<-|[]]]; auto. }
  intros fs cl loop H. destruct (G _ _ _ _ _ _ _ H) as (H1 & H2 & H3).
  repeat split.
  - intros x Hx. destruct (H1 x Hx) as [[]|]; assumption.
  - intros x Hx. destruct (H2 x Hx) as [[]|]; assumption.
  - destruct H3; auto.
Qed.

Lemma forall_app {A} (P : A -> Prop) (a b : list A) :
  Forall P a -> Forall P b -> Forall P (a ++ b).
Proof. intros Ha Hb. apply Forall_app. split; assumption. Qed.

Lemma new_item_ok rings atom ms x o k :
  Dict.get atom rings = Some ms ->
  In x ms ->
  o = 1 \/ o = 2 ->
  item_ok rings (x, atom, o, k).
Proof.
  intros Hms Hx Ho. unfold item_ok, triple_ok, edge_ok. cbn. eauto.
Qed.

Ltac items :=
  repeat first
    [ assumption
    | apply Forall_nil
    | apply Forall_cons
    | apply forall_app
    | eapply new_item_ok;
      [eassumption|assumption|(left; reflexivity) || (right; reflexivity)] ].

Lemma close_one_ok rings atom ms top p x top' p' :
  close_one atom (top, p) x = Ok (top', p') ->
  Dict.get atom rings = Some ms ->
  In x ms ->
  Forall (item_ok rings) top ->
  Forall (triple_ok rings) p ->
  Forall (item_ok rings) top' /\ Forall (triple_ok rings) p'.
Proof.
  unfold close_one. cbn [fst snd].
  destruct (remove (atom, x, 1, None) top) as [r|e] eqn:E; cbn [bind]; [|discriminate].
  intros H Hms Hx Htop Hp. injection H as <- <-. split.
  - eapply remove_forall; eassumption.
  - apply forall_app; [assumption|]. constructor; [|constructor].
    apply (new_item_ok rings atom ms x 1 None); auto.
Qed.

Lemma close_all_ok rings atom ms cl : forall top p top' p',
  for_each (close_one atom) cl (top, p) = Ok (top', p') ->
  Dict.get atom rings = Some ms ->
  (forall x, In x cl -> In x ms) ->
  Forall (item_ok rings) top ->
  Forall (triple_ok rings) p ->
  Forall (item_ok rings) top' /\ Forall (triple_ok rings) p'.
Proof.
  induction cl as [|c cl IH]; intros top p top' p'; cbn [for_each].
  - intros H _ _ Htop Hp. injection H as <- <-. auto.
  - destruct (close_one atom (top, p) c) as [[t1 p1]|e] eqn:E; cbn [bind]; [|discriminate].
    intros H Hms Hcl Htop Hp.
    destruct (close_one_ok rings atom ms top p c t1 p1 E Hms) as [Ht1 Hp1];
      [apply Hcl; left; reflexivity|assumption|assumption|].
    eapply IH; eauto. intros x Hx. apply Hcl. right. assumption.
Qed.

Lemma grow_ok rings db py atom bond fs cl top below p h ny st ms :
  grow db py atom bond fs cl top below p h ny = Ok st ->
  Dict.get atom rings = Some ms ->
  (forall x, In x fs -> In x ms) ->
  (forall x, In x cl -> In x ms) ->
  Forall (item_ok rings) top ->
  Forall (Forall (item_ok rings)) below ->
  Forall (triple_ok rings) p ->
  state_ok rings st.
Proof.
  intros H Hms Hfs Hcl Htop Hbelow Hp. unfold grow in H.
  assert (Hab : forall st', abandon below p h ny = Ok st' -> state_ok rings st')
    by (intros st' E; eapply abandon_ok; eassumption).
  destruct ((bond =? 2) || PySet.mem atom db).
  - destruct (for_each (close_one atom) cl (top, p)) as [[top' p']|e] eqn:E;
      cbn [bind] in H; [|discriminate].
    injection H as <-.
    destruct (close_all_ok rings atom ms cl top p top' p' E Hms Hcl Htop Hp) as [Ht Hq].
    split; cbn [path stack]; [assumption|]. constructor; [|assumption].
    apply forall_app; [assumption|]. apply Forall_forall. intros it Hit.
    apply in_map_iff in Hit as (x & <- & Hx).
    apply (new_item_ok rings atom ms x 1 None); auto.
  - destruct fs as [|n1 [|n2 [|n3 fs]]].
    + destruct cl; [injection H as <-; split; cbn [path stack]; auto|].
      destruct (negb (PySet.mem atom py)); [auto|].
      injection H as <-; split; cbn [path stack]; auto.
    + assert (H1 : In n1 ms) by (apply Hfs; left; reflexivity).
      destruct (PySet.mem n1 db).
      * destruct (PySet.mem atom py); [|auto].
        injection H as <-; split; cbn [path stack]; items.
      * destruct (PySet.mem atom py).
        -- injection H as <-; split; cbn [path stack]; items.
        -- destruct cl as [|c cl].
           ++ injection H as <-; split; cbn [path stack]; items.
           ++ destruct (close_one atom (top ++ [(n1, atom, 2, None)], p) c)
                as [[top' p']|e] eqn:E; cbn [bind] in H; [|discriminate].
              injection H as <-.
              destruct (close_one_ok rings atom ms _ p c top' p' E Hms) as [Ht Hq];
                [apply Hcl; left; reflexivity|items|assumption|].
              split; cbn [path stack]; auto.
    + assert (H1 : In n1 ms) by (apply Hfs; left; reflexivity).
      assert (H2 : In n2 ms) by (apply Hfs; right; left; reflexivity).
      destruct (PySet.mem n1 db); destruct (PySet.mem n2 db); auto;
        injection H as <-; split; cbn [path stack]; items.
    + discriminate.
Qed.

Lemma close_start_ok rings db py atom bond fs cl loop top below p h ny st ms :
  close_start db py atom bond fs cl loop top below p h ny = Ok st ->
  Dict.get atom rings = Some ms ->
  (forall x, In x fs -> In x ms) ->
  (forall x, In x cl -> In x ms) ->
  loop = 0 \/ In loop ms ->
  Forall (item_ok rings) top ->
  Forall (Forall (item_ok rings)) below ->
  Forall (triple_ok rings) p ->
  state_ok rings st.
Proof.
  intros H Hms Hfs Hcl Hloop Htop Hbelow Hp. unfold close_start in H.
  assert (Hab : forall st', abandon below p h ny = Ok st' -> state_ok rings st')
    by (intros st' E; eapply abandon_ok; eassumption).
  destruct (Z.eqb_spec loop 0) as [E0|E0]; cbn [negb] in H.
  - eapply grow_ok; eassumption.
  - destruct Hloop as [|Hloop]; [contradiction|].
    assert (Hnew : forall o, o = 1 \/ o = 2 ->
                             Forall (item_ok rings) ((loop, atom, o, None) :: top))
      by (intros o Ho; constructor; [eapply new_item_ok; eassumption|assumption]).
    destruct (bond =? 2).
    + destruct (truthy db); [|auto].
      eapply grow_ok; try eassumption. apply Hnew. auto.
    + destruct (truthy db).
      * destruct (truthy fs || PySet.mem atom db || PySet.mem atom py); [|auto].
        eapply grow_ok; try eassumption. apply Hnew. auto.
      * eapply grow_ok; try eassumption. apply Hnew. auto.
Qed.

Lemma step_ok rings db py start size top below p h ny :
  Forall (item_ok rings) top ->
  Forall (Forall (item_ok rings)) below ->
  Forall (triple_ok rings) p ->
  match step rings db py start size top below p h ny with
  | TurnYield q after =>
      Forall (triple_ok rings) q /\ length q = size
      /\ forall st, after = Ok st -> state_ok rings st
  | TurnNext st => state_ok rings st
  | TurnRaise _ => True
  end.
Proof.
  intros Htop Hbelow Hp. unfold step.
  destruct (pop top) as [[[[[atom prev_atom] bond] k] top']|e] eqn:Epop; [|exact I].
  destruct (pop_forall _ _ _ _ Epop Htop) as [Hit Htop'].
  assert (Hp' : Forall (triple_ok rings) (p ++ [(atom, prev_atom, bond)]))
    by (apply forall_app; [assumption|]; constructor; [exact Hit|constructor]).
  destruct (Nat.eqb_spec (length (p ++ [(atom, prev_atom, bond)])) size) as [El|El].
  - split; [assumption|]. split; [assumption|].
    intros st E. eapply abandon_ok; eassumption.
  - destruct (negb (atom =? start)).
    + unfold Dict.item.
      destruct (Dict.get atom rings) as [ms|] eqn:Ems; [|exact I].
      destruct (sort_neighbours start prev_atom (PySet.add atom h) ms)
        as [[fs cl] loop] eqn:Es.
      destruct (sort_neighbours_in _ _ _ _ _ _ _ Es) as (Hfs & Hcl & Hloop).
      destruct (close_start db py atom bond fs cl loop top' below
                            (p ++ [(atom, prev_atom, bond)]) (PySet.add atom h) ny)
        as [st|e] eqn:E; [|exact I].
      eapply close_start_ok; eassumption.
    + split; cbn [path stack]; auto.
Qed.

Lemma search_ok rings db py start size fuel : forall st,
  state_ok rings st ->
  Forall (fun q => Forall (triple_ok rings) q /\ length q = size)
         (yielded (search rings db py start size fuel st)).
Proof.
  induction fuel as [|fuel IH]; intros [stk p h ny] [Hp Hstk]; cbn [search].
  - constructor.
  - cbn [stack path hashed_path nether_yielded] in *.
    destruct stk as [|top below].
    + destruct ny; constructor.
    + inversion Hstk as [|? ? Htop Hbelow]; subst.
      pose proof (step_ok rings db py start size top below p h ny Htop Hbelow Hp) as Hs.
      destruct (step rings db py start size top below p h ny) as [q after|st'|e].
      * destruct Hs as (Hq & Hl & Hafter).
        destruct after as [st'|e]; cbn [yielded]; constructor; auto; constructor.
      * apply IH, Hs.
      * constructor.
Qed.

Lemma fan_ok rings start o ms :
  Dict.get start rings = Some ms ->
  o = 1 \/ o = 2 ->
  Forall (Forall (item_ok rings)) (fan start o ms).
Proof.
  intros Hms Ho. unfold fan. apply Forall_forall. intros b Hb.
  apply in_rev, in_map_iff in Hb as (x & <- & Hx).
  constructor; [|constructor]. eapply new_item_ok; eassumption.
Qed.

Lemma first_key_get {V} (f : Z -> V -> bool) (d : Dict.t V) n :
  Dict.first_key f d = Some n -> In n (Dict.keys d).
Proof.
  induction d as [|[k v] d IH]; cbn; [discriminate|].
  destruct (f k v); [intros H; injection H as <-; auto|auto].
Qed.

Lemma init_ok rings db py start db' stack0 :
  init rings db py = Ok (start, db', stack0) ->
  Forall (Forall (item_ok rings)) stack0.
Proof.
  unfold init, Dict.item. destruct db as [|s0 db].
  - destruct (Dict.first_key
                (fun n ms => (length ms =? 2)%nat && negb (PySet.mem n py)) rings)
      as [s|] eqn:E1.
    + destruct (Dict.get s rings) as [ms|] eqn:Ems; cbn [bind]; [|discriminate].
      intros H. injection H as <- <- <-. eapply fan_ok; eauto.
    + destruct (Dict.first_key (fun _ ms => (length ms =? 2)%nat) rings)
        as [s|] eqn:E2.
      * destruct (Dict.get s rings) as [ms|] eqn:Ems; cbn [bind]; [|discriminate].
        intros H. injection H as <- <- <-. eapply fan_ok; eauto.
      * destruct rings as [|[s ms] rings']; [discriminate|].
        intros H. injection H as <- <- <-. eapply fan_ok; [|auto].
        cbn. rewrite Z.eqb_refl. reflexivity.
  - destruct (Dict.get s0 rings) as [ms|] eqn:Ems; cbn [bind]; [|discriminate].
    destruct ms as [|x ms]; [discriminate|].
    intros H. injection H as <- <- <-.
    constructor; [|constructor]. constructor; [|constructor].
    eapply new_item_ok; [eassumption|left; reflexivity|auto].
Qed.

Lemma yielded_paths_ok fuel rings double_bonded pyroles q :
  In q (yielded (kekule_component fuel rings double_bonded pyroles)) ->
  Forall (triple_ok rings) q /\ length q = size_of rings.
Proof.
  unfold kekule_component.
  destruct (init rings double_bonded pyroles) as [[[start db'] stack0]|e] eqn:E;
    [|intros []].
  intros Hq.
  pose proof (search_ok rings db' pyroles start (size_of rings) fuel
                (mkState stack0 [] [] true)) as Hall.
  rewrite Forall_forall in Hall.
  exact (Hall (conj (Forall_nil _) (init_ok _ _ _ _ _ _ E)) q Hq).
Qed.

(** X1.  Every assignment that [__kekule_component] yields has exactly as
    many triples as the component has edges, and each triple [(atom,
    neighbour, order)] joins two atoms that are adjacent in the component
    with an order that is 1 or 2. *)
Theorem kekule_component_yields_edges
        (fuel : nat) (rings : Dict.t PySet.t) (double_bonded pyroles : PySet.t)
        (q : list triple) :
  In q (yielded (kekule_component fuel rings double_bonded pyroles)) ->
  length q = size_of rings
  /\ forall atom neighbour order,
       In (atom, neighbour, order) q ->
       (order = 1 \/ order = 2)
       /\ exists ms, Dict.get neighbour rings = Some ms /\ In atom ms.
Proof.
  intros Hq.
  destruct (yielded_paths_ok fuel rings double_bonded pyroles q Hq) as [Hedges Hlen].
  split; [assumption|].
  intros atom neighbour order Hin. rewrite Forall_forall in Hedges.
  exact (Hedges _ Hin).
Qed.

Lemma kekule_component_yields_edges_witness :
  length [(6, 1, 1); (5, 6, 2); (4, 5, 1); (3, 4, 2); (2, 3, 1); (1, 2, 2)]
  = size_of SearchOrder.pyrazine_ring
  /\ forall atom neighbour order,
       In (atom, neighbour, order)
          [(6, 1, 1); (5, 6, 2); (4, 5, 1); (3, 4, 2); (2, 3, 1); (1, 2, 2)] ->
       (order = 1 \/ order = 2)
       /\ exists ms, Dict.get neighbour SearchOrder.pyrazine_ring = Some ms /\ In atom ms.
Proof.
  apply (kekule_component_yields_edges 20 SearchOrder.pyrazine_ring [] [3; 6]).
  vm_compute. left. reflexivity.
Defined.

End PathFacts.

(** ** How the search ends *)

(** The event that ends a generator. *)
Inductive ending : Type :=
| EndStop
| EndThrow (e : exc)
| EndOutOfFuel.

Fixpoint end_of {A} (g : gen A) : ending :=
  match g with
  | Yield _ rest => end_of rest
  | Stop => EndStop
  | Throw e => EndThrow e
  | OutOfFuel => EndOutOfFuel
  end.

Module EndFacts.

Import Component.

Lemma abandon_flag below p h ny st :
  abandon below p h ny = Ok st -> nether_yielded st = ny.
Proof.
  unfold abandon. destruct (cut_back below p h) as [[p' h']|e]; cbn [bind];
    [|discriminate].
  intros H. injection H as <-. reflexivity.
Qed.

Lemma grow_flag db py atom bond fs cl top below p h ny st :
  grow db py atom bond fs cl top below p h ny = Ok st -> nether_yielded st = ny.
Proof.
  unfold grow. intros H.
  repeat match type of H with
         | Ok _ = Ok _ => injection H as <-; reflexivity
         | Raise _ = Ok _ => discriminate H
         | abandon _ _ _ _ = Ok _ => exact (abandon_flag _ _ _ _ _ H)
         | bind ?c _ = Ok _ => destruct c as [[? ?]|?]; cbn [bind] in H
         | (if ?c then _ else _) = Ok _ => destruct c
         | match ?l with [] => _ | _ :: _ => _ end = Ok _ => destruct l
         end.
Qed.

Lemma close_start_flag db py atom bond fs cl loop top below p h ny st :
  close_start db py atom bond fs cl loop top below p h ny = Ok st ->
  nether_yielded st = ny.
Proof.
  unfold close_start. intros H.
  repeat match type of H with
         | grow _ _ _ _ _ _ _ _ _ _ _ = Ok _ => exact (grow_flag _ _ _ _ _ _ _ _ _ _ _ _ H)
         | abandon _ _ _ _ = Ok _ => exact (abandon_flag _ _ _ _ _ H)
         | (if ?c then _ else _) = Ok _ => destruct c
         end.
Qed.

(** A turn that goes on keeps the flag; a turn that yields clears it. *)
Lemma step_flag rings db py start size top below p h ny :
  match step rings db py start size top below p h ny with
  | TurnYield _ (Ok st) => nether_yielded st = false
  | TurnNext st => nether_yielded st = ny
  | _ => True
  end.
Proof.
  unfold step.
  destruct (pop top) as [[[[[atom prev_atom] bond] k] top']|e]; [|exact I].
  destruct (length (p ++ [(atom, prev_atom, bond)]) =? size)%nat.
  - destruct (abandon below _ _ false) as [st|e] eqn:E; [|exact I].
    exact (abandon_flag _ _ _ _ _ E).
  - destruct (negb (atom =? start)); [|reflexivity].
    destruct (Dict.item atom rings) as [ms|e]; [|exact I].
    destruct (sort_neighbours start prev_atom (PySet.add atom h) ms) as [[fs cl] loop].
    destruct (close_start db py atom bond fs cl loop top' below _ _ ny) as [st|e] eqn:E;
      [|exact I].
    exact (close_start_flag _ _ _ _ _ _ _ _ _ _ _ _ _ E).
Qed.

Lemma pop_raises {A} (l : list A) e : pop l = Raise e -> e = IndexError.
Proof.
  induction l as [|a l IH]; cbn [pop]; [congruence|].
  destruct l as [|b l]; [discriminate|].
  destruct (pop (b :: l)) as [[y r]|e']; cbn [bind]; [discriminate|].
  intros H. injection H as <-. apply IH. reflexivity.
Qed.

Lemma remove_raises x (l : branch) e : remove x l = Raise e -> e = ValueError.
Proof.
  induction l as [|a l IH]; cbn [remove]; [congruence|].
  destruct (item_eqb a x); [discriminate|].
  destruct (remove x l) as [r|e']; cbn [bind]; [discriminate|].
  intros H. injection H as <-. apply IH. reflexivity.
Qed.

Lemma abandon_raises below p h ny e :
  abandon below p h ny = Raise e -> e = IndexError.
Proof.
  unfold abandon, cut_back. destruct below as [|b below]; cbn [bind]; [discriminate|].
  destruct (pop b) as [[it b']|e'] eqn:E; cbn [bind]; [discriminate|].
  intros H. injection H as <-. eapply pop_raises, E.
Qed.

Lemma close_one_raises atom tp x e : close_one atom tp x = Raise e -> e = ValueError.
Proof.
  unfold close_one.
  destruct (remove (atom, x, 1, None) (fst tp)) as [r|e'] eqn:E; cbn [bind];
    [discriminate|].
  intros H. injection H as <-. eapply remove_raises, E.
Qed.

Lemma close_all_raises atom cl : forall tp e,
  for_each (close_one atom) cl tp = Raise e -> e = ValueError.
Proof.
  induction cl as [|c cl IH]; intros tp e; cbn [for_each]; [discriminate|].
  destruct (close_one atom tp c) as [tp'|e'] eqn:E; cbn [bind].
  - apply IH.
  - intros H. injection H as <-. eapply close_one_raises, E.
Qed.

Lemma grow_raises db py atom bond fs cl top below p h ny e :
  grow db py atom bond fs cl top below p h ny = Raise e ->
  e = ValueError \/ e = IndexError.
Proof.
  unfold grow. intros H.
  repeat match type of H with
         | Ok _ = Raise _ => discriminate H
         | Raise _ = Raise _ => injection H as <-; left; reflexivity
         | abandon _ _ _ _ = Raise _ => right; exact (abandon_raises _ _ _ _ _ H)
         | bind (for_each ?f ?l ?s) _ = Raise _ =>
             let E := fresh "E" in
             destruct (for_each f l s) as [[? ?]|?] eqn:E; cbn [bind] in H;
             [|injection H as <-; left; exact (close_all_raises _ _ _ _ E)]
         | bind (close_one ?a ?tp ?x) _ = Raise _ =>
             let E := fresh "E" in
             destruct (close_one a tp x) as [[? ?]|?] eqn:E; cbn [bind] in H;
             [|injection H as <-; left; exact (close_one_raises _ _ _ _ E)]
         | (if ?c then _ else _) = Raise _ => destruct c
         | match ?l with [] => _ | _ :: _ => _ end = Raise _ => destruct l
         end.
Qed.

Lemma close_start_raises db py atom bond fs cl loop top below p h ny e :
  close_start db py atom bond fs cl loop top below p h ny = Raise e ->
  e = ValueError \/ e = IndexError.
Proof.
  unfold close_start. intros H.
  repeat match type of H with
         | grow _ _ _ _ _ _ _ _ _ _ _ = Raise _ =>
             exact (grow_raises _ _ _ _ _ _ _ _ _ _ _ _ H)
         | abandon _ _ _ _ = Raise _ => right; exact (abandon_raises _ _ _ _ _ H)
         | (if ?c then _ else _) = Raise _ => destruct c
         end.
Qed.

(** No turn of the loop raises the invalid-aromatic-ring error. *)
Lemma step_raises rings db py start size top below p h ny :
  match step rings db py start size top below p h ny with
  | TurnYield _ (Raise e) => e <> InvalidAromaticRing
  | TurnRaise e => e <> InvalidAromaticRing
  | _ => True
  end.
Proof.
  unfold step.
  destruct (pop top) as [[[[[atom prev_atom] bond] k] top']|e] eqn:Ep.
  2:{ apply pop_raises in Ep. subst. discriminate. }
  destruct (length (p ++ [(atom, prev_atom, bond)]) =? size)%nat.
  - destruct (abandon below _ _ false) as [st|e] eqn:E; [exact I|].
    apply abandon_raises in E. subst. discriminate.
  - destruct (negb (atom =? start)); [|exact I].
    unfold Dict.item. destruct (Dict.get atom rings) as [ms|]; [|discriminate].
    destruct (sort_neighbours start prev_atom (PySet.add atom h) ms) as [[fs cl] loop].
    destruct (close_start db py atom bond fs cl loop top' below _ _ ny) as [st|e] eqn:E;
      [exact I|].
    apply close_start_raises in E. destruct E; subst; discriminate.
Qed.

Lemma search_after_yield rings db py start size fuel : forall st,
  nether_yielded st = false ->
  end_of (search rings db py start size fuel st) <> EndThrow InvalidAromaticRing.
Proof.
  induction fuel as [|fuel IH]; intros [stk p h ny] Hny; cbn [search]; [discriminate|].
  cbn [stack path hashed_path nether_yielded] in *. subst ny.
  destruct stk as [|top below]; [discriminate|].
  pose proof (step_flag rings db py start size top below p h false) as Hs.
  pose proof (step_raises rings db py start size top below p h false) as Hr.
  destruct (step rings db py start size top below p h false) as [q [st'|e]|st'|e];
    cbn [end_of].
  - apply IH, Hs.
  - congruence.
  - apply IH, Hs.
  - congruence.
Qed.

Lemma search_ends rings db py start size fuel : forall st,
  nether_yielded st = true ->
  (end_of (search rings db py start size fuel st) = EndThrow InvalidAromaticRing ->
   yielded (search rings db py start size fuel st) = [])
  /\ (end_of (search rings db py start size fuel st) = EndStop ->
      yielded (search rings db py start size fuel st) <> []).
Proof.
  induction fuel as [|fuel IH]; intros [stk p h ny] Hny; cbn [search].
  - split; [reflexivity|discriminate].
  - cbn [stack path hashed_path nether_yielded] in *. subst ny.
    destruct stk as [|top below]; [split; [reflexivity|discriminate]|].
    pose proof (step_flag rings db py start size top below p h true) as Hs.
    pose proof (step_raises rings db py start size top below p h true) as Hr.
    destruct (step rings db py start size top below p h true) as [q [st'|e]|st'|e];
      cbn [end_of yielded].
    + split; [|discriminate]. intros H. exfalso.
      exact (search_after_yield rings db py start size fuel st' Hs H).
    + split; [congruence|discriminate].
    + apply IH, Hs.
    + split; [reflexivity|discriminate].
Qed.

Lemma kekule_component_never_stops_first fuel rings double_bonded pyroles :
  first (kekule_component fuel rings double_bonded pyroles) <> FirstStop.
Proof.
  unfold kekule_component.
  destruct (init rings double_bonded pyroles) as [[[start db'] stack0]|e];
    [|discriminate].
  destruct (search_ends rings db' pyroles start (size_of rings) fuel
              (mkState stack0 [] [] true) eq_refl) as [_ H].
  destruct (search rings db' pyroles start (size_of rings) fuel
                   (mkState stack0 [] [] true)); try discriminate.
  intros _. apply H; reflexivity.
Qed.


End EndFacts.

(** ** [check_thiele] *)

(** [check_thiele(fast)]: the invalid-aromatic-ring error becomes [False],
    any other exception goes through.  With [fast] only the classifier
    runs; without it the search runs up to its first assignment. *)
Definition check_thiele (fast : bool) (fuel : nat) (mol : Molecule) : outcome bool :=
  if fast then
    match Prepare.prepare_rings mol with
    | Ok _ => Returned true
    | Raise InvalidAromaticRing => Returned false
    | Raise e => Raised e
    end
  else
    match first (Full.kekule_full fuel mol) with
    | FirstValue _ => Returned true
    | FirstStop => Returned true
    | FirstThrow InvalidAromaticRing => Returned false
    | FirstThrow e => Raised e
    | FirstOutOfFuel => NoFuel
    end.

(** X3.  The thorough check implies the fast one: a molecule that
    [check_thiele(fast=False)] accepts is accepted by
    [check_thiele(fast=True)]. *)
Theorem check_thiele_slow_implies_fast (fuel : nat) (mol : Molecule) :
  check_thiele false fuel mol = Returned true ->
  check_thiele true fuel mol = Returned true.
Proof.
  unfold check_thiele, Full.kekule_full.
  destruct (Prepare.prepare_rings mol) as [p|e]; [reflexivity|].
  cbn [first]. destruct e; discriminate.
Qed.

Lemma check_thiele_slow_implies_fast_witness :
  check_thiele true 20 thiophene = Returned true.
Proof.
  apply (check_thiele_slow_implies_fast 20 thiophene). reflexivity.
Defined.

(** X4.  [check_thiele(fast=False)] answers [False] exactly when [kekule]
    raises the invalid-aromatic-ring error on the same molecule. *)
Theorem check_thiele_false_iff_kekule_raises
        (calc_hybridization : Molecule -> Z -> Z)
        (calc_implicit : Molecule -> Z -> option Z) (fuel : nat) (mol : Molecule) :
  check_thiele false fuel mol = Returned false
  <-> fst (kekule calc_hybridization calc_implicit fuel mol)
      = Raised InvalidAromaticRing.
Proof.
  unfold check_thiele, kekule.
  destruct (first (Full.kekule_full fuel mol)) as [form| |e|]; cbn [fst].
  - split; [discriminate|].
    destruct form as [|t form]; [discriminate|].
    destruct (kekule_patch calc_hybridization calc_implicit mol (t :: form))
      as [[u|e] mol'] eqn:E; cbn [fst]; [discriminate|].
    apply kekule_patch_raises in E. subst. discriminate.
  - split; discriminate.
  - destruct e; split; try discriminate; try reflexivity; congruence.
  - split; discriminate.
Qed.

(** ** What the patcher touches *)

(** Everything of a molecule but the orders of its Bond objects and the
    marks the patcher recomputes. *)
Definition frame (mol : Molecule)
  : Dict.t Z * Dict.t Z * Dict.t bool * Dict.t (Dict.t nat) * list (list Z) :=
  (_atoms mol, _charges mol, _radicals mol, _bonds mol, sssr mol).

Section PatchFacts.

Variable calc_hybridization : Molecule -> Z -> Z.
Variable calc_implicit : Molecule -> Z -> option Z.

Lemma set_order_frame mol n m o mol' :
  set_order mol n m o = Ok mol' ->
  frame mol' = frame mol /\ length (_heap mol') = length (_heap mol).
Proof.
  unfold set_order.
  destruct (Dict.item n (_bonds mol)) as [mb|e]; cbn [bind]; [|discriminate].
  destruct (Dict.item m mb) as [b|e]; cbn [bind]; [|discriminate].
  intros H. injection H as <-. split; [reflexivity|]. cbn [_heap with_heap].
  generalize b. induction (_heap mol) as [|x h IH]; intros [|b']; cbn; auto.
Qed.

Lemma patch_bonds_frame patch : forall mol atoms r mol',
  patch_bonds mol patch atoms = (r, mol') ->
  frame mol' = frame mol /\ length (_heap mol') = length (_heap mol).
Proof.
  induction patch as [|[[n m] b] patch IH]; intros mol atoms r mol'; cbn [patch_bonds].
  - intros H. injection H as <- <-. auto.
  - destruct (set_order mol n m b) as [mol1|e] eqn:E.
    + intros H. destruct (set_order_frame _ _ _ _ _ E) as [F1 L1].
      destruct (IH _ _ _ _ H) as [F2 L2]. split; congruence.
    + intros H. injection H as <- <-. auto.
Qed.

Lemma recalc_frame mol n :
  frame (recalc calc_hybridization calc_implicit mol n) = frame mol
  /\ _heap (recalc calc_hybridization calc_implicit mol n) = _heap mol.
Proof. split; reflexivity. Qed.

Lemma recalc_all_frame atoms : forall mol,
  frame (fold_left (recalc calc_hybridization calc_implicit) atoms mol) = frame mol
  /\ _heap (fold_left (recalc calc_hybridization calc_implicit) atoms mol) = _heap mol.
Proof.
  induction atoms as [|n atoms IH]; intros mol; cbn [fold_left]; [auto|].
  destruct (IH (recalc calc_hybridization calc_implicit mol n)) as [F H].
  rewrite F, H. apply recalc_frame.
Qed.

Lemma kekule_patch_frame mol patch r mol' :
  kekule_patch calc_hybridization calc_implicit mol patch = (r, mol') ->
  frame mol' = frame mol /\ length (_heap mol') = length (_heap mol).
Proof.
  unfold kekule_patch.
  destruct (patch_bonds mol patch []) as [[atoms|e] mol1] eqn:E;
    destruct (patch_bonds_frame _ _ _ _ _ E) as [F L]; intros H; injection H as <- <-.
  - destruct (recalc_all_frame atoms mol1) as [F' H']. rewrite F', H'. auto.
  - auto.
Qed.

(** X5.  However [kekule] ends, it leaves the atoms, their charges and
    radical flags, the adjacency maps and the ring list of the molecule as
    they were, and it creates or deletes no Bond object: only bond orders,
    hybridization marks and hydrogen counts can differ. *)
Theorem kekule_keeps_the_graph (fuel : nat) (mol : Molecule) :
  frame (snd (kekule calc_hybridization calc_implicit fuel mol)) = frame mol
  /\ length (_heap (snd (kekule calc_hybridization calc_implicit fuel mol)))
     = length (_heap mol).
Proof.
  unfold kekule.
  destruct (first (Full.kekule_full fuel mol)) as [form| |e|]; cbn [snd]; auto.
  destruct form as [|t form]; cbn [snd]; auto.
  destruct (kekule_patch calc_hybridization calc_implicit mol (t :: form))
    as [[u|e] mol'] eqn:E; cbn [snd]; eapply kekule_patch_frame, E.
Qed.

(** X6.  When [kekule] returns [True], the molecule it leaves is the first
    copy that [enumerate_kekule] yields for the molecule it was given. *)
Theorem kekule_is_first_enumerated (fuel : nat) (mol mol' : Molecule) :
  kekule calc_hybridization calc_implicit fuel mol = (Returned true, mol') ->
  first (enumerate_kekule calc_hybridization calc_implicit fuel mol) = FirstValue mol'.
Proof.
  unfold kekule, enumerate_kekule.
  destruct (Full.kekule_full fuel mol) as [form rest| |e|]; cbn [first patched_copies];
    try discriminate.
  destruct form as [|t form]; [discriminate|].
  destruct (kekule_patch calc_hybridization calc_implicit mol (t :: form))
    as [[u|e] mol1]; [|discriminate].
  intros H. injection H as <-. reflexivity.
Qed.

End PatchFacts.

Lemma kekule_is_first_enumerated_witness :
  first (enumerate_kekule sp2_mark one_hydrogen 20 thiophene)
  = FirstValue (snd (kekule sp2_mark one_hydrogen 20 thiophene)).
Proof.
  apply (kekule_is_first_enumerated sp2_mark one_hydrogen 20 thiophene).
  vm_compute. reflexivity.
Defined.

(** ** Writing and reading a bond order *)

(** The Bond object under [bonds[n][m]]. *)
Definition bond_ref (mol : Molecule) (n m : Z) : result nat :=
  mb <- Dict.item n (_bonds mol) ;;
  Dict.item m mb.

Lemma nth_error_heap_set heap o : forall b b',
  nth_error (heap_set heap b o) b'
  = if Nat.eqb b' b then (if Nat.ltb b (length heap) then Some o else None)
    else nth_error heap b'.
Proof.
  induction heap as [|x heap IH]; intros b b'.
  - cbn. destruct b'; destruct (Nat.eqb _ b); reflexivity.
  - destruct b as [|b]; destruct b' as [|b']; cbn [heap_set nth_error Nat.eqb];
      try reflexivity.
    rewrite IH. cbn [length].
    change (S b <? S (length heap))%nat with (b <? length heap)%nat. reflexivity.
Qed.

(** X7.  Setting the order of the bond between [n] and [m], as the patcher
    does, is seen by every pair of atoms that holds the same Bond object,
    the pair [(m, n)] of a well-built molecule included, and by no other
    pair. *)
Theorem set_order_then_bond_order (mol : Molecule) (n m o : Z) (b : nat) :
  bond_ref mol n m = Ok b ->
  (b < length (_heap mol))%nat ->
  exists mol',
    set_order mol n m o = Ok mol'
    /\ forall x y b',
         bond_ref mol x y = Ok b' ->
         bond_order mol' x y = if Nat.eqb b' b then Ok o else bond_order mol x y.
Proof.
  unfold bond_ref, set_order, bond_order. intros Hb Hlt.
  destruct (Dict.item n (_bonds mol)) as [mb|e]; cbn [bind] in *; [|discriminate].
  rewrite Hb. cbn [bind]. eexists. split; [reflexivity|].
  intros x y b' Hb'. cbn [_bonds _heap with_heap].
  destruct (Dict.item x (_bonds mol)) as [mb'|e]; cbn [bind] in *; [|discriminate].
  rewrite Hb'. cbn [bind]. unfold heap_order. rewrite nth_error_heap_set.
  apply Nat.ltb_lt in Hlt. rewrite Hlt.
  destruct (Nat.eqb b' b); reflexivity.
Qed.

Lemma set_order_then_bond_order_witness :
  exists mol',
    set_order thiophene 1 2 2 = Ok mol'
    /\ forall x y b',
         bond_ref thiophene x y = Ok b' ->
         bond_order mol' x y
         = if Nat.eqb b' 0 then Ok 2 else bond_order thiophene x y.
Proof.
  apply (set_order_then_bond_order thiophene 1 2 2 0).
  - reflexivity.
  - vm_compute. lia.
Defined.

(** ** What the first scan of the classifier collects *)

(** Some bond in [mb] has order [o]. *)
Definition seen (heap : list Z) (mb : Dict.t nat) (o : Z) : Prop :=
  exists m b, In (m, b) mb /\ nth_error heap b = Some o.

(** Some bond of the atom [n] has order [o]. *)
Definition has_order (mol : Molecule) (n o : Z) : Prop :=
  exists mb, In (n, mb) (_bonds mol) /\ seen (_heap mol) mb o.

Lemma in_keys_dd_add x n m (r : Dict.t PySet.t) :
  In x (Dict.keys (dd_add n m r)) <-> In x (Dict.keys r) \/ x = n.
Proof. unfold dd_add. apply in_keys_set. Qed.

Lemma scan_bond_collects heap n rings db tb m b rings' db' tb' :
  Prepare.scan_bond heap n (rings, db, tb) (m, b) = Ok (rings', db', tb') ->
  exists o,
    nth_error heap b = Some o
    /\ (forall x, In x (Dict.keys rings') <-> In x (Dict.keys rings) \/ (x = n /\ o = 4))
    /\ (forall x, In x db' <-> In x db \/ (x = n /\ o = 2))
    /\ (forall x, In x tb' <-> In x tb \/ (x = n /\ o = 3)).
Proof.
  unfold Prepare.scan_bond, heap_order.
  destruct (nth_error heap b) as [o|]; cbn [bind]; [|discriminate].
  intros H. exists o. split; [reflexivity|].
  destruct (Z.eqb_spec o 4) as [E4|H4].
  { injection H as <- <- <-. repeat split; intros; rewrite ?in_keys_dd_add in *;
      intuition congruence. }
  destruct (Z.eqb_spec o 2) as [E2|H2].
  { injection H as <- <- <-. repeat split; intros; rewrite ?in_set_add in *;
      intuition congruence. }
  destruct (Z.eqb_spec o 3) as [E3|H3].
  { injection H as <- <- <-. repeat split; intros; rewrite ?in_set_add in *;
      intuition congruence. }
  injection H as <- <- <-. repeat split; intros; intuition congruence.
Qed.

Lemma scan_bonds_collect heap n mb : forall rings db tb rings' db' tb',
  for_each (Prepare.scan_bond heap n) mb (rings, db, tb) = Ok (rings', db', tb') ->
  (forall m b, In (m, b) mb -> exists o, nth_error heap b = Some o)
  /\ (forall x, In x (Dict.keys rings')
                <-> In x (Dict.keys rings) \/ (x = n /\ seen heap mb 4))
  /\ (forall x, In x db' <-> In x db \/ (x = n /\ seen heap mb 2))
  /\ (forall x, In x tb' <-> In x tb \/ (x = n /\ seen heap mb 3)).
Proof.
  induction mb as [|[m b] mb IH]; intros rings db tb rings' db' tb'; cbn [for_each].
  - intros H. injection H as <- <- <-. unfold seen.
    repeat split; try tauto; intros; cbn in *; try tauto; firstorder.
  - destruct (Prepare.scan_bond heap n (rings, db, tb) (m, b)) as [[[r1 d1] t1]|e] eqn:E;
      cbn [bind]; [|discriminate].
    intros H. destruct (scan_bond_collects _ _ _ _ _ _ _ _ _ _ E) as (o & Ho & K1 & D1 & T1).
    destruct (IH _ _ _ _ _ _ H) as (V & K & D & T).
    assert (S : forall o', seen heap ((m, b) :: mb) o' <-> o = o' \/ seen heap mb o').
    { intros o'. unfold seen. split.
      - intros (m' & b' & [Hin|Hin] & Hn).
        + injection Hin as <- <-. left. congruence.
        + right. eauto.
      - intros [->|(m' & b' & Hin & Hn)].
        + exists m, b. split; [left; reflexivity|assumption].
        + exists m', b'. split; [right; assumption|assumption]. }
    split; [|split; [|split]].
    + intros m' b' [Hin|Hin]; [injection Hin as <- <-; eauto|eapply V, Hin].
    + intros x. rewrite K, K1, S. intuition congruence.
    + intros x. rewrite D, D1, S. intuition congruence.
    + intros x. rewrite T, T1, S. intuition congruence.
Qed.

Lemma scan_atoms_collect heap bonds : forall rings db tb rings' db' tb',
  for_each (Prepare.scan_atom heap) bonds (rings, db, tb) = Ok (rings', db', tb') ->
  (forall n mb m b, In (n, mb) bonds -> In (m, b) mb ->
                    exists o, nth_error heap b = Some o)
  /\ (forall x, In x (Dict.keys rings')
                <-> In x (Dict.keys rings)
                    \/ exists mb, In (x, mb) bonds /\ seen heap mb 4)
  /\ (forall x, In x db' <-> In x db \/ exists mb, In (x, mb) bonds /\ seen heap mb 2)
  /\ (forall x, In x tb' <-> In x tb \/ exists mb, In (x, mb) bonds /\ seen heap mb 3).
Proof.
  induction bonds as [|[n mb] bonds IH]; intros rings db tb rings' db' tb'; cbn [for_each].
  - intros H. injection H as <- <- <-.
    repeat split; try tauto; intros; cbn in *; try tauto; firstorder.
  - destruct (Prepare.scan_atom heap (rings, db, tb) (n, mb)) as [[[r1 d1] t1]|e] eqn:E;
      cbn [bind]; [|discriminate].
    intros H. unfold Prepare.scan_atom in E. cbn [fst snd] in E.
    destruct (scan_bonds_collect _ _ _ _ _ _ _ _ _ E) as (V1 & K1 & D1 & T1).
    destruct (IH _ _ _ _ _ _ H) as (V & K & D & T).
    assert (S : forall x o,
               (exists mb', In (x, mb') ((n, mb) :: bonds) /\ seen heap mb' o)
               <-> (x = n /\ seen heap mb o)
                   \/ exists mb', In (x, mb') bonds /\ seen heap mb' o).
    { intros x o. split.
      - intros (mb' & [Hin|Hin] & Hs).
        + injection Hin as <- <-. left. auto.
        + right. eauto.
      - intros [[-> Hs]|(mb' & Hin & Hs)].
        + exists mb. split; [left; reflexivity|assumption].
        + exists mb'. split; [right; assumption|assumption]. }
    split; [|split; [|split]].
    + intros n' mb' m b [Hin|Hin] Hb.
      * injection Hin as <- <-. eapply V1, Hb.
      * eapply V; eassumption.
    + intros x. rewrite K, K1, S. tauto.
    + intros x. rewrite D, D1, S. tauto.
    + intros x. rewrite T, T1, S. tauto.
Qed.

(** What [scan] returns: the atoms with an aromatic bond are the keys of
    the skeleton, and the atoms with a double or a triple bond fill the two
    sets; every Bond object it met exists. *)
Lemma scan_collects mol rings db tb :
  Prepare.scan mol = Ok (rings, db, tb) ->
  (forall n mb m b, In (n, mb) (_bonds mol) -> In (m, b) mb ->
                    exists o, nth_error (_heap mol) b = Some o)
  /\ (forall x, In x (Dict.keys rings) <-> has_order mol x 4)
  /\ (forall x, In x db <-> has_order mol x 2)
  /\ (forall x, In x tb <-> has_order mol x 3).
Proof.
  unfold Prepare.scan. intros H.
  destruct (scan_atoms_collect _ _ _ _ _ _ _ _ H) as (V & K & D & T).
  unfold has_order. split; [exact V|].
  split; [|split]; intros x; [rewrite K|rewrite D|rewrite T]; cbn; tauto.
Qed.

(** Every Bond object named by the adjacency maps exists. *)
Definition valid_refs (mol : Molecule) : bool :=
  forallb
    (fun nmb : Z * Dict.t nat =>
       forallb (fun mb : Z * nat => (snd mb <? length (_heap mol))%nat) (snd nmb))
    (_bonds mol).

Lemma scan_bonds_total heap n mb : forall st,
  forallb (fun x : Z * nat => (snd x <? length heap)%nat) mb = true ->
  exists st', for_each (Prepare.scan_bond heap n) mb st = Ok st'.
Proof.
  induction mb as [|[m b] mb IH]; intros st; cbn [for_each forallb snd].
  - eauto.
  - intros H. apply andb_true_iff in H as [Hb Hmb].
    apply Nat.ltb_lt, nth_error_Some in Hb.
    destruct st as [[rings db] tb]. unfold Prepare.scan_bond at 1, heap_order.
    destruct (nth_error heap b) as [o|]; [|congruence]. cbn [bind].
    destruct (o =? 4); [apply IH, Hmb|].
    destruct (o =? 2); [apply IH, Hmb|].
    destruct (o =? 3); apply IH, Hmb.
Qed.

Lemma scan_total mol :
  valid_refs mol = true -> exists st, Prepare.scan mol = Ok st.
Proof.
  unfold valid_refs, Prepare.scan. generalize (([], [], []) : Prepare.scan_state).
  induction (_bonds mol) as [|[n mb] bonds IH]; intros st; cbn [for_each forallb snd].
  - eauto.
  - intros H. apply andb_true_iff in H as [Hmb Hrest].
    unfold Prepare.scan_atom at 1. cbn [fst snd].
    destruct (scan_bonds_total (_heap mol) n mb st Hmb) as [st' E].
    rewrite E. cbn [bind]. apply IH, Hrest.
Qed.

Lemma bond_order_has_order mol n m o :
  bond_order mol n m = Ok o -> has_order mol n o.
Proof.
  unfold bond_order, Dict.item, heap_order.
  destruct (Dict.get n (_bonds mol)) as [mb|] eqn:En; cbn [bind]; [|discriminate].
  destruct (Dict.get m mb) as [b|] eqn:Em; cbn [bind]; [|discriminate].
  destruct (nth_error (_heap mol) b) as [o'|] eqn:Eb; [|discriminate].
  intros H. injection H as <-.
  exists mb. split; [apply get_in, En|]. exists m, b. split; [apply get_in, Em|assumption].
Qed.

Lemma isdisjoint_common x a b :
  In x a -> In x b -> PySet.isdisjoint a b = false.
Proof.
  intros Ha Hb. unfold PySet.isdisjoint. apply not_true_is_false. intros H.
  rewrite forallb_forall in H. specialize (H x Ha).
  apply negb_true_iff, set_mem_false in H. contradiction.
Qed.

(** X8.  In a molecule whose Bond objects all exist, an atom that has both
    an aromatic bond and a triple bond makes the classifier raise the
    invalid-aromatic-ring error; [kekule] then raises it too and leaves the
    molecule alone, and both forms of [check_thiele] answer [False]. *)
Theorem triple_bond_on_ring_is_rejected
        (calc_hybridization : Molecule -> Z -> Z)
        (calc_implicit : Molecule -> Z -> option Z)
        (fuel : nat) (mol : Molecule) (n m m' : Z) :
  valid_refs mol = true ->
  bond_order mol n m = Ok 4 ->
  bond_order mol n m' = Ok 3 ->
  Prepare.prepare_rings mol = Raise InvalidAromaticRing
  /\ kekule calc_hybridization calc_implicit fuel mol = (Raised InvalidAromaticRing, mol)
  /\ check_thiele true fuel mol = Returned false
  /\ check_thiele false fuel mol = Returned false.
Proof.
  intros Hv H4 H3.
  assert (E : Prepare.prepare_rings mol = Raise InvalidAromaticRing).
  { destruct (scan_total mol Hv) as [[[rings db] tb] Es].
    destruct (scan_collects mol rings db tb Es) as (_ & K & _ & T).
    apply bond_order_has_order in H4, H3. apply K in H4. apply T in H3.
    unfold Prepare.prepare_rings. rewrite Es. cbn [bind].
    destruct rings as [|kv rings]; [destruct H4|].
    rewrite (isdisjoint_common n tb _ H3 H4). reflexivity. }
  split; [exact E|].
  unfold kekule, check_thiele, Full.kekule_full. rewrite E. cbn [first]. auto.
Qed.

Lemma triple_bond_on_ring_is_rejected_witness :
  Prepare.prepare_rings ring_with_triple_bond = Raise InvalidAromaticRing
  /\ kekule sp2_mark one_hydrogen 20 ring_with_triple_bond
     = (Raised InvalidAromaticRing, ring_with_triple_bond)
  /\ check_thiele true 20 ring_with_triple_bond = Returned false
  /\ check_thiele false 20 ring_with_triple_bond = Returned false.
Proof.
  apply (triple_bond_on_ring_is_rejected sp2_mark one_hydrogen 20
           ring_with_triple_bond 1 2 7); reflexivity.
Defined.

(** ** What the classifier guarantees when it returns *)

(** The steps behind a successful [__prepare_rings]. *)
Lemma prepare_rings_ok mol rings py db :
  Prepare.prepare_rings mol = Ok (rings, py, db) ->
  exists rings0 db0 tb0,
    Prepare.scan mol = Ok (rings0, db0, tb0)
    /\ ((rings0 = [] /\ rings = [] /\ py = [] /\ db = [])
        \/ (rings0 <> []
            /\ PySet.isdisjoint tb0 (Dict.keys rings0) = true
            /\ for_each Prepare.add_ring (sssr mol) rings0 = Ok rings
            /\ existsb Prepare.bad_degree (Dict.values rings) = false
            /\ existsb (fun n => negb (length (dd_get n rings) =? 2)%nat)
                       (PySet.inter db0 (Dict.keys rings)) = false
            /\ Prepare.any_bad_quinone mol (PySet.inter db0 (Dict.keys rings)) = Ok false
            /\ for_each (Prepare.classify_atom mol) (Dict.keys rings)
                        ([], PySet.inter db0 (Dict.keys rings))
               = Ok (py, db))).
Proof.
  unfold Prepare.prepare_rings.
  destruct (Prepare.scan mol) as [[[rings0 db0] tb0]|e]; cbn [bind]; [|discriminate].
  intros H. exists rings0, db0, tb0. split; [reflexivity|].
  destruct rings0 as [|kv rings0].
  - injection H as <- <- <-. left. auto.
  - right. split; [discriminate|].
    destruct (PySet.isdisjoint tb0 (Dict.keys (kv :: rings0))); cbn [negb] in H;
      [|discriminate].
    split; [reflexivity|].
    destruct (for_each Prepare.add_ring (sssr mol) (kv :: rings0)) as [rings1|e];
      cbn [bind] in H; [|discriminate].
    destruct (existsb Prepare.bad_degree (Dict.values rings1)) eqn:E1; [discriminate|].
    destruct (existsb _ (PySet.inter db0 (Dict.keys rings1))) eqn:E2; [discriminate|].
    destruct (Prepare.any_bad_quinone mol (PySet.inter db0 (Dict.keys rings1)))
      as [[|]|e] eqn:E3; cbn [bind] in H; try discriminate.
    destruct (for_each (Prepare.classify_atom mol) (Dict.keys rings1)
                       ([], PySet.inter db0 (Dict.keys rings1)))
      as [[py1 db1]|e] eqn:E4; cbn [bind] in H; [|discriminate].
    injection H as <- <- <-. repeat split; assumption.
Qed.

(** X9.  Whenever the classifier returns, every atom of the skeleton it
    returns has two or three neighbours in it. *)
Theorem prepared_skeleton_degrees (mol : Molecule) (rings : Dict.t PySet.t)
        (py db : PySet.t) (n : Z) (ms : PySet.t) :
  Prepare.prepare_rings mol = Ok (rings, py, db) ->
  In (n, ms) rings ->
  length ms = 2%nat \/ length ms = 3%nat.
Proof.
  intros H Hin.
  destruct (prepare_rings_ok mol rings py db H) as (rings0 & db0 & tb0 & _ & [C|C]).
  - destruct C as (_ & -> & _). destruct Hin.
  - destruct C as (_ & _ & _ & Hdeg & _).
    assert (Hb : Prepare.bad_degree ms = false).
    { destruct (Prepare.bad_degree ms) eqn:E; [|reflexivity].
      rewrite <- Hdeg. symmetry. apply existsb_exists. exists ms. split; [|assumption].
      unfold Dict.values. change ms with (snd (n, ms)). apply in_map, Hin. }
    unfold Prepare.bad_degree in Hb. apply negb_false_iff, orb_true_iff in Hb.
    destruct Hb as [Hb|Hb]; apply Nat.eqb_eq in Hb; auto.
Qed.

Lemma prepared_skeleton_degrees_witness :
  length [2; 5] = 2%nat \/ length [2; 5] = 3%nat.
Proof.
  apply (prepared_skeleton_degrees thiophene
           [(1, [2; 5]); (2, [1; 3]); (3, [2; 4]); (4, [3; 5]); (5, [4; 1])]
           [] [1] 1 [2; 5]).
  - reflexivity.
  - left. reflexivity.
Defined.

(** The elements the classifier knows: B, C, N, O, P, S, Se, Te. *)
Definition ring_element (an : Z) : bool :=
  (an =? 5) || (an =? 6) || (an =? 7) || (an =? 8) || (an =? 15)
  || (an =? 16) || (an =? 34) || (an =? 52).

(** The role sets grow by the atom under classification and by nothing
    else. *)
Definition grows_by (n : Z) (r r' : Prepare.roles) : Prop :=
  (forall x, In x (fst r') <-> In x (fst r) \/ (x = n /\ In n (fst r')))
  /\ (forall x, In x (snd r') <-> In x (snd r) \/ (x = n /\ In n (snd r'))).

Lemma grows_by_refl n r : grows_by n r r.
Proof. split; intros x; intuition congruence. Qed.

Lemma grows_by_double n r : grows_by n r (Prepare.add_double n r).
Proof.
  unfold Prepare.add_double. split; intros x; cbn [fst snd]; rewrite ?in_set_add;
    intuition congruence.
Qed.

Lemma grows_by_pyrole n r : grows_by n r (Prepare.add_pyrole n r).
Proof.
  unfold Prepare.add_pyrole. split; intros x; cbn [fst snd]; rewrite ?in_set_add;
    intuition congruence.
Qed.

Lemma grows_by_double_twice n r :
  grows_by n r (Prepare.add_double n (Prepare.add_double n r)).
Proof.
  unfold Prepare.add_double. split; intros x; cbn [fst snd]; rewrite ?in_set_add;
    intuition congruence.
Qed.

Ltac classify_cases H :=
  unfold Prepare.invalid in H;
  repeat match type of H with
         | Ok _ = Ok _ => injection H as <-
         | Raise _ = Ok _ => discriminate H
         | bind (if ?c then _ else _) _ = Ok _ => destruct c; cbn [bind] in H
         | bind (Ok _) _ = Ok _ => cbn [bind] in H
         | bind (Raise _) _ = Ok _ => discriminate H
         | bind ?c _ = Ok _ => destruct c as [?|?]; cbn [bind] in H
         | (if ?c then _ else _) = Ok _ => destruct c
         | match ?c with Some _ => _ | None => _ end = Ok _ => destruct c
         end;
  auto using grows_by_refl, grows_by_double, grows_by_pyrole, grows_by_double_twice.

Lemma classify_atom_grows mol r n r' :
  Prepare.classify_atom mol r n = Ok r' ->
  grows_by n r r'
  /\ exists an, Dict.get n (_atoms mol) = Some an /\ ring_element an = true.
Proof.
  unfold Prepare.classify_atom. unfold Dict.item at 1.
  destruct (Dict.get n (_atoms mol)) as [an|]; cbn [bind]; [|discriminate].
  destruct (Dict.item n (_charges mol)) as [ac|]; cbn [bind]; [|discriminate].
  destruct (Dict.item n (_bonds mol)) as [mb|]; cbn [bind]; [|discriminate].
  assert (El : forall k, (an =? k) = true -> ring_element k = true ->
                         exists an', Some an = Some an' /\ ring_element an' = true).
  { intros k Hk Hr. apply Z.eqb_eq in Hk. subst. eauto. }
  destruct (an =? 6) eqn:E6.
  { intros H. split; [|apply (El 6); auto].
    unfold Prepare.carbon in H. classify_cases H. }
  destruct ((an =? 7) || (an =? 15)) eqn:E7.
  { intros H. split.
    - unfold Prepare.pnictogen in H. classify_cases H.
    - apply orb_true_iff in E7 as [E|E]; [apply (El 7)|apply (El 15)]; auto. }
  destruct (an =? 8) eqn:E8.
  { intros H. split; [|apply (El 8); auto].
    unfold Prepare.oxygen in H. classify_cases H. }
  destruct ((an =? 16) || (an =? 34) || (an =? 52)) eqn:E16.
  { intros H. split.
    - unfold Prepare.chalcogen in H. classify_cases H.
    - apply orb_true_iff in E16 as [E|E]; [|apply (El 52); auto].
      apply orb_true_iff in E as [E|E]; [apply (El 16)|apply (El 34)]; auto. }
  destruct (an =? 5) eqn:E5; [|discriminate].
  intros H. split; [|apply (El 5); auto].
  unfold Prepare.boron in H. classify_cases H.
Qed.

Lemma classify_all_grow mol ns : forall r r',
  for_each (Prepare.classify_atom mol) ns r = Ok r' ->
  (forall x, In x (fst r') -> In x (fst r) \/ In x ns)
  /\ (forall x, In x (snd r') -> In x (snd r) \/ In x ns)
  /\ (forall x, In x (snd r) -> In x (snd r'))
  /\ (forall n, In n ns ->
                exists an, Dict.get n (_atoms mol) = Some an /\ ring_element an = true).
Proof.
  induction ns as [|n ns IH]; intros r r'; cbn [for_each].
  - intros H. injection H as <-. repeat split; auto. intros n [].
  - destruct (Prepare.classify_atom mol r n) as [r1|e] eqn:E; cbn [bind]; [|discriminate].
    intros H. destruct (classify_atom_grows mol r n r1 E) as [[G1 G2] Hel].
    destruct (IH r1 r' H) as (F & S & M & A).
    split; [|split; [|split]].
    + intros x Hx. destruct (F x Hx) as [Hx'|Hx']; [|right; right; assumption].
      apply G1 in Hx' as [Hx'|[-> _]]; [auto|right; left; reflexivity].
    + intros x Hx. destruct (S x Hx) as [Hx'|Hx']; [|right; right; assumption].
      apply G2 in Hx' as [Hx'|[-> _]]; [auto|right; left; reflexivity].
    + intros x Hx. apply M, G2. auto.
    + intros x [<-|Hx]; [assumption|apply A, Hx].
Qed.

(** X10.  Whenever the classifier returns, the pyrrole-like and the
    double-bonded atoms are atoms of the skeleton, and every atom of the
    skeleton is one of B, C, N, O, P, S, Se, Te. *)
Theorem prepared_roles_and_elements (mol : Molecule) (rings : Dict.t PySet.t)
        (py db : PySet.t) :
  Prepare.prepare_rings mol = Ok (rings, py, db) ->
  (forall n, In n py \/ In n db -> In n (Dict.keys rings))
  /\ (forall n, In n (Dict.keys rings) ->
                exists an, Dict.get n (_atoms mol) = Some an /\ ring_element an = true).
Proof.
  intros H.
  destruct (prepare_rings_ok mol rings py db H) as (rings0 & db0 & tb0 & _ & [C|C]).
  - destruct C as (_ & -> & -> & ->). split; [intros n [[]|[]]|intros n []].
  - destruct C as (_ & _ & _ & _ & _ & _ & Hc).
    destruct (classify_all_grow mol _ _ _ Hc) as (F & S & _ & A).
    cbn [fst snd] in *. split; [|exact A].
    intros n [Hn|Hn].
    + destruct (F n Hn) as [[]|]; assumption.
    + destruct (S n Hn) as [Hi|]; [|assumption].
      unfold PySet.inter in Hi. apply filter_In in Hi as [_ Hi].
      apply set_mem_true in Hi. assumption.
Qed.

Lemma prepared_roles_and_elements_witness :
  (forall n, In n [] \/ In n [1] ->
             In n (Dict.keys [(1, [2; 5]); (2, [1; 3]); (3, [2; 4]); (4, [3; 5]);
                              (5, [4; 1])]))
  /\ (forall n,
        In n (Dict.keys [(1, [2; 5]); (2, [1; 3]); (3, [2; 4]); (4, [3; 5]); (5, [4; 1])]) ->
        exists an, Dict.get n (_atoms thiophene) = Some an /\ ring_element an = true).
Proof.
  apply (prepared_roles_and_elements thiophene). reflexivity.
Defined.

Lemma any_bad_quinone_false mol l :
  Prepare.any_bad_quinone mol l = Ok false ->
  forall n, In n l ->
            Dict.get n (_charges mol) = Some 0
            /\ exists an,
                 Dict.get n (_atoms mol) = Some an
                 /\ ((an =? 6) || (an =? 15) || (an =? 16) || (an =? 34) || (an =? 52))
                    = true.
Proof.
  induction l as [|a l IH]; cbn [Prepare.any_bad_quinone]; [intros _ n []|].
  unfold Dict.item.
  destruct (Dict.get a (_atoms mol)) as [an|] eqn:Ea; cbn [bind]; [|discriminate].
  destruct ((an =? 6) || (an =? 15) || (an =? 16) || (an =? 34) || (an =? 52)) eqn:El;
    cbn [negb]; [|discriminate].
  destruct (Dict.get a (_charges mol)) as [ac|] eqn:Ec; cbn [bind]; [|discriminate].
  destruct (Z.eqb_spec ac 0) as [->|Hne]; cbn [negb]; [|discriminate].
  intros H n [<-|Hn]; [eauto|apply IH; assumption].
Qed.

(** X11.  Whenever the classifier returns, a skeleton atom that has a
    double bond is in the double-bonded set, has exactly two neighbours in
    the skeleton, is neutral, and is C, P, S, Se or Te. *)
Theorem prepared_quinone_atoms (mol : Molecule) (rings : Dict.t PySet.t)
        (py db : PySet.t) (n : Z) :
  Prepare.prepare_rings mol = Ok (rings, py, db) ->
  In n (Dict.keys rings) ->
  has_order mol n 2 ->
  In n db
  /\ length (dd_get n rings) = 2%nat
  /\ Dict.get n (_charges mol) = Some 0
  /\ exists an,
       Dict.get n (_atoms mol) = Some an
       /\ ((an =? 6) || (an =? 15) || (an =? 16) || (an =? 34) || (an =? 52)) = true.
Proof.
  intros H Hk H2.
  destruct (prepare_rings_ok mol rings py db H) as (rings0 & db0 & tb0 & Es & [C|C]).
  - destruct C as (_ & -> & _). destruct Hk.
  - destruct C as (_ & _ & _ & _ & Hq & Hb & Hc).
    destruct (scan_collects mol rings0 db0 tb0 Es) as (_ & _ & D & _).
    assert (Hi : In n (PySet.inter db0 (Dict.keys rings))).
    { unfold PySet.inter. apply filter_In. split; [apply D, H2|].
      apply set_mem_true. assumption. }
    destruct (classify_all_grow mol _ _ _ Hc) as (_ & _ & M & _). cbn [snd] in M.
    split; [apply M, Hi|]. split.
    + destruct (Nat.eqb_spec (length (dd_get n rings)) 2) as [E|E]; [assumption|].
      exfalso. rewrite <- not_true_iff_false in Hq. apply Hq.
      apply existsb_exists. exists n. split; [assumption|].
      apply negb_true_iff, Nat.eqb_neq. assumption.
    + apply (any_bad_quinone_false mol _ Hb n Hi).
Qed.

(** para-Benzoquinone drawn with an aromatic ring: carbons 1 and 4 carry
    the oxygens 7 and 8. *)
Definition quinone_ring : Molecule :=
  Build.molecule
    [Build.C 1; Build.C 2; Build.C 3; Build.C 4; Build.C 5; Build.C 6;
     (7, 8, 0, false, Some 0); (8, 8, 0, false, Some 0)]
    [(1, 2, 4); (2, 3, 4); (3, 4, 4); (4, 5, 4); (5, 6, 4); (1, 6, 4);
     (1, 7, 2); (4, 8, 2)]
    [[1; 2; 3; 4; 5; 6]].

Lemma prepared_quinone_atoms_witness :
  In 1 [1; 4]
  /\ length (dd_get 1 [(1, [2; 6]); (2, [1; 3]); (3, [2; 4]); (4, [3; 5]); (5, [4; 6]);
                       (6, [5; 1])]) = 2%nat
  /\ Dict.get 1 (_charges quinone_ring) = Some 0
  /\ exists an,
       Dict.get 1 (_atoms quinone_ring) = Some an
       /\ ((an =? 6) || (an =? 15) || (an =? 16) || (an =? 34) || (an =? 52)) = true.
Proof.
  apply (prepared_quinone_atoms quinone_ring _ []).
  - vm_compute. reflexivity.
  - vm_compute. auto.
  - apply (bond_order_has_order quinone_ring 1 7). reflexivity.
Defined.

(** ** When [kekule] returns [False] *)

Lemma set_nonempty {V} k (v : V) d : Dict.set k v d <> [].
Proof. destruct d as [|[k0 v0] d]; cbn; [discriminate|]. destruct (k0 =? k); discriminate. Qed.

Lemma add_rings_nonempty rs : forall rings rings',
  rings <> [] -> for_each Prepare.add_ring rs rings = Ok rings' -> rings' <> [].
Proof.
  induction rs as [|r rs IH]; intros rings rings' Hne; cbn [for_each].
  - intros H. injection H as <-. assumption.
  - destruct (Prepare.add_ring rings r) as [r1|e] eqn:E; cbn [bind]; [|discriminate].
    apply IH. unfold Prepare.add_ring in E.
    destruct (PySet.issubset _ _); [|injection E as <-; assumption].
    destruct r as [|n [|x tl]]; try discriminate. injection E as <-.
    assert (C : forall a b (d : Dict.t PySet.t), d <> [] -> Prepare.close_edge a b d <> []).
    { intros a b d Hd. unfold Prepare.close_edge. destruct (PySet.mem _ _); [assumption|].
      apply set_nonempty. }
    assert (G : forall pairs d, d <> [] ->
                  fold_left (fun rg nm => Prepare.close_edge (fst nm) (snd nm) rg)
                            pairs d <> []).
    { induction pairs as [|[a b] pairs IHp]; intros d Hd; cbn [fold_left]; [assumption|].
      apply IHp, C, Hd. }
    apply G. repeat apply C. assumption.
Qed.

Lemma of_list_cons x l : exists y s, PySet.of_list (x :: l) = y :: s /\ In y (x :: l).
Proof.
  unfold PySet.of_list. cbn [fold_left]. change (PySet.add x []) with [x].
  assert (G : forall l' y s, (forall z, In z (y :: s) -> In z (x :: l) ) ->
                (forall z, In z l' -> In z (x :: l)) ->
                exists y' s', fold_left (fun s0 x0 => PySet.add x0 s0) l' (y :: s) = y' :: s'
                              /\ In y' (x :: l)).
  { induction l' as [|a l' IH]; intros y s Hy Hl; cbn [fold_left].
    - exists y, s. split; [reflexivity|]. apply Hy. left. reflexivity.
    - unfold PySet.add at 2. destruct (PySet.mem a (y :: s)).
      + apply IH; [assumption|]. intros z Hz. apply Hl. right. assumption.
      + cbn [app]. apply IH.
        * intros z [<-|Hz]; [apply Hy; left; reflexivity|].
          apply in_app_or in Hz as [Hz|[<-|[]]]; [apply Hy; right; assumption|].
          apply Hl. left. reflexivity.
        * intros z Hz. apply Hl. right. assumption. }
  apply G.
  - intros z [<-|[]]. left. reflexivity.
  - intros z Hz. right. assumption.
Qed.

Lemma visit_head rings s ms c q n :
  exists q' c', Full.visit rings (q, (s, ms) :: c) n = (q', (s, ms) :: c').
Proof.
  unfold Full.visit. cbn [fst snd].
  destruct (Dict.mem n ((s, ms) :: c)) eqn:E; [eauto|].
  unfold Dict.mem in E. cbn [Dict.get Dict.set] in *.
  destruct (s =? n); [discriminate|]. eauto.
Qed.

Lemma visits_head rings s ms l : forall q c,
  exists q' c', fold_left (Full.visit rings) l (q, (s, ms) :: c) = (q', (s, ms) :: c').
Proof.
  induction l as [|n l IH]; intros q c; cbn [fold_left]; [eauto|].
  destruct (visit_head rings s ms c q n) as (q1 & c1 & ->). apply IH.
Qed.

Lemma walk_head rings s ms fuel : forall q c comp,
  Full.walk fuel rings q ((s, ms) :: c) = Some comp ->
  exists c', comp = (s, ms) :: c'.
Proof.
  induction fuel as [|fuel IH]; intros q c comp; cbn [Full.walk]; [discriminate|].
  destruct q as [|current q].
  - intros H. injection H as <-. eauto.
  - destruct (visits_head rings s ms (dd_get current rings) q c) as (q1 & c1 & E).
    cbv zeta.
    match goal with
    | |- context [fold_left ?f ?l ?a] =>
        replace (fold_left f l a) with (q1, (s, ms) :: c1) by (symmetry; exact E)
    end.
    cbn [fst snd]. apply IH.
Qed.

(** What a generator does first is not to stop. *)
Definition starts {A} (g : gen A) : Prop := first g <> FirstStop.

Lemma lazy_product_starts {A} (gs : list (gen A)) :
  Forall starts gs -> starts (Full.lazy_product gs).
Proof.
  induction 1 as [|g gs Hg Hgs IH]; cbn [Full.lazy_product]; [discriminate|].
  unfold starts in *. destruct g as [a rest| |e|]; cbn [Full.gen_bind first] in *;
    try congruence.
  destruct (Full.lazy_product gs); cbn [Full.gen_map Full.gen_app first] in *;
    congruence.
Qed.

Lemma no_has_order_no_aromatic mol :
  (forall n mb m b, In (n, mb) (_bonds mol) -> In (m, b) mb ->
                    exists o, nth_error (_heap mol) b = Some o) ->
  (forall x, ~ has_order mol x 4) ->
  no_aromatic_bonds mol = true.
Proof.
  intros V H. unfold no_aromatic_bonds. apply forallb_forall. intros [n mb] Hn.
  apply forallb_forall. intros [m b] Hm. cbn [snd].
  destruct (V n mb m b Hn Hm) as [o Ho]. rewrite Ho.
  apply negb_true_iff, Z.eqb_neq. intros ->.
  apply (H n). exists mb. split; [assumption|]. exists m, b. auto.
Qed.

Lemma split_step f rings s atoms :
  Full.split (S f) rings (s :: atoms) =
  match Full.walk f rings [s] [(s, dd_get s rings)] with
  | None => None
  | Some component =>
      match Full.split f rings (PySet.difference atoms (Dict.keys component)) with
      | None => None
      | Some components => Some (component :: components)
      end
  end.
Proof. reflexivity. Qed.

Lemma kekule_forms_first_nonempty fuel (rings : Dict.t PySet.t) py db :
  rings <> [] ->
  (forall n (ms : PySet.t), In (n, ms) rings ->
                            length ms = 2%nat \/ length ms = 3%nat) ->
  match first (Full.kekule_forms fuel (rings, py, db)) with
  | FirstValue form => form <> []
  | FirstStop => False
  | _ => True
  end.
Proof.
  intros Hne Hdeg. unfold Full.kekule_forms, Full.components.
  assert (Hof : exists s atoms, PySet.of_list (Dict.keys rings) = s :: atoms
                                /\ In s (Dict.keys rings)).
  { destruct rings as [|[k0 v0] rings0]; [congruence|].
    apply (of_list_cons k0 (Dict.keys rings0)). }
  destruct Hof as (s & atoms & Hof & Hs). rewrite Hof.
  unfold Full.split_fuel. rewrite split_step.
  destruct (Full.walk _ rings [s] [(s, dd_get s rings)]) as [comp|] eqn:Ew; [|exact I].
  destruct (Full.split _ rings _) as [comps|]; [|exact I].
  destruct (walk_head _ _ _ _ _ _ _ Ew) as [c' ->].
  cbn [map Full.lazy_product].
  set (g := Component.kekule_component fuel ((s, dd_get s rings) :: c') _ _).
  assert (Hg : forall a, In a (yielded g) -> a <> []).
  { intros a Ha. apply PathFacts.yielded_paths_ok in Ha as [_ Hl].
    intros ->. cbn [length] in Hl. unfold Component.size_of in Hl.
    cbn [Dict.values map snd list_sum] in Hl.
    destruct (in_keys_get s rings Hs) as [ms Hms].
    assert (Hd : dd_get s rings = ms) by (unfold dd_get; rewrite Hms; reflexivity).
    rewrite Hd in Hl. specialize (Hdeg s ms (get_in _ _ _ Hms)).
    assert (Hge : (2 <= length ms + list_sum (map (fun ms0 : PySet.t => length ms0)
                                                  (map snd c')))%nat) by lia.
    pose proof (Nat.Div0.div_le_mono _ _ 2 Hge) as Hdiv.
    change (2 / 2)%nat with 1%nat in Hdiv. unfold Dict.values in Hl.
    cbn [map snd list_sum] in Hl.
    match type of Hl with
    | 0%nat = ?x => assert (Hx : (1 <= x)%nat) by exact Hdiv
    end.
    rewrite <- Hl in Hx. inversion Hx. }
  pose proof (EndFacts.kekule_component_never_stops_first
                fuel ((s, dd_get s rings) :: c')
                (PySet.inter db (Dict.keys ((s, dd_get s rings) :: c')))
                (PySet.inter py (Dict.keys ((s, dd_get s rings) :: c')))) as Hfirst.
  fold g in Hfirst.
  assert (Hrest : starts (Full.lazy_product
                            (map (fun c => Component.kekule_component fuel c
                                             (PySet.inter db (Dict.keys c))
                                             (PySet.inter py (Dict.keys c))) comps))).
  { apply lazy_product_starts. apply Forall_forall. intros g' Hg'.
    apply in_map_iff in Hg' as (c & <- & _).
    apply EndFacts.kekule_component_never_stops_first. }
  unfold starts in Hrest.
  destruct g as [a rest| |e|]; cbn [Full.gen_bind Full.gen_map first]; try exact I;
    [|apply Hfirst; reflexivity].
  destruct (Full.lazy_product _) as [t rest'| |e|];
    cbn [Full.gen_map Full.gen_app first] in *; try exact I;
    [|exfalso; apply Hrest; reflexivity].
  cbn [concat]. intros E. apply app_eq_nil in E as [E _].
  apply (Hg a); [left; reflexivity|assumption].
Qed.

Lemma degrees_of_not_bad (rings : Dict.t PySet.t) :
  existsb Prepare.bad_degree (Dict.values rings) = false ->
  forall n (ms : PySet.t), In (n, ms) rings ->
                           length ms = 2%nat \/ length ms = 3%nat.
Proof.
  intros Hdeg n ms Hin.
  assert (Hb : Prepare.bad_degree ms = false).
  { destruct (Prepare.bad_degree ms) eqn:E; [|reflexivity].
    rewrite <- Hdeg. symmetry. apply existsb_exists. exists ms. split; [|assumption].
    unfold Dict.values. change ms with (snd (n, ms)). apply in_map, Hin. }
  unfold Prepare.bad_degree in Hb. apply negb_false_iff, orb_true_iff in Hb.
  destruct Hb as [Hb|Hb]; apply Nat.eqb_eq in Hb; auto.
Qed.

(** With an aromatic bond in the molecule, the first thing the enumerator
    does is to yield a form that is not empty, or to raise. *)
Lemma kekule_full_first_nonempty fuel mol :
  no_aromatic_bonds mol = false ->
  match first (Full.kekule_full fuel mol) with
  | FirstValue form => form <> []
  | FirstStop => False
  | _ => True
  end.
Proof.
  intros Hno. unfold Full.kekule_full.
  destruct (Prepare.prepare_rings mol) as [[[rings py] db]|e] eqn:E; [|exact I].
  destruct (prepare_rings_ok mol rings py db E) as (rings0 & db0 & tb0 & Hscan & [C|C]).
  - destruct C as (-> & _).
    destruct (scan_collects mol [] db0 tb0 Hscan) as (V & K & _).
    rewrite (no_has_order_no_aromatic mol V) in Hno; [discriminate|].
    intros x Hx. apply K in Hx. destruct Hx.
  - destruct C as (Hne & _ & Hadd & Hdeg & _).
    apply kekule_forms_first_nonempty.
    + apply (add_rings_nonempty _ _ _ Hne Hadd).
    + apply degrees_of_not_bad, Hdeg.
Qed.

(** X13.  Whenever [kekule] returns, it returns [False] exactly on the
    molecules without a bond of order 4: with an aromatic bond it returns
    [True] or raises. *)
Theorem kekule_false_iff_no_aromatic_bonds
  (calc_hybridization : Molecule -> Z -> Z)
  (calc_implicit : Molecule -> Z -> option Z) (fuel : nat)
  (mol mol' : Molecule) (b : bool) :
  kekule calc_hybridization calc_implicit fuel mol = (Returned b, mol') ->
  (b = false <-> no_aromatic_bonds mol = true).
Proof.
  intros H. split.
  - intros ->. destruct (no_aromatic_bonds mol) eqn:Hno; [reflexivity|].
    pose proof (kekule_full_first_nonempty fuel mol Hno) as F.
    unfold kekule in H.
    destruct (first (Full.kekule_full fuel mol)) as [[|t form]| |e|];
      try discriminate; try contradiction.
    destruct (kekule_patch calc_hybridization calc_implicit mol (t :: form))
      as [[[]|e] m]; discriminate.
  - intros Hno. unfold kekule in H.
    rewrite (kekule_full_no_aromatic fuel mol Hno) in H. cbn [first] in H.
    injection H as <- _. reflexivity.
Qed.

Lemma kekule_false_iff_no_aromatic_bonds_witness :
  true = false <-> no_aromatic_bonds thiophene = true.
Proof.
  apply (kekule_false_iff_no_aromatic_bonds sp2_mark one_hydrogen 20 thiophene
           (snd (kekule sp2_mark one_hydrogen 20 thiophene)) true).
  vm_compute. reflexivity.
Defined.

(** ** What [thiele] takes into its skeleton, and what it writes *)

(** The atoms [thiele] lets into a ring: marked sp2, and B, C, N or P. *)
Definition aromatizable (mol : Molecule) (n : Z) : Prop :=
  Dict.get n (_hybridizations mol) = Some 2
  /\ exists an, Dict.get n (_atoms mol) = Some an
                /\ (an = 5 \/ an = 6 \/ an = 7 \/ an = 15).

Lemma all_sp2_true mol ring :
  Thiele.all_sp2 mol ring = Ok true -> forall n, In n ring -> aromatizable mol n.
Proof.
  induction ring as [|x ring IH]; cbn [Thiele.all_sp2]; [intros _ n []|].
  unfold Dict.item.
  destruct (Dict.get x (_hybridizations mol)) as [h|] eqn:Eh; cbn [bind];
    [|discriminate].
  destruct (Z.eqb_spec h 2) as [->|_]; [|discriminate].
  destruct (Dict.get x (_atoms mol)) as [an|] eqn:Ea; cbn [bind]; [|discriminate].
  destruct ((an =? 5) || (an =? 6) || (an =? 7) || (an =? 15)) eqn:El;
    [|discriminate].
  intros H n [<-|Hn]; [|apply IH; assumption].
  split; [assumption|]. exists an. split; [assumption|].
  repeat (apply orb_true_iff in El as [El|El]); apply Z.eqb_eq in El; auto.
Qed.

Lemma in_keys_link x n m r :
  In x (Dict.keys (Thiele.link n m r)) <-> In x (Dict.keys r) \/ x = n \/ x = m.
Proof. unfold Thiele.link. rewrite !in_keys_dd_add. tauto. Qed.

Lemma zip_next_in ring : forall a b,
  In (a, b) (Prepare.zip_next ring) -> In a ring /\ In b ring.
Proof.
  induction ring as [|n ring IH]; intros a b; cbn [Prepare.zip_next]; [intros []|].
  destruct ring as [|m ring]; [intros []|].
  intros [H|H].
  - injection H as <- <-. split; [left|right; left]; reflexivity.
  - destruct (IH a b H). split; right; assumption.
Qed.

Lemma in_keys_fold_link x pairs : forall r,
  In x (Dict.keys (fold_left (fun rg nm => Thiele.link (fst nm) (snd nm) rg) pairs r)) ->
  In x (Dict.keys r) \/ exists a b, In (a, b) pairs /\ (x = a \/ x = b).
Proof.
  induction pairs as [|[a b] pairs IH]; intros r; cbn [fold_left fst snd]; [auto|].
  intros H. apply IH in H as [H|(a' & b' & Hin & Hx)].
  - apply in_keys_link in H as [H|H]; [auto|].
    right. exists a, b. split; [left; reflexivity|assumption].
  - right. exists a', b'. split; [right; assumption|assumption].
Qed.

Lemma add_ring_keys mol r ring r' :
  Thiele.add_ring mol r ring = Ok r' ->
  forall x, In x (Dict.keys r') -> In x (Dict.keys r) \/ aromatizable mol x.
Proof.
  unfold Thiele.add_ring.
  destruct (Thiele.all_sp2 mol ring) as [[|]|e] eqn:E; cbn [bind]; try discriminate.
  - pose proof (all_sp2_true mol ring E) as Hall.
    destruct ring as [|n [|y tl]]; try discriminate.
    intros H x.
    assert (Er : r' = fold_left (fun rg nm => Thiele.link (fst nm) (snd nm) rg)
                                (Prepare.zip_next (n :: y :: tl))
                                (Thiele.link n (last (y :: tl) 0) r))
      by congruence.
    rewrite Er. clear H Er. intros Hx.
    apply in_keys_fold_link in Hx as [Hx|(a & b & Hin & Hx)].
    + apply (proj1 (in_keys_link _ _ _ _)) in Hx.
      destruct Hx as [Hx|[Hx|Hx]]; [left; exact Hx| |]; subst x.
      * right. apply Hall. left. reflexivity.
      * right. apply Hall. right.
        change (In (last (y :: tl) 0) (y :: tl)). apply last_in. discriminate.
    + apply zip_next_in in Hin as [Ha Hb].
      right. destruct Hx as [Hx|Hx]; subst x; apply Hall; assumption.
  - intros H x. injection H as <-. auto.
Qed.

(** X14.  Every atom of the skeleton [thiele] builds from the rings is
    marked sp2 and is a boron, carbon, nitrogen or phosphorus atom. *)
Theorem thiele_skeleton_atoms (mol : Molecule) (rings : Dict.t PySet.t) (n : Z) :
  Thiele.skeleton mol = Ok rings ->
  In n (Dict.keys rings) ->
  aromatizable mol n.
Proof.
  unfold Thiele.skeleton.
  assert (G : forall rs (r0 r1 : Dict.t PySet.t),
             for_each (Thiele.add_ring mol) rs r0 = Ok r1 ->
             forall x, In x (Dict.keys r1) -> In x (Dict.keys r0) \/ aromatizable mol x).
  { induction rs as [|ring rs IH]; intros r0 r1; cbn [for_each].
    - intros H. injection H as <-. auto.
    - destruct (Thiele.add_ring mol r0 ring) as [r|e] eqn:E; cbn [bind];
        [|discriminate].
      intros H x Hx. destruct (IH _ _ H x Hx) as [Hr|Hr]; [|auto].
      apply (add_ring_keys mol r0 ring r E x Hr). }
  intros H Hn. destruct (G _ _ _ H n Hn) as [[]|Ha]. assumption.
Qed.

Lemma thiele_skeleton_atoms_witness : aromatizable naphthoquinone 9.
Proof.
  apply (thiele_skeleton_atoms naphthoquinone
           [(1, [9; 2]); (9, [1; 10; 8]); (2, [1; 3]); (3, [2; 4]); (4, [3; 10]);
            (10, [4; 9; 5]); (5, [10; 6]); (6, [5; 7]); (7, [6; 8]); (8, [7; 9])] 9).
  - vm_compute. reflexivity.
  - right. left. reflexivity.
Defined.

(** X15.  When no ring of the ring set is made of sp2 atoms of B, C, N, P
    only, [thiele] returns [False] and the molecule is as it was. *)
Theorem thiele_without_sp2_ring
  (connected_components : Dict.t PySet.t -> list (list Z))
  (find_sssr : Dict.t PySet.t -> Z -> list (list Z)) (mol : Molecule) :
  Forall (fun ring => Thiele.all_sp2 mol ring = Ok false) (sssr mol) ->
  Thiele.thiele connected_components find_sssr mol = (Returned false, mol).
Proof.
  intros H. unfold Thiele.thiele.
  assert (E : Thiele.skeleton mol = Ok []).
  { unfold Thiele.skeleton. induction H as [|ring rs Hr _ IH]; [reflexivity|].
    cbn [for_each]. unfold Thiele.add_ring at 1. rewrite Hr. cbn [bind]. exact IH. }
  rewrite E. reflexivity.
Qed.

Lemma thiele_without_sp2_ring_witness :
  Thiele.thiele (fun _ => []) (fun _ _ => []) cyclohexane = (Returned false, cyclohexane).
Proof.
  apply (thiele_without_sp2_ring (fun _ => []) (fun _ _ => []) cyclohexane).
  repeat constructor.
Defined.

Lemma heap_set_length o heap : forall b, length (heap_set heap b o) = length heap.
Proof. induction heap as [|x heap IH]; intros [|b]; cbn; auto. Qed.

Lemma set_aromatic_length bonds nms : forall heap r heap',
  Thiele.set_aromatic bonds nms heap = (r, heap') -> length heap' = length heap.
Proof.
  induction nms as [|[n m] nms IH]; intros heap r heap'; cbn [Thiele.set_aromatic].
  - intros H. injection H as _ <-. reflexivity.
  - destruct (bind (Dict.item n bonds) (fun mb => Dict.item m mb)) as [b|e].
    + intros H. rewrite (IH _ _ _ H). apply heap_set_length.
    + intros H. injection H as _ <-. reflexivity.
Qed.

Lemma aromatize_length bonds found : forall seen heap r heap',
  Thiele.aromatize bonds found seen heap = (r, heap') -> length heap' = length heap.
Proof.
  induction found as [|ring found IH]; intros seen heap r heap';
    cbn [Thiele.aromatize].
  - intros H. injection H as _ <-. reflexivity.
  - cbv zeta. destruct ring as [|n [|y tl]];
      try (intros H; injection H as _ <-; reflexivity).
    destruct (Thiele.set_aromatic bonds _ heap) as [[u|e] heap1] eqn:E.
    + intros H. rewrite (IH _ _ _ _ H). apply (set_aromatic_length _ _ _ _ _ E).
    + intros H. injection H as _ <-. apply (set_aromatic_length _ _ _ _ _ E).
Qed.

(** X16.  However [thiele] ends, it leaves the atoms, their charges,
    radical flags and hydrogen counts, the adjacency maps and the ring list
    as they were, and it creates or deletes no Bond object: only bond
    orders and hybridization marks can differ. *)
Theorem thiele_keeps_the_graph
  (connected_components : Dict.t PySet.t -> list (list Z))
  (find_sssr : Dict.t PySet.t -> Z -> list (list Z)) (mol : Molecule) :
  frame (snd (Thiele.thiele connected_components find_sssr mol)) = frame mol
  /\ _hydrogens (snd (Thiele.thiele connected_components find_sssr mol))
     = _hydrogens mol
  /\ length (_heap (snd (Thiele.thiele connected_components find_sssr mol)))
     = length (_heap mol).
Proof.
  unfold Thiele.thiele.
  destruct (Thiele.skeleton mol) as [[|kv rings]|e]; cbn [snd]; auto.
  destruct (Thiele.quinones mol _ _) as [db|e]; cbn [snd]; auto.
  destruct (Thiele.trim _ db) as [[|kv' rings']|e|]; cbn [snd]; auto.
  destruct (Thiele.n_sssr connected_components (kv' :: rings') =? 0); cbn [snd]; auto.
  destruct (Thiele.aromatize _ _ _ _) as [[seen|e] heap] eqn:E; cbn [snd];
    (split; [reflexivity|split; [reflexivity|]]);
    cbn [_heap Thiele.with_marks]; apply (aromatize_length _ _ _ _ _ _ E).
Qed.

(** The pairs of ring neighbours [thiele] writes for a ring: the closing
    pair, then the consecutive ones. *)
Definition ring_pairs (ring : list Z) : list (Z * Z) :=
  match ring with
  | n :: (_ :: _) as tl => (n, last tl 0) :: Prepare.zip_next ring
  | _ => []
  end.

Lemma aromatic_stays heap b b' :
  nth_error heap b = Some 4 -> nth_error (heap_set heap b' 4) b = Some 4.
Proof.
  intros H. rewrite nth_error_heap_set.
  destruct (Nat.eqb_spec b b') as [<-|_]; [|assumption].
  assert (Hlt : (b < length heap)%nat) by (apply nth_error_Some; congruence).
  apply Nat.ltb_lt in Hlt. rewrite Hlt. reflexivity.
Qed.

Lemma valid_refs_lt mol n mb m b :
  valid_refs mol = true ->
  Dict.get n (_bonds mol) = Some mb -> Dict.get m mb = Some b ->
  (b < length (_heap mol))%nat.
Proof.
  unfold valid_refs. intros H Hn Hm.
  rewrite forallb_forall in H. specialize (H _ (get_in _ _ _ Hn)).
  rewrite forallb_forall in H. specialize (H _ (get_in _ _ _ Hm)).
  apply Nat.ltb_lt in H. exact H.
Qed.

Lemma set_aromatic_writes mol nms : forall heap heap',
  valid_refs mol = true ->
  length heap = length (_heap mol) ->
  Thiele.set_aromatic (_bonds mol) nms heap = (Ok tt, heap') ->
  (forall b, nth_error heap b = Some 4 -> nth_error heap' b = Some 4)
  /\ forall n m, In (n, m) nms ->
       exists b, bond_ref mol n m = Ok b /\ nth_error heap' b = Some 4.
Proof.
  induction nms as [|[n m] nms IH]; intros heap heap' V L; cbn [Thiele.set_aromatic].
  - intros H. injection H as <-. split; [auto|intros n m []].
  - fold (bond_ref mol n m).
    destruct (bond_ref mol n m) as [b|e] eqn:Eb; [|discriminate].
    intros H.
    destruct (IH _ _ V (eq_trans (heap_set_length 4 heap b) L) H) as [Hkeep Hnew].
    split.
    + intros b0 Hb0. apply Hkeep, aromatic_stays, Hb0.
    + intros n0 m0 [E|Hin]; [|apply Hnew, Hin].
      injection E as <- <-. exists b. split; [assumption|].
      apply Hkeep. rewrite nth_error_heap_set, Nat.eqb_refl.
      assert (Hlt : (b < length heap)%nat).
      { rewrite L. unfold bond_ref, Dict.item in Eb.
        destruct (Dict.get n (_bonds mol)) as [mb|] eqn:En; cbn [bind] in Eb;
          [|discriminate].
        destruct (Dict.get m mb) as [b1|] eqn:Em; [|discriminate].
        injection Eb as ->. apply (valid_refs_lt mol n mb m b V En Em). }
      apply Nat.ltb_lt in Hlt. rewrite Hlt. reflexivity.
Qed.

Lemma fold_add_in (ring : list Z) : forall (seen : PySet.t) x,
  In x (fold_left (fun s y => PySet.add y s) ring seen) <-> In x seen \/ In x ring.
Proof.
  induction ring as [|y ring IH]; intros seen x; cbn [fold_left].
  - cbn. tauto.
  - rewrite IH, in_set_add. cbn. intuition congruence.
Qed.

Lemma aromatize_writes mol found : forall seen heap seen' heap',
  valid_refs mol = true ->
  length heap = length (_heap mol) ->
  Thiele.aromatize (_bonds mol) found seen heap = (Ok seen', heap') ->
  (forall b, nth_error heap b = Some 4 -> nth_error heap' b = Some 4)
  /\ (forall x, In x seen -> In x seen')
  /\ forall ring, In ring found ->
       (forall x, In x ring -> In x seen')
       /\ forall n m, In (n, m) (ring_pairs ring) ->
            exists b, bond_ref mol n m = Ok b /\ nth_error heap' b = Some 4.
Proof.
  induction found as [|ring found IH]; intros seen heap seen' heap' V L;
    cbn [Thiele.aromatize].
  - intros H. injection H as <- <-. split; [auto|]. split; [auto|]. intros rg [].
  - cbv zeta. destruct ring as [|n [|y tl]]; try discriminate.
    destruct (Thiele.set_aromatic (_bonds mol) _ heap) as [[[]|e] heap1] eqn:E;
      [|discriminate].
    intros H.
    destruct (set_aromatic_writes mol _ _ _ V L E) as [Hkeep1 Hnew1].
    assert (L1 : length heap1 = length (_heap mol)).
    { rewrite (set_aromatic_length _ _ _ _ _ E). exact L. }
    destruct (IH _ _ _ _ V L1 H) as (Hkeep & Hseen & Hrest).
    split; [intros b Hb; apply Hkeep, Hkeep1, Hb|].
    split; [intros x Hx; apply Hseen, fold_add_in; left; exact Hx|].
    intros rg [<-|Hin]; [|apply Hrest, Hin].
    split.
    + intros x Hx. apply Hseen, fold_add_in. right. exact Hx.
    + intros n0 m0 Hp. destruct (Hnew1 n0 m0 Hp) as (b & Hb & Hv).
      exists b. split; [assumption|]. apply Hkeep, Hv.
Qed.

Lemma fold_mark_get (seen : list Z) x : forall (sh : Dict.t Z),
  In x seen \/ Dict.get x sh = Some 4 ->
  Dict.get x (fold_left (fun sh n => Dict.set n 4 sh) seen sh) = Some 4.
Proof.
  induction seen as [|y seen IH]; intros sh; cbn [fold_left].
  - intros [[]|H]. exact H.
  - intros H. apply IH. destruct (Z.eq_dec x y) as [->|Hne].
    + right. apply get_set_same.
    + rewrite (get_set_other _ _ _ _ Hne). destruct H as [[H|H]|H]; [congruence|auto|auto].
Qed.

(** X17.  When [thiele] returns [True], every ring the ring finder gave
    for the trimmed skeleton is aromatic afterwards: its closing bond and
    the bonds between consecutive atoms have order 4, and its atoms carry
    the hybridization mark 4. *)
Theorem thiele_marks_found_rings
  (connected_components : Dict.t PySet.t -> list (list Z))
  (find_sssr : Dict.t PySet.t -> Z -> list (list Z)) (mol mol' : Molecule) :
  valid_refs mol = true ->
  Thiele.thiele connected_components find_sssr mol = (Returned true, mol') ->
  exists rings0 double_bonded rings,
    Thiele.skeleton mol = Ok rings0
    /\ Thiele.quinones mol rings0 (Dict.keys rings0) = Ok double_bonded
    /\ Thiele.trim rings0 double_bonded = Returned rings
    /\ forall ring,
         In ring (find_sssr rings (Thiele.n_sssr connected_components rings)) ->
         (forall n, In n ring -> Dict.get n (_hybridizations mol') = Some 4)
         /\ (forall n m, In (n, m) (ring_pairs ring) -> bond_order mol' n m = Ok 4).
Proof.
  intros V. unfold Thiele.thiele.
  destruct (Thiele.skeleton mol) as [[|kv rings0]|e] eqn:Es; try discriminate.
  destruct (Thiele.quinones mol _ _) as [db|e] eqn:Eq; try discriminate.
  destruct (Thiele.trim _ db) as [[|kv' rings]|e|] eqn:Et; try discriminate.
  destruct (Thiele.n_sssr connected_components (kv' :: rings) =? 0); try discriminate.
  destruct (Thiele.aromatize _ _ _ _) as [[seen|e] heap] eqn:E; try discriminate.
  intros H. injection H as <-.
  exists (kv :: rings0), db, (kv' :: rings). repeat split; try assumption.
  - intros n Hn. cbn [_hybridizations Thiele.with_marks].
    destruct (aromatize_writes mol _ _ _ _ _ V eq_refl E) as (_ & _ & Hr).
    apply fold_mark_get. left. apply (proj1 (Hr ring H)), Hn.
  - intros n m Hp.
    destruct (aromatize_writes mol _ _ _ _ _ V eq_refl E) as (_ & _ & Hr).
    destruct (proj2 (Hr ring H) n m Hp) as (b & Hb & Hv).
    unfold bond_ref in Hb. unfold bond_order. cbn [_bonds _heap Thiele.with_marks].
    destruct (Dict.item n (_bonds mol)) as [mb|e]; cbn [bind] in *; [|discriminate].
    rewrite Hb. cbn [bind]. unfold heap_order. rewrite Hv. reflexivity.
Qed.

(** Benzene in a Kekule form, its atoms marked sp2, with stand-ins for the
    ring finder of the container that know its one ring. *)
Definition kekule_benzene : Molecule :=
  let m :=
    Build.molecule
      [Build.C 1; Build.C 2; Build.C 3; Build.C 4; Build.C 5; Build.C 6]
      [(1, 2, 2); (2, 3, 1); (3, 4, 2); (4, 5, 1); (5, 6, 2); (1, 6, 1)]
      [[1; 2; 3; 4; 5; 6]] in
  mkMolecule (_atoms m) (_charges m) (_radicals m) (_hydrogens m)
             (map (fun a => (a, 2)) [1; 2; 3; 4; 5; 6])
             (_bonds m) (_heap m) (sssr m).

Definition one_component (_ : Dict.t PySet.t) : list (list Z) := [[1; 2; 3; 4; 5; 6]].
Definition one_ring (_ : Dict.t PySet.t) (_ : Z) : list (list Z) := [[1; 2; 3; 4; 5; 6]].

Lemma thiele_marks_found_rings_witness :
  exists rings0 double_bonded rings,
    Thiele.skeleton kekule_benzene = Ok rings0
    /\ Thiele.quinones kekule_benzene rings0 (Dict.keys rings0) = Ok double_bonded
    /\ Thiele.trim rings0 double_bonded = Returned rings
    /\ forall ring,
         In ring (one_ring rings (Thiele.n_sssr one_component rings)) ->
         (forall n, In n ring ->
            Dict.get n (_hybridizations
                          (snd (Thiele.thiele one_component one_ring kekule_benzene)))
            = Some 4)
         /\ (forall n m, In (n, m) (ring_pairs ring) ->
               bond_order (snd (Thiele.thiele one_component one_ring kekule_benzene)) n m
               = Ok 4).
Proof.
  apply (thiele_marks_found_rings one_component one_ring kekule_benzene
           (snd (Thiele.thiele one_component one_ring kekule_benzene))).
  - reflexivity.
  - vm_compute. reflexivity.
Defined.

(** ** The splitter of [__kekule_full] *)


Lemma in_difference x a b :
  In x (PySet.difference a b) <-> In x a /\ ~ In x b.
Proof.
  unfold PySet.difference. rewrite filter_In, negb_true_iff, set_mem_false. tauto.
Qed.

Lemma in_dict_set {V} k (v : V) d k' v' :
  In (k', v') (Dict.set k v d) -> In (k', v') d \/ (k' = k /\ v' = v).
Proof.
  induction d as [|[k0 v0] d IH]; cbn [Dict.set].
  - intros [H|[]]. injection H as <- <-. auto.
  - destruct (Z.eqb_spec k0 k) as [->|Hne].
    + intros [H|H]; [injection H as <- <-; auto|left; right; exact H].
    + intros [H|H]; [left; left; exact H|].
      destruct (IH H) as [H'|H']; [left; right; exact H'|auto].
Qed.

(** The invariant of the walk: the component files atoms under their
    neighbour sets in the skeleton, and the neighbours of every filed atom
    that has left the queue are filed too. *)
Definition walk_ok (rings : Dict.t PySet.t) (queue : list Z)
           (component : Dict.t PySet.t) : Prop :=
  (forall n ms, In (n, ms) component -> ms = dd_get n rings)
  /\ forall n, In n (Dict.keys component) ->
       In n queue \/ forall m, In m (dd_get n rings) -> In m (Dict.keys component).

Lemma visits_ok rings l : forall q c q' c',
  fold_left (Full.visit rings) l (q, c) = (q', c') ->
  (forall n ms, In (n, ms) c -> ms = dd_get n rings) ->
  (forall n ms, In (n, ms) c' -> ms = dd_get n rings)
  /\ (forall n, In n (Dict.keys c) -> In n (Dict.keys c'))
  /\ (forall n, In n q -> In n q')
  /\ (forall n, In n l -> In n (Dict.keys c'))
  /\ (forall n, In n (Dict.keys c') -> In n (Dict.keys c) \/ In n q').
Proof.
  induction l as [|x l IH]; intros q c q' c'; cbn [fold_left].
  - intros H Hc. injection H as <- <-. repeat split; auto. intros n [].
  - unfold Full.visit at 2. cbn [fst snd].
    destruct (Dict.mem x c) eqn:Ex.
    + intros H Hc. destruct (IH _ _ _ _ H Hc) as (A & B & C & D & E).
      repeat split; auto.
      intros n [<-|Hn]; [|auto]. apply B, mem_true, Ex.
    + intros H Hc.
      assert (Hc1 : forall n ms, In (n, ms) (Dict.set x (dd_get x rings) c) ->
                                 ms = dd_get n rings).
      { intros n ms Hin. apply in_dict_set in Hin as [Hin|[-> ->]]; auto. }
      destruct (IH _ _ _ _ H Hc1) as (A & B & C & D & E).
      split; [exact A|]. split; [|split; [|split]].
      * intros n Hn. apply B, in_keys_set. auto.
      * intros n Hn. apply C, in_or_app. auto.
      * intros n [<-|Hn]; [|auto]. apply B, in_keys_set. auto.
      * intros n Hn. destruct (E n Hn) as [Hk|Hq]; [|auto].
        apply in_keys_set in Hk as [Hk| ->]; [auto|].
        right. apply C, in_or_app. right. left. reflexivity.
Qed.

Lemma walk_closed rings fuel : forall queue component comp,
  Full.walk fuel rings queue component = Some comp ->
  walk_ok rings queue component ->
  walk_ok rings [] comp
  /\ forall n, In n (Dict.keys component) -> In n (Dict.keys comp).
Proof.
  induction fuel as [|fuel IH]; intros queue component comp; cbn [Full.walk];
    [discriminate|].
  destruct queue as [|current queue].
  - intros H Hok. injection H as <-. auto.
  - cbv zeta.
    destruct (fold_left (Full.visit rings) (dd_get current rings) (queue, component))
      as [q' c'] eqn:E.
    cbn [fst snd]. intros H [Hc Hq].
    destruct (visits_ok rings _ _ _ _ _ E Hc) as (A & B & C & D & F).
    assert (Hok' : walk_ok rings q' c').
    { split; [exact A|]. intros n Hn.
      destruct (F n Hn) as [Hk|Hq']; [|auto].
      destruct (Hq n Hk) as [[<-|Hin]|Hcl].
      - right. exact D.
      - left. apply C, Hin.
      - right. intros m Hm. apply B, Hcl, Hm. }
    destruct (IH _ _ _ H Hok') as [Hfin Hkeys].
    split; [exact Hfin|]. intros n Hn. apply Hkeys, B, Hn.
Qed.

Lemma split_ok rings fuel : forall atoms cs,
  Full.split fuel rings atoms = Some cs ->
  (forall n, In n atoms -> exists c, In c cs /\ In n (Dict.keys c))
  /\ forall c, In c cs -> walk_ok rings [] c.
Proof.
  induction fuel as [|fuel IH]; intros atoms cs; cbn [Full.split]; [discriminate|].
  destruct atoms as [|start atoms].
  - intros H. injection H as <-. split; [intros n []|intros c []].
  - destruct (Full.walk fuel rings [start] [(start, dd_get start rings)])
      as [comp|] eqn:Ew; [|discriminate].
    destruct (Full.split fuel rings (PySet.difference atoms (Dict.keys comp)))
      as [comps|] eqn:Es; [|discriminate].
    intros H. injection H as <-.
    destruct (IH _ _ Es) as [Hcover Hall].
    assert (Hstart : walk_ok rings [start] [(start, dd_get start rings)]).
    { split.
      - intros n ms [H|[]]. injection H as <- <-. reflexivity.
      - intros n [<-|[]]. left. left. reflexivity. }
    destruct (walk_closed rings fuel _ _ _ Ew Hstart) as [Hfin Hkeys].
    split.
    + intros n [<-|Hn].
      * exists comp. split; [left; reflexivity|]. apply Hkeys. left. reflexivity.
      * destruct (in_dec Z.eq_dec n (Dict.keys comp)) as [Hin|Hout].
        -- exists comp. split; [left; reflexivity|exact Hin].
        -- destruct (Hcover n) as (c & Hc & Hnc).
           { apply in_difference. auto. }
           exists c. split; [right; exact Hc|exact Hnc].
    + intros c [<-|Hc]; [exact Hfin|apply Hall, Hc].
Qed.



(** ** What [__kekule_full] yields *)

Lemma yielded_gen_map {A B} (f : A -> B) (g : gen A) x :
  In x (yielded (Full.gen_map f g)) -> exists a, In a (yielded g) /\ x = f a.
Proof.
  induction g as [a rest IH| | |]; cbn [Full.gen_map yielded];
    [|intros []|intros []|intros []].
  intros [<-|Hx]; [exists a; split; [left|]; reflexivity|].
  destruct (IH Hx) as (a' & Ha & E). exists a'. split; [right; exact Ha|exact E].
Qed.

Lemma yielded_gen_app {A} (g1 g2 : gen A) x :
  In x (yielded (Full.gen_app g1 g2)) -> In x (yielded g1) \/ In x (yielded g2).
Proof.
  induction g1 as [a rest IH| | |]; cbn [Full.gen_app yielded];
    [|auto|intros []|intros []].
  intros [<-|Hx]; [left; left; reflexivity|].
  destruct (IH Hx); [left; right; assumption|right; assumption].
Qed.

Lemma yielded_gen_bind {A B} (g : gen A) (k : A -> gen B) x :
  In x (yielded (Full.gen_bind g k)) ->
  exists a, In a (yielded g) /\ In x (yielded (k a)).
Proof.
  induction g as [a rest IH| | |]; cbn [Full.gen_bind yielded];
    [|intros []|intros []|intros []].
  intros Hx. apply yielded_gen_app in Hx as [Hx|Hx].
  - exists a. split; [left; reflexivity|exact Hx].
  - destruct (IH Hx) as (a' & Ha & Hk). exists a'. split; [right; exact Ha|exact Hk].
Qed.

Lemma yielded_lazy_product {A} (gs : list (gen A)) : forall qs,
  In qs (yielded (Full.lazy_product gs)) ->
  forall q, In q qs -> exists g, In g gs /\ In q (yielded g).
Proof.
  induction gs as [|g gs IH]; intros qs; cbn [Full.lazy_product].
  - cbn [yielded]. intros [<-|[]] q [].
  - cbv zeta. intros Hx. apply yielded_gen_bind in Hx as (a & Ha & Hk).
    apply yielded_gen_map in Hk as (qs' & Hqs' & ->).
    intros q [<-|Hq].
    + exists g. split; [left; reflexivity|exact Ha].
    + destruct (IH qs' Hqs' q Hq) as (g' & Hg' & Hy).
      exists g'. split; [right; exact Hg'|exact Hy].
Qed.

Lemma kekule_forms_edges fuel (rings : Dict.t PySet.t) py db form :
  In form (yielded (Full.kekule_forms fuel (rings, py, db))) ->
  forall atom neighbour order,
    In (atom, neighbour, order) form ->
    (order = 1 \/ order = 2) /\ In atom (dd_get neighbour rings).
Proof.
  unfold Full.kekule_forms.
  destruct (Full.components rings) as [cs|] eqn:Ec; [|intros []].
  intros Hy0 atom neighbour order Hin.
  apply yielded_gen_map in Hy0 as (qs & Hqs & ->).
  apply in_concat in Hin as (q & Hq & Hin).
  destruct (yielded_lazy_product _ _ Hqs q Hq) as (g & Hg & Hy).
  apply in_map_iff in Hg as (c & <- & Hc).
  apply PathFacts.yielded_paths_ok in Hy as [Hedges _].
  rewrite Forall_forall in Hedges.
  destruct (Hedges _ Hin) as [Ho (ms & Hms & Ha)]. cbn [fst snd] in *.
  split; [exact Ho|].
  destruct (split_ok rings _ _ _ Ec) as [_ Hall].
  destruct (Hall c Hc) as [Hval _].
  rewrite <- (Hval neighbour ms (get_in _ _ _ Hms)). exact Ha.
Qed.

(** X19.  Every form that [__kekule_full] yields is made of triples
    [(atom, neighbour, order)] whose atoms are neighbours in the skeleton
    of [__prepare_rings] and whose order is 1 or 2. *)
Theorem kekule_full_yields_skeleton_edges
        (fuel : nat) (mol : Molecule) (rings : Dict.t PySet.t) (py db : PySet.t)
        (form : list Component.triple) :
  Prepare.prepare_rings mol = Ok (rings, py, db) ->
  In form (yielded (Full.kekule_full fuel mol)) ->
  forall atom neighbour order,
    In (atom, neighbour, order) form ->
    (order = 1 \/ order = 2) /\ In atom (dd_get neighbour rings).
Proof.
  intros Hp. unfold Full.kekule_full. rewrite Hp. apply kekule_forms_edges.
Qed.

Lemma kekule_full_yields_skeleton_edges_witness :
  (2 = 1 \/ 2 = 2)
  /\ In 3 (dd_get 2 [(1, [2; 5]); (2, [1; 3]); (3, [2; 4]); (4, [3; 5]); (5, [4; 1])]).
Proof.
  apply (kekule_full_yields_skeleton_edges 20 thiophene
           [(1, [2; 5]); (2, [1; 3]); (3, [2; 4]); (4, [3; 5]); (5, [4; 1])] [] [1]
           [(2, 1, 1); (3, 2, 2); (4, 3, 1); (5, 4, 2); (1, 5, 1)]).
  - reflexivity.
  - vm_compute. left. reflexivity.
  - right. left. reflexivity.
Defined.

(** ** The bonds [kekule] rewrites *)

Lemma valid_refs_with_heap mol heap :
  length heap = length (_heap mol) -> valid_refs (with_heap mol heap) = valid_refs mol.
Proof. intros L. unfold valid_refs. cbn [_heap _bonds with_heap]. rewrite L. reflexivity. Qed.

Lemma bond_ref_lt mol n m b :
  valid_refs mol = true -> bond_ref mol n m = Ok b -> (b < length (_heap mol))%nat.
Proof.
  unfold valid_refs, bond_ref, Dict.item. intros V.
  destruct (Dict.get n (_bonds mol)) as [mb|] eqn:En; cbn [bind]; [|discriminate].
  destruct (Dict.get m mb) as [b1|] eqn:Em; [|discriminate].
  intros H. injection H as <-.
  rewrite forallb_forall in V. specialize (V _ (get_in _ _ _ En)).
  rewrite forallb_forall in V. specialize (V _ (get_in _ _ _ Em)).
  apply Nat.ltb_lt in V. exact V.
Qed.

(** A Bond object whose order is 1 or 2. *)
Definition kekule_bond (heap : list Z) (b : nat) : Prop :=
  nth_error heap b = Some 1 \/ nth_error heap b = Some 2.

Lemma kekule_bond_stays heap b b' o :
  o = 1 \/ o = 2 -> kekule_bond heap b -> kekule_bond (heap_set heap b' o) b.
Proof.
  intros Ho Hb. unfold kekule_bond. rewrite nth_error_heap_set.
  destruct (Nat.eqb_spec b b') as [<-|_]; [|exact Hb].
  assert (Hlt : (b < length heap)%nat).
  { apply nth_error_Some. destruct Hb as [Hb|Hb]; rewrite Hb; discriminate. }
  apply Nat.ltb_lt in Hlt. rewrite Hlt. destruct Ho as [-> | ->]; auto.
Qed.

Lemma patch_bonds_writes patch : forall mol atoms atoms' mol',
  valid_refs mol = true ->
  patch_bonds mol patch atoms = (Ok atoms', mol') ->
  (forall n m o, In (n, m, o) patch -> o = 1 \/ o = 2) ->
  (forall b, kekule_bond (_heap mol) b -> kekule_bond (_heap mol') b)
  /\ forall n m o, In (n, m, o) patch ->
       exists b, bond_ref mol n m = Ok b /\ kekule_bond (_heap mol') b.
Proof.
  induction patch as [|[[n m] o] patch IH]; intros mol atoms atoms' mol' V;
    cbn [patch_bonds].
  - intros H _. injection H as _ <-. split; [auto|intros n m o []].
  - unfold set_order.
    destruct (Dict.item n (_bonds mol)) as [mb|e] eqn:En; cbn [bind]; [|discriminate].
    destruct (Dict.item m mb) as [b|e] eqn:Em; cbn [bind]; [|discriminate].
    assert (Eb : bond_ref mol n m = Ok b).
    { unfold bond_ref. rewrite En. cbn [bind]. exact Em. }
    intros H Ho.
    assert (Ho1 : o = 1 \/ o = 2) by (apply (Ho n m o); left; reflexivity).
    assert (V1 : valid_refs (with_heap mol (heap_set (_heap mol) b o)) = true).
    { rewrite valid_refs_with_heap; [exact V|apply heap_set_length]. }
    destruct (IH _ _ _ _ V1 H) as [Hkeep Hnew].
    { intros n' m' o' Hin. apply (Ho n' m' o'). right. exact Hin. }
    cbn [_heap with_heap] in Hkeep. split.
    + intros b0 Hb0. apply Hkeep, kekule_bond_stays; assumption.
    + intros n' m' o' [E|Hin]; [|apply (Hnew n' m' o' Hin)].
      injection E as <- <- <-. exists b. split; [exact Eb|].
      apply Hkeep. unfold kekule_bond. rewrite nth_error_heap_set, Nat.eqb_refl.
      pose proof (bond_ref_lt mol n m b V Eb) as Hlt.
      apply Nat.ltb_lt in Hlt. rewrite Hlt. destruct Ho1 as [-> | ->]; auto.
Qed.

(** X20.  When [kekule] returns [True], every bond named by the form it
    applied has order 1 or 2 afterwards. *)
Theorem kekule_rewrites_the_form
  (calc_hybridization : Molecule -> Z -> Z)
  (calc_implicit : Molecule -> Z -> option Z) (fuel : nat) (mol mol' : Molecule) :
  valid_refs mol = true ->
  kekule calc_hybridization calc_implicit fuel mol = (Returned true, mol') ->
  exists form,
    first (Full.kekule_full fuel mol) = FirstValue form
    /\ form <> []
    /\ forall n m o, In (n, m, o) form ->
         bond_order mol' n m = Ok 1 \/ bond_order mol' n m = Ok 2.
Proof.
  intros V. unfold kekule.
  destruct (first (Full.kekule_full fuel mol)) as [[|t form]| |e|] eqn:Ef;
    try discriminate.
  destruct (kekule_patch calc_hybridization calc_implicit mol (t :: form))
    as [[[]|e] m1] eqn:Ep; [|discriminate].
  intros H. injection H as <-.
  exists (t :: form). split; [reflexivity|]. split; [discriminate|].
  assert (Ho : forall n m o, In (n, m, o) (t :: form) -> o = 1 \/ o = 2).
  { intros n m o Hin. unfold Full.kekule_full in Ef.
    destruct (Prepare.prepare_rings mol) as [[[rings py] db]|e]; [|discriminate].
    assert (Hy : In (t :: form) (yielded (Full.kekule_forms fuel (rings, py, db)))).
    { destruct (Full.kekule_forms fuel (rings, py, db)); try discriminate.
      injection Ef as ->. left. reflexivity. }
    apply (kekule_forms_edges _ _ _ _ _ Hy n m o Hin). }
  unfold kekule_patch in Ep.
  destruct (patch_bonds mol (t :: form) []) as [[atoms|e] mol1] eqn:E;
    [|discriminate].
  injection Ep as <-.
  destruct (patch_bonds_writes _ _ _ _ _ V E Ho) as [_ Hnew].
  destruct (patch_bonds_frame _ _ _ _ _ E) as [F _].
  destruct (recalc_all_frame calc_hybridization calc_implicit atoms mol1) as [F' H'].
  intros n m o Hin. destruct (Hnew n m o Hin) as (b & Hb & Hk).
  assert (Eb : _bonds (fold_left (recalc calc_hybridization calc_implicit) atoms mol1)
               = _bonds mol).
  { unfold frame in F, F'. congruence. }
  unfold bond_order, bond_ref in *. rewrite Eb, H'.
  destruct (Dict.item n (_bonds mol)) as [mb|e]; cbn [bind] in *; [|discriminate].
  rewrite Hb. cbn [bind]. unfold heap_order.
  destruct Hk as [Hk|Hk]; rewrite Hk; auto.
Qed.

Lemma kekule_rewrites_the_form_witness :
  exists form,
    first (Full.kekule_full 20 thiophene) = FirstValue form
    /\ form <> []
    /\ forall n m o, In (n, m, o) form ->
         bond_order (snd (kekule sp2_mark one_hydrogen 20 thiophene)) n m = Ok 1
         \/ bond_order (snd (kekule sp2_mark one_hydrogen 20 thiophene)) n m = Ok 2.
Proof.
  apply (kekule_rewrites_the_form sp2_mark one_hydrogen 20 thiophene
           (snd (kekule sp2_mark one_hydrogen 20 thiophene))).
  - reflexivity.
  - vm_compute. reflexivity.
Defined.

(** ** The copies [enumerate_kekule] yields *)

Lemma patched_copies_frame
  (calc_hybridization : Molecule -> Z -> Z)
  (calc_implicit : Molecule -> Z -> option Z) (mol : Molecule)
  (forms : gen (list Component.triple)) (copy : Molecule) :
  In copy (yielded (patched_copies calc_hybridization calc_implicit mol forms)) ->
  exists form,
    In form (yielded forms)
    /\ kekule_patch calc_hybridization calc_implicit mol form = (Ok tt, copy).
Proof.
  induction forms as [form rest IH| | |]; cbn [patched_copies yielded];
    [|intros []|intros []|intros []].
  destruct (kekule_patch calc_hybridization calc_implicit mol form)
    as [[[]|e] c] eqn:E; cbn [yielded]; [|intros []].
  intros [<-|H].
  - exists form. split; [left; reflexivity|exact E].
  - destruct (IH H) as (form' & Hin & Hp). exists form'. split; [right; exact Hin|exact Hp].
Qed.

(** X21.  Every copy that [enumerate_kekule] yields is the molecule
    patched with one of the forms of [__kekule_full]: it has the atoms,
    charges, radical flags, adjacency maps and ring list of the molecule,
    and as many Bond objects. *)
Theorem enumerate_kekule_yields_patched_copies
  (calc_hybridization : Molecule -> Z -> Z)
  (calc_implicit : Molecule -> Z -> option Z) (fuel : nat)
  (mol copy : Molecule) :
  In copy (yielded (enumerate_kekule calc_hybridization calc_implicit fuel mol)) ->
  (exists form,
     In form (yielded (Full.kekule_full fuel mol))
     /\ kekule_patch calc_hybridization calc_implicit mol form = (Ok tt, copy))
  /\ frame copy = frame mol
  /\ length (_heap copy) = length (_heap mol).
Proof.
  unfold enumerate_kekule. intros H.
  destruct (patched_copies_frame _ _ _ _ _ H) as (form & Hin & Hp).
  split; [exists form; auto|].
  apply (kekule_patch_frame calc_hybridization calc_implicit mol form _ _ Hp).
Qed.

Lemma enumerate_kekule_yields_patched_copies_witness :
  (exists form,
     In form (yielded (Full.kekule_full 20 thiophene))
     /\ kekule_patch sp2_mark one_hydrogen thiophene form
        = (Ok tt, snd (kekule sp2_mark one_hydrogen 20 thiophene)))
  /\ frame (snd (kekule sp2_mark one_hydrogen 20 thiophene)) = frame thiophene
  /\ length (_heap (snd (kekule sp2_mark one_hydrogen 20 thiophene)))
     = length (_heap thiophene).
Proof.
  apply (enumerate_kekule_yields_patched_copies sp2_mark one_hydrogen 20 thiophene
           (snd (kekule sp2_mark one_hydrogen 20 thiophene))).
  vm_compute. left. reflexivity.
Defined.

(** * The query marks of the container: [MoleculeContainer.reset_query_marks]

    [containers/molecule.py] keeps the molecule as a graph whose nodes are
    Atom objects and whose edges are Bond objects.  Of an atom the method
    reads [element], which it compares with the string ['H'], and writes
    [_neighbors] and [_hybridization]; of a bond it reads [order]. *)

Module QueryMarks.

Import String.

Record Atom : Type := mkAtom {
  element : string;
  _neighbors : Z;
  _hybridization : Z
}.

(** [_node]: the atoms by number; [_adj]: for every atom the orders of its
    bonds by neighbour, in insertion order. *)
Record Graph : Type := mkGraph {
  _node : Dict.t Atom;
  _adj : Dict.t (Dict.t Z)
}.

(** The [if hybridization in (3, 4): continue] ... [elif order == 2] chain:
    1 is sp3, 2 is sp2, 3 is sp, 4 is aromatic. *)
Definition hybridize (hybridization order : Z) : Z :=
  if (hybridization =? 3) || (hybridization =? 4) then hybridization
  else if order =? 4 then 4
  else if order =? 3 then 3
  else if order =? 2 then (if hybridization =? 2 then 3 else 2)
  else hybridization.

(** Body of [for j, bond in self._adj[i].items()], on
    [(neighbors, hybridization)]. *)
Definition scan_bond (node : Dict.t Atom) (st : Z * Z) (jb : Z * Z) : result (Z * Z) :=
  a <- Dict.item (fst jb) node ;;
  let neighbors := if negb (String.eqb (element a) "H") then fst st + 1 else fst st in
  Ok (neighbors, hybridize (snd st) (snd jb)).

(** The marks of the atom [i]: [(neighbors, hybridization)]. *)
Definition marks (node : Dict.t Atom) (adj : Dict.t (Dict.t Z)) (i : Z)
  : result (Z * Z) :=
  bonds <- Dict.item i adj ;;
  for_each (scan_bond node) bonds (0, 1).

(** [for i, atom in self._node.items()]: the atoms are marked in place,
    and the marks written before an exception stay. *)
Fixpoint mark_atoms (adj : Dict.t (Dict.t Z)) (todo : list (Z * Atom))
         (node : Dict.t Atom) : result unit * Dict.t Atom :=
  match todo with
  | [] => (Ok tt, node)
  | (i, atom) :: todo' =>
      match marks node adj i with
      | Raise e => (Raise e, node)
      | Ok (neighbors, hybridization) =>
          mark_atoms adj todo'
                     (Dict.set i (mkAtom (element atom) neighbors hybridization) node)
      end
  end.

Definition reset_query_marks (g : Graph) : result unit * Graph :=
  let (r, node) := mark_atoms (_adj g) (_node g) (_node g) in
  (r, mkGraph node (_adj g)).

End QueryMarks.

Module MarkFacts.

Import String.
Import QueryMarks.











(** Two atom tables with the same elements. *)
Definition same_elements (node node' : Dict.t Atom) : Prop :=
  forall j, option_map element (Dict.get j node')
            = option_map element (Dict.get j node).

Lemma scan_bond_elements node node' st jb :
  same_elements node node' -> scan_bond node' st jb = scan_bond node st jb.
Proof.
  intros H. unfold scan_bond, Dict.item. specialize (H (fst jb)).
  destruct (Dict.get (fst jb) node') as [a'|];
    destruct (Dict.get (fst jb) node) as [a|]; cbn [option_map] in H;
    try discriminate; [|reflexivity].
  injection H as H. cbn [bind]. rewrite H. reflexivity.
Qed.

Lemma marks_elements node node' adj i :
  same_elements node node' -> marks node' adj i = marks node adj i.
Proof.
  intros H. unfold marks. destruct (Dict.item i adj) as [bonds|e]; cbn [bind];
    [|reflexivity].
  generalize ((0, 1) : Z * Z).
  induction bonds as [|jb bonds IH]; intros st; cbn [for_each]; [reflexivity|].
  rewrite (scan_bond_elements node node' st jb H).
  destruct (scan_bond node st jb) as [st'|e]; cbn [bind]; [apply IH|reflexivity].
Qed.

Lemma set_same_elements node i a a' :
  Dict.get i node = Some a -> element a' = element a ->
  same_elements node (Dict.set i a' node).
Proof.
  intros Hg He j. destruct (Z.eq_dec j i) as [->|Hne].
  - rewrite get_set_same, Hg. cbn. congruence.
  - rewrite (get_set_other _ _ _ _ Hne). reflexivity.
Qed.

Lemma same_elements_trans n1 n2 n3 :
  same_elements n1 n2 -> same_elements n2 n3 -> same_elements n1 n3.
Proof. intros H1 H2 j. rewrite H2, H1. reflexivity. Qed.

Lemma keys_set_present {V} k (v v' : V) d :
  Dict.get k d = Some v -> Dict.keys (Dict.set k v' d) = Dict.keys d.
Proof.
  intros H. rewrite keys_set. unfold Dict.mem. rewrite H. reflexivity.
Qed.

(** What a run of the loop over [todo] leaves. *)
Lemma mark_atoms_spec adj todo : forall node r node',
  mark_atoms adj todo node = (r, node') ->
  NoDup (Dict.keys todo) ->
  (forall i atom, In (i, atom) todo ->
     exists a, Dict.get i node = Some a /\ element a = element atom) ->
  Dict.keys node' = Dict.keys node
  /\ same_elements node node'
  /\ (forall j, ~ In j (Dict.keys todo) -> Dict.get j node' = Dict.get j node)
  /\ (r = Ok tt ->
      forall i, In i (Dict.keys todo) ->
        exists a, Dict.get i node' = Some a
                  /\ marks node adj i = Ok (_neighbors a, _hybridization a)).
Proof.
  induction todo as [|[i atom] todo IH]; intros node r node'; cbn [mark_atoms].
  - intros H _ _. injection H as <- <-.
    repeat split; auto. intros _ i [].
  - intros H Hnd Hin. cbn [Dict.keys map fst] in Hnd.
    inversion Hnd as [|? ? Hi Hnd']; subst.
    destruct (marks node adj i) as [[nb h]|e] eqn:Em.
    + destruct (Hin i atom (or_introl eq_refl)) as (a & Ha & He).
      assert (Hse : same_elements node (Dict.set i (mkAtom (element atom) nb h) node)).
      { apply (set_same_elements node i a); [exact Ha|]. cbn. congruence. }
      assert (Hin' : forall i' atom', In (i', atom') todo ->
                exists a', Dict.get i' (Dict.set i (mkAtom (element atom) nb h) node)
                           = Some a' /\ element a' = element atom').
      { intros i' atom' Hi'. destruct (Hin i' atom' (or_intror Hi')) as (a' & Ha' & He').
        destruct (Z.eq_dec i' i) as [->|Hne].
        - exfalso. apply Hi. change i with (fst (i, atom')). apply in_map, Hi'.
        - exists a'. rewrite (get_set_other _ _ _ _ Hne). auto. }
      destruct (IH _ _ _ H Hnd' Hin') as (K & S & O & M).
      split; [rewrite K; apply (keys_set_present i a _ node Ha)|].
      split; [apply (same_elements_trans _ _ _ Hse S)|].
      split.
      * intros j Hj. cbn [Dict.keys map fst] in Hj.
        rewrite O by (intros Hc; apply Hj; right; exact Hc).
        apply get_set_other. intros ->. apply Hj. left. reflexivity.
      * intros Hr i' [<-|Hi'].
        -- exists (mkAtom (element atom) nb h). split; [|exact Em].
           eapply eq_trans; [apply (O i Hi)|apply get_set_same].
        -- destruct (M Hr i' Hi') as (a' & Ha' & Hm). exists a'. split; [exact Ha'|].
           rewrite <- Hm. symmetry. apply marks_elements, Hse.
    + injection H as <- <-. repeat split; auto. discriminate.
Qed.

Lemma set_same_value {V} k (v : V) d : Dict.get k d = Some v -> Dict.set k v d = d.
Proof.
  induction d as [|[k0 v0] d IH]; cbn [Dict.get Dict.set]; [discriminate|].
  destruct (k0 =? k); [intros H; injection H as ->; reflexivity|].
  intros H. rewrite (IH H). reflexivity.
Qed.

(** Atoms that carry their marks already are left as they are. *)
Lemma mark_atoms_settled adj node todo :
  (forall i a, In (i, a) todo ->
     Dict.get i node = Some a
     /\ marks node adj i = Ok (_neighbors a, _hybridization a)) ->
  mark_atoms adj todo node = (Ok tt, node).
Proof.
  induction todo as [|[i a] todo IH]; intros H; cbn [mark_atoms]; [reflexivity|].
  destruct (H i a (or_introl eq_refl)) as [Hg Hm]. rewrite Hm.
  replace (mkAtom (element a) (_neighbors a) (_hybridization a)) with a
    by (destruct a; reflexivity).
  rewrite (set_same_value i a node Hg). apply IH.
  intros i' a' Hin. apply H. right. exact Hin.
Qed.

(** X24.  [reset_query_marks] is idempotent: on a graph it has marked,
    a second call changes nothing; and a call keeps the atoms, their
    elements and the bonds. *)
Theorem reset_query_marks_idempotent (g g' : Graph) :
  NoDup (Dict.keys (_node g)) ->
  reset_query_marks g = (Ok tt, g') ->
  reset_query_marks g' = (Ok tt, g')
  /\ Dict.keys (_node g') = Dict.keys (_node g)
  /\ same_elements (_node g) (_node g')
  /\ _adj g' = _adj g.
Proof.
  intros Hnd. unfold reset_query_marks.
  destruct (mark_atoms (_adj g) (_node g) (_node g)) as [r node'] eqn:E.
  intros H. injection H as -> <-. cbn [_node _adj].
  destruct (mark_atoms_spec _ _ _ _ _ E Hnd) as (K & S & _ & M).
  { intros i atom Hin. exists atom. split; [apply in_get; assumption|reflexivity]. }
  rewrite mark_atoms_settled; [auto|].
  intros i a Hin.
  assert (Hg : Dict.get i node' = Some a).
  { apply in_get; [rewrite K; exact Hnd|exact Hin]. }
  split; [exact Hg|].
  assert (Hi : In i (Dict.keys (_node g))).
  { rewrite <- K. change i with (fst (i, a)). apply in_map, Hin. }
  destruct (M eq_refl i Hi) as (a' & Ha' & Hm).
  rewrite Hg in Ha'. injection Ha' as <-.
  rewrite <- Hm. apply marks_elements, S.
Qed.

Definition formaldehyde : Graph :=
  mkGraph
    [(1, mkAtom "C" 0 0); (2, mkAtom "O" 0 0); (3, mkAtom "H" 0 0); (4, mkAtom "H" 0 0)]
    [(1, [(2, 2); (3, 1); (4, 1)]); (2, [(1, 2)]); (3, [(1, 1)]); (4, [(1, 1)])].

Lemma reset_query_marks_idempotent_witness :
  reset_query_marks (snd (reset_query_marks formaldehyde))
  = (Ok tt, snd (reset_query_marks formaldehyde))
  /\ Dict.keys (_node (snd (reset_query_marks formaldehyde)))
     = Dict.keys (_node formaldehyde)
  /\ same_elements (_node formaldehyde) (_node (snd (reset_query_marks formaldehyde)))
  /\ _adj (snd (reset_query_marks formaldehyde)) = _adj formaldehyde.
Proof.
  apply (reset_query_marks_idempotent formaldehyde
           (snd (reset_query_marks formaldehyde))).
  - repeat constructor; cbn; lia.
  - vm_compute. reflexivity.
Defined.

End MarkFacts.
